(** * Sistema_Leilao: auction lifecycle and bid admission

    A shallow embedding of [src/models.py] (classes [Participante], [Lance],
    [Leilao]) and of [src/sistema.py] (class [SistemaLeiloes]), followed by
    the properties of the lifecycle state machine, of the bid-admission
    protocol and of the registry.

    Modelling conventions
    - a [float] is not-a-number, an infinity, or a finite double, given by
      the rational it denotes; the comparisons are those of IEEE 754, so
      every comparison with not-a-number is false.  Every rational stands
      for a possible finite amount: the statements range over more finite
      values than there are doubles, never fewer;
    - an [int] is compared exactly, and [float(int)] rounds it to the
      nearest double, ties to even, or raises OverflowError;
    - a [datetime] is naive or timezone-aware, in both cases the number of
      microseconds it denotes (of UTC when aware); ordering a naive against
      an aware one raises TypeError;
    - [datetime.now()] is an effect: the n-th call of a run returns the
      naive [relogio n]; a frozen clock is [relogio_fixo agora];
    - a [Participante] reference carries the fields assigned once by
      [__init__] together with the identity of the object ([pid]); the only
      mutable field, [_possui_lances], lives in a store shared by every
      reference to the object ([ofertantes]);
    - an exception leaves the mutations performed before it in place;
    - the text of [LanceInvalido] is kept as the auction name and a
      structured reason; the registry messages that quote an argument are
      abbreviated;
    - [sorted] is modelled where the language fixes its result: on keys
      without not-a-number.  What Timsort returns on other keys depends on
      its merge pattern; the model stops there with [NaoModelado], an
      outcome of the model alone. *)

From Stdlib Require Import ZArith QArith Lqa String Ascii List Bool Lia Permutation Sorted.
From stdpp Require Import base gmap list strings.
Import ListNotations.

Local Open Scope Z_scope.

(** ** Floats *)

Definition Qleb (x y : Q) : bool := Qle_bool x y.
Definition Qltb (x y : Q) : bool := negb (Qle_bool y x).

Inductive Float :=
| FNaN
| FInf (negativo : bool)
| FFin (q : Q).

(** [a < b] *)
Definition Fltb (a b : Float) : bool :=
  match a, b with
  | FNaN, _ | _, FNaN => false
  | FInf true, FInf true => false
  | FInf true, _ => true
  | FInf false, _ => false
  | FFin _, FInf n => negb n
  | FFin x, FFin y => Qltb x y
  end.

(** [a <= b] *)
Definition Fleb (a b : Float) : bool :=
  match a, b with
  | FNaN, _ | _, FNaN => false
  | FInf true, _ => true
  | FInf false, FInf false => true
  | FInf false, _ => false
  | FFin _, FInf n => negb n
  | FFin x, FFin y => Qleb x y
  end.

(** [a == b] *)
Definition Feqb (a b : Float) : bool :=
  match a, b with
  | FInf n, FInf m => Bool.eqb n m
  | FFin x, FFin y => Qeq_bool x y
  | _, _ => false
  end.

(** Whether [a] is a number: anything but not-a-number. *)
Definition e_numero (a : Float) : bool :=
  match a with FNaN => false | _ => true end.

Definition F0 : Float := FFin 0.

(** The nearest integer that a significand of 53 bits represents, ties to
    even, for [0 <= n]. *)
Definition arredonda_53 (n : Z) : Z :=
  if n <? 2 ^ 53 then n
  else
    let e := Z.log2 n - 52 in
    let q := Z.shiftr n e in
    let resto := n - Z.shiftl q e in
    let meio := Z.shiftl 1 (e - 1) in
    let q' := if (meio <? resto) || ((resto =? meio) && Z.odd q)
              then q + 1 else q in
    Z.shiftl q' e.

(** [float(z)] for an [int]: [None] stands for OverflowError. *)
Definition float_de_int (z : Z) : option Float :=
  let m := arredonda_53 (Z.abs z) in
  if 2 ^ 1024 <=? m then None
  else Some (FFin (inject_Z (Z.sgn z * m))).

(** ** Datetimes *)

Inductive DataHora :=
| Ingenua (t : Z)
| Ciente (utc : Z).

(** An order comparison of two datetimes; [None] stands for the TypeError
    of a naive datetime compared with an aware one. *)
Definition dh_compara (f : Z -> Z -> bool) (a b : DataHora) : option bool :=
  match a, b with
  | Ingenua x, Ingenua y => Some (f x y)
  | Ciente x, Ciente y => Some (f x y)
  | _, _ => None
  end.

(** [a == b]: a naive and an aware datetime are different, without error. *)
Definition dh_eqb (a b : DataHora) : bool :=
  match a, b with
  | Ingenua x, Ingenua y => x =? y
  | Ciente x, Ciente y => x =? y
  | _, _ => false
  end.

(** ** Data model *)

Record Participante := {
  pid : nat;
  nome_p : string;
  cpf : string;
  email : string
}.

(** [Participante.__eq__]: same CPF or same e-mail. *)
Definition participante_eq (a b : Participante) : bool :=
  String.eqb (cpf a) (cpf b) || String.eqb (email a) (email b).

Record Lance := {
  participante : Participante;
  valor : Float
}.

Inductive EstadoLeilao := INATIVO | ABERTO | FINALIZADO | EXPIRADO.

Definition estado_eqb (a b : EstadoLeilao) : bool :=
  match a, b with
  | INATIVO, INATIVO | ABERTO, ABERTO
  | FINALIZADO, FINALIZADO | EXPIRADO, EXPIRADO => true
  | _, _ => false
  end.

(** [EstadoLeilao.name] *)
Definition name (e : EstadoLeilao) : string :=
  match e with
  | INATIVO => "INATIVO"
  | ABERTO => "ABERTO"
  | FINALIZADO => "FINALIZADO"
  | EXPIRADO => "EXPIRADO"
  end.

Record Leilao := {
  nome : string;
  lance_minimo : Float;
  data_inicio : DataHora;
  data_termino : DataHora;
  _lances : list Lance;
  _estado : EstadoLeilao;
  _ganhador : option Participante
}.

Definition com_estado (e : EstadoLeilao) (l : Leilao) : Leilao :=
  {| nome := nome l; lance_minimo := lance_minimo l;
     data_inicio := data_inicio l; data_termino := data_termino l;
     _lances := _lances l; _estado := e; _ganhador := _ganhador l |}.

Definition com_ganhador (g : option Participante) (l : Leilao) : Leilao :=
  {| nome := nome l; lance_minimo := lance_minimo l;
     data_inicio := data_inicio l; data_termino := data_termino l;
     _lances := _lances l; _estado := _estado l; _ganhador := g |}.

Definition com_lances (ls : list Lance) (l : Leilao) : Leilao :=
  {| nome := nome l; lance_minimo := lance_minimo l;
     data_inicio := data_inicio l; data_termino := data_termino l;
     _lances := ls; _estado := _estado l; _ganhador := _ganhador l |}.

Definition com_nome (n : string) (l : Leilao) : Leilao :=
  {| nome := n; lance_minimo := lance_minimo l;
     data_inicio := data_inicio l; data_termino := data_termino l;
     _lances := _lances l; _estado := _estado l; _ganhador := _ganhador l |}.

Definition com_lance_minimo (m : Float) (l : Leilao) : Leilao :=
  {| nome := nome l; lance_minimo := m;
     data_inicio := data_inicio l; data_termino := data_termino l;
     _lances := _lances l; _estado := _estado l; _ganhador := _ganhador l |}.

Definition com_data_inicio (d : DataHora) (l : Leilao) : Leilao :=
  {| nome := nome l; lance_minimo := lance_minimo l;
     data_inicio := d; data_termino := data_termino l;
     _lances := _lances l; _estado := _estado l; _ganhador := _ganhador l |}.

Definition com_data_termino (d : DataHora) (l : Leilao) : Leilao :=
  {| nome := nome l; lance_minimo := lance_minimo l;
     data_inicio := data_inicio l; data_termino := d;
     _lances := _lances l; _estado := _estado l; _ganhador := _ganhador l |}.

(** Python values, as far as the arguments of the modelled methods go. *)
Inductive Valor :=
| VNone
| VBool (b : bool)
| VInt (z : Z)
| VFloat (f : Float)
| VStr (s : string)
| VDatetime (d : DataHora)
| VLance (l : Lance).

(** The number an [int], a [bool] or a [float] denotes; Python compares
    these by their exact values. *)
Definition numero_de (v : Valor) : option Float :=
  match v with
  | VBool b => Some (FFin (if b then 1 else 0)%Q)
  | VInt z => Some (FFin (inject_Z z))
  | VFloat f => Some f
  | _ => None
  end.

(** Truth value of an object ([not x] is [negb (truthy x)]). *)
Definition truthy (v : Valor) : bool :=
  match v with
  | VNone => false
  | VBool b => b
  | VInt z => negb (z =? 0)
  | VFloat f => negb (Feqb f F0)
  | VStr s => negb (String.eqb s "")
  | VDatetime _ => true
  | VLance _ => true
  end.

Definition isinstance_str (v : Valor) : bool :=
  match v with VStr _ => true | _ => false end.

(** [isinstance(v, (int, float))]; [bool] is a subclass of [int]. *)
Definition isinstance_int_float (v : Valor) : bool :=
  match v with VBool _ | VInt _ | VFloat _ => true | _ => false end.

Definition isinstance_datetime (v : Valor) : bool :=
  match v with VDatetime _ => true | _ => false end.

Definition isinstance_Lance (v : Valor) : bool :=
  match v with VLance _ => true | _ => false end.

(** [v <= 0] for the numeric values. *)
Definition py_le_0 (v : Valor) : bool :=
  match numero_de v with
  | Some x => Fleb x F0
  | None => false
  end.

(** [a == b] *)
Definition py_eq (a b : Valor) : bool :=
  match a, b with
  | VNone, VNone => true
  | VStr x, VStr y => String.eqb x y
  | VDatetime x, VDatetime y => dh_eqb x y
  | VLance x, VLance y =>
      participante_eq (participante x) (participante y)
      && Feqb (valor x) (valor y)
  | _, _ =>
      match numero_de a, numero_de b with
      | Some x, Some y => Feqb x y
      | _, _ => false
      end
  end.

Definition is_None (v : Valor) : bool :=
  match v with VNone => true | _ => false end.

(** ** Exceptions and the monad of methods *)

(** The reason quoted by [LanceInvalido]; the amounts are kept as numbers
    instead of their two-decimal rendering. *)
Inductive Motivo :=
| Desconhecido
| AbaixoDoMinimo (v minimo : Float)
| NaoMaiorQueUltimo (v ultimo : Float)
| DoisLancesSeguidos.

(** [NaoModelado] is raised by no code: it marks a run that left the
    model. *)
Inductive Excecao :=
| ValueError (msg : string)
| TypeError (msg : string)
| OverflowError (msg : string)
| AttributeError (msg : string)
| LeilaoInvalido (msg : string)
| LanceInvalido (leilao : string) (motivo : Motivo)
| NaoModelado (porque : string).

Inductive Resultado (A : Type) :=
| Retorna (a : A)
| Levanta (e : Excecao).
Arguments Retorna {A} a.
Arguments Levanta {A} e.

(** [float(v)] where [v] is an [int], a [bool] or a [float]; no other
    argument reaches it. *)
Definition float_de (v : Valor) : Resultado Float :=
  match v with
  | VBool b => Retorna (FFin (if b then 1 else 0)%Q)
  | VInt z =>
      match float_de_int z with
      | Some f => Retorna f
      | None => Levanta (OverflowError "int too large to convert to float")
      end
  | VFloat f => Retorna f
  | _ => Levanta (TypeError "float() argument must be a string or a real number")
  end.

Definition Relogio := nat -> Z.
Definition relogio_fixo (agora : Z) : Relogio := fun _ => agora.

Record Ambiente := {
  leituras : nat;
  ofertantes : gset nat
}.

(** A method running against an object of class [S]. *)
Definition M (S A : Type) : Type :=
  Relogio -> Ambiente -> S -> Resultado A * Ambiente * S.

(** The TypeError of an order comparison between a naive and an aware
    datetime. *)
Definition erro_de_fuso : Excecao :=
  TypeError "can't compare offset-naive and offset-aware datetimes".

Section Monad.
Context {S : Type}.

Definition ret {A} (a : A) : M S A := fun _ amb s => (Retorna a, amb, s).

Definition liga {A B} (m : M S A) (k : A -> M S B) : M S B :=
  fun r amb s =>
    match m r amb s with
    | (Retorna a, amb', s') => k a r amb' s'
    | (Levanta e, amb', s') => (Levanta e, amb', s')
    end.

Definition levanta {A} (e : Excecao) : M S A :=
  fun _ amb s => (Levanta e, amb, s).

Definition obter : M S S := fun _ amb s => (Retorna s, amb, s).

Definition modificar (f : S -> S) : M S unit :=
  fun _ amb s => (Retorna tt, amb, f s).

(** [datetime.now()], a naive datetime. *)
Definition datetime_now : M S Z :=
  fun r amb s =>
    (Retorna (r (leituras amb)),
     {| leituras := Datatypes.S (leituras amb); ofertantes := ofertantes amb |},
     s).

(** [a < b], [a <= b], [a >= b] on datetimes. *)
Definition dh_lt (a b : DataHora) : M S bool :=
  match dh_compara Z.ltb a b with
  | Some c => ret c
  | None => levanta erro_de_fuso
  end.

Definition dh_le (a b : DataHora) : M S bool :=
  match dh_compara Z.leb a b with
  | Some c => ret c
  | None => levanta erro_de_fuso
  end.

Definition dh_ge (a b : DataHora) : M S bool :=
  match dh_compara Z.geb a b with
  | Some c => ret c
  | None => levanta erro_de_fuso
  end.

Definition py_float (v : Valor) : M S Float :=
  fun _ amb s => (float_de v, amb, s).

(** [Participante.marcar_como_ofertante] *)
Definition marcar_como_ofertante (p : Participante) : M S unit :=
  fun _ amb s =>
    (Retorna tt,
     {| leituras := leituras amb; ofertantes := {[ pid p ]} ∪ ofertantes amb |},
     s).

(** [Participante.pode_ser_excluido] *)
Definition pode_ser_excluido (p : Participante) : M S bool :=
  fun _ amb s => (Retorna (bool_decide (pid p ∉ ofertantes amb)), amb, s).
End Monad.

Notation "x <- c1 ;; c2" := (liga c1 (fun x => c2))
  (at level 100, c1 at next level, right associativity).
Notation "c1 ;; c2" := (liga c1 (fun _ => c2))
  (at level 100, right associativity).

(** Running a method on another object, here a freshly built one or an
    element of a list. *)
Definition sobre {S T A} (t : T) (m : M T A) : M S (A * T) :=
  fun r amb s =>
    match m r amb t with
    | (Retorna a, amb', t') => (Retorna (a, t'), amb', s)
    | (Levanta e, amb', _) => (Levanta e, amb', s)
    end.

(** ** Built-ins: [max], [min], [sorted] with a key *)

(** [max] keeps the first element it meets until a later one has a strictly
    greater key. *)
Fixpoint max_desde {A} (key : A -> Float) (melhor : A) (resto : list A) : A :=
  match resto with
  | [] => melhor
  | x :: r => if Fltb (key melhor) (key x) then max_desde key x r
              else max_desde key melhor r
  end.

Fixpoint min_desde {A} (key : A -> Float) (melhor : A) (resto : list A) : A :=
  match resto with
  | [] => melhor
  | x :: r => if Fltb (key x) (key melhor) then min_desde key x r
              else min_desde key melhor r
  end.

Definition py_max {S A} (key : A -> Float) (l : list A) : M S A :=
  match l with
  | [] => levanta (ValueError "max() arg is an empty sequence")
  | x :: r => ret (max_desde key x r)
  end.

Definition py_min {S A} (key : A -> Float) (l : list A) : M S A :=
  match l with
  | [] => levanta (ValueError "min() arg is an empty sequence")
  | x :: r => ret (min_desde key x r)
  end.

(** The stable ascending sort; insertion from the right places an element
    before the first element whose key is not smaller. *)
Fixpoint inserir {A} (key : A -> Float) (x : A) (l : list A) : list A :=
  match l with
  | [] => [x]
  | y :: r => if Fleb (key x) (key y) then x :: y :: r
              else y :: inserir key x r
  end.

Fixpoint sorted {A} (key : A -> Float) (l : list A) : list A :=
  match l with
  | [] => []
  | x :: r => inserir key x (sorted key r)
  end.

(** [sorted(l, key=key)]: on keys that are all numbers the comparisons are
    a total preorder, and a stable sort has one possible result. *)
Definition py_sorted {S A} (key : A -> Float) (l : list A) : M S (list A) :=
  if forallb (fun x => e_numero (key x)) l then ret (sorted key l)
  else levanta (NaoModelado "sorted with a key that is not a number").

Definition vazia {A} (l : list A) : bool :=
  match l with [] => true | _ => false end.

(** ** Class [Leilao] *)

Module Leilao_.

(** Property [maior_lance] *)
Definition maior_lance : M Leilao (option Lance) :=
  self <- obter ;;
  if vazia (_lances self) then ret None
  else m <- py_max valor (_lances self) ;; ret (Some m).

(** Property [menor_lance] *)
Definition menor_lance : M Leilao (option Lance) :=
  self <- obter ;;
  if vazia (_lances self) then ret None
  else m <- py_min valor (_lances self) ;; ret (Some m).

(** Property [ultimo_lance]: [self._lances[-1]], or [None]. *)
Definition ultimo_lance : M Leilao (option Lance) :=
  self <- obter ;;
  ret (last (_lances self)).

(** Property [lances]: a sorted copy of the log. *)
Definition lances : M Leilao (list Lance) :=
  self <- obter ;;
  py_sorted valor (_lances self).

(** [atualizar_estado]: FINALIZADO is never left; the other states are
    recomputed from the clock and the log.  The comparisons with the clock
    raise TypeError on an aware date. *)
Definition atualizar_estado : M Leilao unit :=
  agora <- datetime_now ;;
  self <- obter ;;
  if estado_eqb (_estado self) FINALIZADO then ret tt
  else
    antes <- dh_lt (Ingenua agora) (data_inicio self) ;;
    if antes then modificar (com_estado INATIVO)
    else
      comecou <- dh_le (data_inicio self) (Ingenua agora) ;;
      aberto <- (if comecou then dh_lt (Ingenua agora) (data_termino self)
                 else ret false) ;;
      if aberto then modificar (com_estado ABERTO)
      else
        terminou <- dh_ge (Ingenua agora) (data_termino self) ;;
        if terminou then
          if negb (vazia (_lances self)) then
            modificar (com_estado FINALIZADO) ;;
            maior <- maior_lance ;;
            match maior with
            | Some m => modificar (com_ganhador (Some (participante m)))
            | None => ret tt
            end
          else modificar (com_estado EXPIRADO)
        else ret tt.

(** Property [estado] *)
Definition estado : M Leilao EstadoLeilao :=
  atualizar_estado ;;
  self <- obter ;;
  ret (_estado self).

(** Property [ganhador] *)
Definition ganhador : M Leilao (option Participante) :=
  e <- estado ;;
  if estado_eqb e FINALIZADO then
    self <- obter ;; ret (_ganhador self)
  else ret None.

(** [_pode_receber_lance]; [val] is the number the argument denotes, and
    [ultimo_lance] is not [None] where it is read, the log being non-empty
    there. *)
Definition _pode_receber_lance (part : Participante) (val : Float)
  : M Leilao bool :=
  e <- estado ;;
  if negb (estado_eqb e ABERTO) then ret false
  else
    self <- obter ;;
    if Fltb val (lance_minimo self) then ret false
    else if vazia (_lances self) then ret true
    else
      ultimo <- ultimo_lance ;;
      match ultimo with
      | None => levanta (AttributeError "'NoneType' object has no attribute 'valor'")
      | Some u =>
          if Fleb val (valor u) then ret false
          else if participante_eq part (participante u) then ret false
          else ret true
      end.

(** The reason computed by [propor_lance] for a rejected bid. *)
Definition motivo_da_recusa (lance : Lance) : M Leilao Motivo :=
  self <- obter ;;
  if Fltb (valor lance) (lance_minimo self) then
    ret (AbaixoDoMinimo (valor lance) (lance_minimo self))
  else if negb (vazia (_lances self)) then
    ultimo <- ultimo_lance ;;
    match ultimo with
    | None => levanta (AttributeError "'NoneType' object has no attribute 'valor'")
    | Some u =>
        if Fleb (valor lance) (valor u) then
          ret (NaoMaiorQueUltimo (valor lance) (valor u))
        else if participante_eq (participante lance) (participante u) then
          ret DoisLancesSeguidos
        else ret Desconhecido
    end
  else ret Desconhecido.

(** The text of the [LeilaoInvalido] raised by [propor_lance]. *)
Definition msg_nao_aberto (nome_leilao : string) (e : EstadoLeilao) : string :=
  ("Leilão '" ++ nome_leilao
     ++ "' não está ABERTO para receber lances (Estado: "
     ++ name e ++ ").")%string.

(** [propor_lance]; each use of the property [estado] derives the state
    anew. *)
Definition propor_lance (lance : Valor) : M Leilao unit :=
  atualizar_estado ;;
  e <- estado ;;
  if negb (estado_eqb e ABERTO) then
    self <- obter ;;
    e' <- estado ;;
    levanta (LeilaoInvalido (msg_nao_aberto (nome self) e'))
  else
    match lance with
    | VLance lance =>
        ok <- _pode_receber_lance (participante lance) (valor lance) ;;
        if negb ok then
          motivo <- motivo_da_recusa lance ;;
          self <- obter ;;
          levanta (LanceInvalido (nome self) motivo)
        else
          modificar (fun self => com_lances (_lances self ++ [lance]) self) ;;
          marcar_como_ofertante (participante lance)
    | _ => levanta (TypeError "Objeto de lance inválido.")
    end.

(** Property [pode_ser_alterado_ou_excluido] *)
Definition pode_ser_alterado_ou_excluido : M Leilao bool :=
  estado_atual <- estado ;;
  ret (estado_eqb estado_atual INATIVO || estado_eqb estado_atual EXPIRADO).

(** [Leilao.__init__]; the new object is the returned value, and an
    exception leaves no object behind.  The first three checks leave only
    the first branch of the [match]. *)
Definition __init__ {S} (nome lance_minimo data_inicio data_termino : Valor)
  : M S Leilao :=
  if negb (truthy nome) || negb (isinstance_str nome) then
    levanta (ValueError "Nome do leilão inválido.")
  else if negb (isinstance_int_float lance_minimo) || py_le_0 lance_minimo then
    levanta (ValueError "Lance mínimo deve ser positivo.")
  else if negb (isinstance_datetime data_inicio)
          || negb (isinstance_datetime data_termino) then
    levanta (ValueError "Datas de início e término devem ser objetos datetime.")
  else
    match nome, data_inicio, data_termino with
    | VStr nome, VDatetime inicio, VDatetime termino =>
        invertidas <- dh_ge inicio termino ;;
        if invertidas then
          levanta (ValueError "Data de início deve ser anterior à data de término.")
        else
          minimo <- py_float lance_minimo ;;
          r <- sobre
                 {| nome := nome; lance_minimo := minimo;
                    data_inicio := inicio; data_termino := termino;
                    _lances := []; _estado := INATIVO; _ganhador := None |}
                 atualizar_estado ;;
          ret (snd r)
    | _, _, _ => levanta (TypeError "unreachable")
    end.

End Leilao_.

(** ** Class [SistemaLeiloes]: the registry of auctions

    The element of [_leiloes] at index [i] is the object a reference to the
    i-th registered auction denotes. *)

Record SistemaLeiloes := {
  _leiloes : list Leilao
}.

(** A method of the auction at index [i]; its mutations are written back
    whether it returns or raises.  An index that denotes no auction leaves
    the registry as it is. *)
Definition no_leilao {A} (i : nat) (m : M Leilao A) : M SistemaLeiloes A :=
  fun r amb s =>
    match _leiloes s !! i with
    | Some l =>
        match m r amb l with
        | (res, amb', l') => (res, amb', {| _leiloes := <[i := l']> (_leiloes s) |})
        end
    | None => (Levanta (AttributeError "no such auction"), amb, s)
    end.

Module Sistema.

Fixpoint indice_por_nome (alvo : Valor) (ls : list Leilao) : option nat :=
  match ls with
  | [] => None
  | l :: r =>
      if py_eq (VStr (nome l)) alvo then Some O
      else Datatypes.S <$> indice_por_nome alvo r
  end.

(** [buscar_leilao_por_nome]: the first auction of that name, as an index. *)
Definition buscar_leilao_por_nome (alvo : Valor) : M SistemaLeiloes (option nat) :=
  self <- obter ;;
  ret (indice_por_nome alvo (_leiloes self)).

Definition cadastrar_leilao (nome lance_minimo data_inicio data_termino : Valor)
  : M SistemaLeiloes Leilao :=
  achado <- buscar_leilao_por_nome nome ;;
  match achado with
  | Some _ => levanta (LeilaoInvalido "Já existe um leilão com o nome dado.")
  | None =>
      novo_leilao <- Leilao_.__init__ nome lance_minimo data_inicio data_termino ;;
      modificar (fun self => {| _leiloes := _leiloes self ++ [novo_leilao] |}) ;;
      ret novo_leilao
  end.

Definition msg_nao_alteravel (nome_leilao : string) (e : EstadoLeilao) : string :=
  ("Leilão '" ++ nome_leilao ++ "' não pode ser alterado (Estado: "
     ++ name e ++ ").")%string.

Definition msg_nao_excluivel (nome_leilao : string) (e : EstadoLeilao) : string :=
  ("Leilão '" ++ nome_leilao ++ "' não pode ser excluído (Estado: "
     ++ name e ++ ").")%string.

(** [alterar_leilao].  After the checks the four attributes are assigned
    one by one: [float] may raise between the first and the second
    assignment, and [atualizar_estado] after the fourth. *)
Definition alterar_leilao
  (nome_atual novo_nome novo_lance_minimo nova_data_inicio nova_data_termino : Valor)
  : M SistemaLeiloes unit :=
  achado <- buscar_leilao_por_nome nome_atual ;;
  match achado with
  | None => levanta (LeilaoInvalido "Leilão não encontrado.")
  | Some i =>
      pode <- no_leilao i Leilao_.pode_ser_alterado_ou_excluido ;;
      if negb pode then
        leilao <- no_leilao i obter ;;
        e <- no_leilao i Leilao_.estado ;;
        levanta (LeilaoInvalido (msg_nao_alteravel (nome leilao) e))
      else
        duplicado <- (if negb (is_None novo_nome) && negb (py_eq novo_nome nome_atual)
                      then buscar_leilao_por_nome novo_nome
                      else ret None) ;;
        match duplicado with
        | Some _ => levanta (LeilaoInvalido "Já existe um leilão com o novo nome.")
        | None =>
            leilao <- no_leilao i obter ;;
            let temp_nome :=
              if negb (is_None novo_nome) then novo_nome else VStr (nome leilao) in
            let temp_lance_minimo :=
              if negb (is_None novo_lance_minimo) then novo_lance_minimo
              else VFloat (lance_minimo leilao) in
            let temp_data_inicio :=
              if negb (is_None nova_data_inicio) then nova_data_inicio
              else VDatetime (data_inicio leilao) in
            let temp_data_termino :=
              if negb (is_None nova_data_termino) then nova_data_termino
              else VDatetime (data_termino leilao) in
            if negb (truthy temp_nome) || negb (isinstance_str temp_nome) then
              levanta (ValueError "Novo nome do leilão inválido.")
            else if negb (isinstance_int_float temp_lance_minimo)
                    || py_le_0 temp_lance_minimo then
              levanta (ValueError "Novo lance mínimo deve ser positivo.")
            else if negb (isinstance_datetime temp_data_inicio)
                    || negb (isinstance_datetime temp_data_termino) then
              levanta (ValueError
                "Novas datas de início e término devem ser objetos datetime.")
            else
              match temp_nome, temp_data_inicio, temp_data_termino with
              | VStr n, VDatetime inicio, VDatetime termino =>
                  invertidas <- dh_ge inicio termino ;;
                  if invertidas then
                    levanta (ValueError
                      "Nova data de início deve ser anterior à nova data de término.")
                  else
                    no_leilao i (modificar (com_nome n)) ;;
                    minimo <- py_float temp_lance_minimo ;;
                    no_leilao i (modificar (com_lance_minimo minimo)) ;;
                    no_leilao i (modificar (com_data_inicio inicio)) ;;
                    no_leilao i (modificar (com_data_termino termino)) ;;
                    no_leilao i Leilao_.atualizar_estado
              | _, _, _ => levanta (TypeError "unreachable")
              end
        end
  end.

Definition excluir_leilao (alvo : Valor) : M SistemaLeiloes unit :=
  achado <- buscar_leilao_por_nome alvo ;;
  match achado with
  | None => levanta (LeilaoInvalido "Leilão não encontrado.")
  | Some i =>
      pode <- no_leilao i Leilao_.pode_ser_alterado_ou_excluido ;;
      if negb pode then
        leilao <- no_leilao i obter ;;
        e <- no_leilao i Leilao_.estado ;;
        levanta (LeilaoInvalido (msg_nao_excluivel (nome leilao) e))
      else
        modificar (fun self => {| _leiloes := delete i (_leiloes self) |})
  end.

End Sistema.

(** ** Specification vocabulary for the built-ins *)

(** Every key of the list is a number. *)
Definition so_numeros {A} (key : A -> Float) (l : list A) : bool :=
  forallb (fun x => e_numero (key x)) l.





(** ** Closed forms used in the statements *)

(** The environment after one reading of the clock. *)
Definition tique (amb : Ambiente) : Ambiente :=
  {| leituras := Datatypes.S (leituras amb); ofertantes := ofertantes amb |}.

(** The environment after [p] has been marked as a bidder. *)
Definition marcado (p : Participante) (amb : Ambiente) : Ambiente :=
  {| leituras := leituras amb; ofertantes := {[ pid p ]} ∪ ofertantes amb |}.

(** Both dates of the auction are naive, as [datetime.now()] is. *)
Definition datas_ingenuas (l : Leilao) : bool :=
  match data_inicio l, data_termino l with
  | Ingenua _, Ingenua _ => true
  | _, _ => false
  end.

(** The auction [atualizar_estado] leaves behind when the clock reads
    [agora], whether it returns or raises (see [atualizar_estado_derivar]). *)
Definition derivar (agora : Z) (l : Leilao) : Leilao :=
  if estado_eqb (_estado l) FINALIZADO then l
  else
    match data_inicio l with
    | Ciente _ => l
    | Ingenua ti =>
        if agora <? ti then com_estado INATIVO l
        else
          match data_termino l with
          | Ciente _ => l
          | Ingenua tf =>
              if agora <? tf then com_estado ABERTO l
              else
                match _lances l with
                | [] => com_estado EXPIRADO l
                | x :: r =>
                    com_ganhador (Some (participante (max_desde valor x r)))
                                 (com_estado FINALIZADO l)
                end
          end
    end.

(** Whether [atualizar_estado] returns when the clock reads [agora]; it
    raises TypeError otherwise. *)
Definition deriva (agora : Z) (l : Leilao) : bool :=
  estado_eqb (_estado l) FINALIZADO
  || match data_inicio l with
     | Ciente _ => false
     | Ingenua ti =>
         (agora <? ti)
         || match data_termino l with
            | Ciente _ => false
            | Ingenua _ => true
            end
     end.

(** What a method that ends with a state derivation gives. *)
Definition se_deriva {A} (ok : bool) (a : A) : Resultado A :=
  if ok then Retorna a else Levanta erro_de_fuso.

(** The three readings of the clock that a call of [propor_lance] makes from
    environment [amb] all give [agora]. *)
Definition parado (r : Relogio) (amb : Ambiente) (agora : Z) : Prop :=
  r (leituras amb) = agora
  /\ r (Datatypes.S (leituras amb)) = agora
  /\ r (Datatypes.S (Datatypes.S (leituras amb))) = agora.

(** The verdict of [_pode_receber_lance] on an auction it finds ABERTO. *)
Definition admissivel (l : Leilao) (b : Lance) : bool :=
  negb (Fltb (valor b) (lance_minimo l))
  && match last (_lances l) with
     | None => true
     | Some u =>
         negb (Fleb (valor b) (valor u))
         && negb (participante_eq (participante b) (participante u))
     end.

(** The reason [propor_lance] reports for [b] on auction [l]. *)
Definition motivo_de (l : Leilao) (b : Lance) : Motivo :=
  if Fltb (valor b) (lance_minimo l) then
    AbaixoDoMinimo (valor b) (lance_minimo l)
  else
    match last (_lances l) with
    | None => Desconhecido
    | Some u =>
        if Fleb (valor b) (valor u) then NaoMaiorQueUltimo (valor b) (valor u)
        else if participante_eq (participante b) (participante u)
             then DoisLancesSeguidos
             else Desconhecido
    end.

(** ** Sequences of calls *)

(** A caller that goes on after a call, whether it returned or raised. *)
Definition tentar {S A} (m : M S A) : M S unit :=
  fun r amb s =>
    match m r amb s with
    | (_, amb', s') => (Retorna tt, amb', s')
    end.

(** The methods and properties of a [Leilao] a client can invoke;
    [_pode_receber_lance] takes the number its second argument denotes. *)
Inductive Metodo :=
| m_atualizar_estado
| m_estado
| m_lances
| m_ultimo_lance
| m_maior_lance
| m_menor_lance
| m_ganhador
| m_pode_receber_lance (part : Participante) (val : Float)
| m_propor_lance (lance : Valor)
| m_pode_ser_alterado_ou_excluido.

Definition invocar (m : Metodo) : M Leilao unit :=
  match m with
  | m_atualizar_estado => Leilao_.atualizar_estado
  | m_estado => tentar Leilao_.estado
  | m_lances => tentar Leilao_.lances
  | m_ultimo_lance => tentar Leilao_.ultimo_lance
  | m_maior_lance => tentar Leilao_.maior_lance
  | m_menor_lance => tentar Leilao_.menor_lance
  | m_ganhador => tentar Leilao_.ganhador
  | m_pode_receber_lance part val => tentar (Leilao_._pode_receber_lance part val)
  | m_propor_lance lance => Leilao_.propor_lance lance
  | m_pode_ser_alterado_ou_excluido => tentar Leilao_.pode_ser_alterado_ou_excluido
  end.

(** A client calling methods of one auction, one after the other. *)
Fixpoint invocar_todos (ms : list Metodo) : M Leilao unit :=
  match ms with
  | [] => ret tt
  | m :: resto => tentar (invocar m) ;; invocar_todos resto
  end.

(** The calls a client of the registry can make: the registry's own
    operations on auctions, and any method of a registered auction (the
    other registry methods reach auctions through these alone). *)
Inductive Chamada :=
| c_cadastrar_leilao (nome lance_minimo data_inicio data_termino : Valor)
| c_alterar_leilao
    (nome_atual novo_nome novo_lance_minimo nova_data_inicio nova_data_termino : Valor)
| c_excluir_leilao (nome : Valor)
| c_no_leilao (i : nat) (m : Metodo).

Definition chamar (c : Chamada) : M SistemaLeiloes unit :=
  match c with
  | c_cadastrar_leilao n m i t => tentar (Sistema.cadastrar_leilao n m i t)
  | c_alterar_leilao a n m i t => Sistema.alterar_leilao a n m i t
  | c_excluir_leilao n => Sistema.excluir_leilao n
  | c_no_leilao i m => no_leilao i (invocar m)
  end.

Fixpoint chamar_todas (cs : list Chamada) : M SistemaLeiloes unit :=
  match cs with
  | [] => ret tt
  | c :: resto => tentar (chamar c) ;; chamar_todas resto
  end.

(** The registry as [SistemaLeiloes.__init__] builds it. *)
Definition sistema_vazio : SistemaLeiloes := {| _leiloes := [] |}.

(** The registry after the calls [cs]. *)
Definition sistema_apos (r : Relogio) (amb : Ambiente) (cs : list Chamada)
  : SistemaLeiloes :=
  snd (chamar_todas cs r amb sistema_vazio).

(** The auction after the method calls [ms]. *)
Definition leilao_apos (r : Relogio) (amb : Ambiente) (l : Leilao) (ms : list Metodo)
  : Leilao :=
  snd (invocar_todos ms r amb l).

(** ** Invariants of the bid log *)


(** No bid is at or below the one before it, nor from the same bidder. *)
Fixpoint acima_do_anterior (log : list Lance) : Prop :=
  match log with
  | [] => True
  | a :: resto =>
      match resto with
      | [] => True
      | b :: _ =>
          Fleb (valor b) (valor a) = false
          /\ participante_eq (participante b) (participante a) = false
      end
      /\ acima_do_anterior resto
  end.

(** Amounts strictly increase along the log. *)
Fixpoint crescente (log : list Lance) : Prop :=
  match log with
  | [] => True
  | a :: resto =>
      match resto with
      | [] => True
      | b :: _ => Fltb (valor a) (valor b) = true
      end
      /\ crescente resto
  end.

(** The first date is before the second, both naive or both aware. *)
Definition dh_antes (a b : DataHora) : Prop :=
  dh_compara Z.ltb a b = Some true.

(** What every auction built and used through the modelled interface
    satisfies. *)
Record leilao_ok (l : Leilao) : Prop := {
  ok_datas : dh_antes (data_inicio l) (data_termino l);
  ok_acima : acima_do_anterior (_lances l);
  ok_finalizado :
    _estado l = FINALIZADO ->
    exists x r, _lances l = x :: r
      /\ _ganhador l = Some (participante (max_desde valor x r));
  ok_nao_finalizado : _estado l <> FINALIZADO -> _ganhador l = None
}.

(** Every registered auction satisfies [leilao_ok]. *)
Definition todos_ok (s : SistemaLeiloes) : Prop := Forall leilao_ok (_leiloes s).

(** ** Concrete data for the examples *)

Definition alice : Participante :=
  {| pid := 1; nome_p := "Alice"; cpf := "11111111111"; email := "alice@test.com" |}.

Definition bob : Participante :=
  {| pid := 2; nome_p := "Bob"; cpf := "22222222222"; email := "bob@test.com" |}.

Definition carol : Participante :=
  {| pid := 3; nome_p := "Carol"; cpf := "33333333333"; email := "carol@test.com" |}.

Definition lance_de (p : Participante) (v : Z) : Lance :=
  {| participante := p; valor := FFin (inject_Z v) |}.

(** The bid [Lance(p, float('nan'))]. *)
Definition lance_nan (p : Participante) : Lance :=
  {| participante := p; valor := FNaN |}.

(** An auction open from 10 to 20 with minimum bid 100, before any state
    derivation. *)
Definition leilao_10_20 (log : list Lance) (e : EstadoLeilao)
  (g : option Participante) : Leilao :=
  {| nome := "Console"; lance_minimo := FFin 100; data_inicio := Ingenua 10;
     data_termino := Ingenua 20; _lances := log; _estado := e; _ganhador := g |}.

Definition amb0 : Ambiente := {| leituras := 0; ofertantes := ∅ |}.

(** A clock that reads 15 for the first four readings and 25 afterwards. *)
Definition relogio_15_25 : Relogio := fun n => if (n <? 4)%nat then 15 else 25.

(** A clock that passes the end of the window 10..20 between the second
    and the third reading. *)
Definition relogio_15_15_25 : Relogio := fun n => if (n <? 2)%nat then 15 else 25.

(** A clock that reads 15 for the first [n] readings and 25 afterwards. *)
Definition relogio_15_ate (n : nat) : Relogio :=
  fun k => if (k <? n)%nat then 15 else 25.

(** Registering the auction (one reading), Alice bidding 110 (three
    readings), then observing the state after the window has closed. *)
Definition chamadas_exemplo : list Chamada :=
  [c_cadastrar_leilao (VStr "Console") (VInt 100)
     (VDatetime (Ingenua 10)) (VDatetime (Ingenua 20));
   c_no_leilao 0 (m_propor_lance (VLance (lance_de alice 110)));
   c_no_leilao 0 m_estado].


(** Registering the auction, Alice bidding 200, Bob bidding not-a-number,
    Carol bidding 150, then observing the state after the window has
    closed. *)
Definition chamadas_nan_no_meio : list Chamada :=
  [c_cadastrar_leilao (VStr "Console") (VInt 100)
     (VDatetime (Ingenua 10)) (VDatetime (Ingenua 20));
   c_no_leilao 0 (m_propor_lance (VLance (lance_de alice 200)));
   c_no_leilao 0 (m_propor_lance (VLance (lance_nan bob)));
   c_no_leilao 0 (m_propor_lance (VLance (lance_de carol 150)));
   c_no_leilao 0 m_estado].

(** The arguments with which [Leilao.__init__] returns: a non-empty [str];
    an [int] or [float] that is not [<= 0] and that [float] converts to
    [minimo]; two naive [datetime]s, the first strictly before the
    second. *)
Definition argumentos_validos (nome lance_minimo data_inicio data_termino : Valor)
  (n : string) (minimo : Float) (ti tf : Z) : Prop :=
  nome = VStr n /\ n <> ""%string
  /\ isinstance_int_float lance_minimo = true
  /\ py_le_0 lance_minimo = false
  /\ float_de lance_minimo = Retorna minimo
  /\ data_inicio = VDatetime (Ingenua ti) /\ data_termino = VDatetime (Ingenua tf)
  /\ ti < tf.

(** [m] keeps the property [P] of the object, whether it returns or raises. *)
Definition preserva {S A} (P : S -> Prop) (m : M S A) : Prop :=
  forall r amb s, P s -> P (snd (m r amb s)).

(** * Further definitions

    The rest of the code and the vocabulary of its properties. *)

(** [l'] differs from [l] at most by its derived state and winner. *)
Definition mesmos_campos (l l' : Leilao) : Prop :=
  nome l' = nome l /\ lance_minimo l' = lance_minimo l
  /\ data_inicio l' = data_inicio l /\ data_termino l' = data_termino l
  /\ _lances l' = _lances l.

(** [novo if novo is not None else atual] *)
Definition ou_atual (novo atual : Valor) : Valor :=
  if negb (is_None novo) then novo else atual.

(** ** [SistemaLeiloes]: queries by name and the notification *)

(** [listar_lances_leilao] *)
Definition listar_lances_leilao (nome_leilao : Valor)
  : M SistemaLeiloes (list Lance) :=
  achado <- Sistema.buscar_leilao_por_nome nome_leilao ;;
  match achado with
  | None => levanta (LeilaoInvalido "Leilão não encontrado.")
  | Some i => no_leilao i Leilao_.lances
  end.

(** [obter_maior_lance_leilao] *)
Definition obter_maior_lance_leilao (nome_leilao : Valor)
  : M SistemaLeiloes (option Lance) :=
  achado <- Sistema.buscar_leilao_por_nome nome_leilao ;;
  match achado with
  | None => levanta (LeilaoInvalido "Leilão não encontrado.")
  | Some i => no_leilao i Leilao_.maior_lance
  end.

(** [obter_menor_lance_leilao] *)
Definition obter_menor_lance_leilao (nome_leilao : Valor)
  : M SistemaLeiloes (option Lance) :=
  achado <- Sistema.buscar_leilao_por_nome nome_leilao ;;
  match achado with
  | None => levanta (LeilaoInvalido "Leilão não encontrado.")
  | Some i => no_leilao i Leilao_.menor_lance
  end.

(** [obter_ganhador_leilao] *)
Definition obter_ganhador_leilao (nome_leilao : Valor)
  : M SistemaLeiloes (option Participante) :=
  achado <- Sistema.buscar_leilao_por_nome nome_leilao ;;
  match achado with
  | None => levanta (LeilaoInvalido "Leilão não encontrado.")
  | Some i => no_leilao i Leilao_.ganhador
  end.

(** What [notificar_ganhador] prints: the simulated e-mail, with its
    addressee, the winner's name, the auction's name, the winning amount and
    the end of the auction, or one of the three notices. *)
Inductive Impresso :=
| EmailGanhador (para nome_ganhador nome_leilao : string) (valor_lance : Float)
    (termino : DataHora)
| AvisoSemMaiorLance
| AvisoSemGanhador
| InfoNaoFinalizado (e : EstadoLeilao).

(** [notificar_ganhador]: the returned flag together with what was printed.
    A [Participante] and a [Lance] are true as objects, so [if ganhador] and
    [if maior_lance] test for [None]. *)
Definition notificar_ganhador (nome_leilao : Valor)
  : M SistemaLeiloes (bool * option Impresso) :=
  achado <- Sistema.buscar_leilao_por_nome nome_leilao ;;
  match achado with
  | None => levanta (LeilaoInvalido "Leilão não encontrado para notificação.")
  | Some i =>
      ganhador <- no_leilao i Leilao_.ganhador ;;
      match ganhador with
      | Some g =>
          maior_lance <- no_leilao i Leilao_.maior_lance ;;
          match maior_lance with
          | Some ml =>
              leilao <- no_leilao i obter ;;
              ret (true,
                   Some (EmailGanhador (email g) (nome_p g) (nome leilao)
                           (valor ml) (data_termino leilao)))
          | None => ret (false, Some AvisoSemMaiorLance)
          end
      | None =>
          e1 <- no_leilao i Leilao_.estado ;;
          if estado_eqb e1 FINALIZADO then ret (false, Some AvisoSemGanhador)
          else
            e2 <- no_leilao i Leilao_.estado ;;
            if negb (estado_eqb e2 FINALIZADO) then
              e3 <- no_leilao i Leilao_.estado ;;
              ret (false, Some (InfoNaoFinalizado e3))
            else ret (false, None)
      end
  end.

(** ** Objects that [Valor] does not list *)

(** A [date] that is not a [datetime] (its day number), and a
    [Participante]. *)
Inductive Objeto :=
| OValor (v : Valor)
| ODate (dia : Z)
| OParticipante (p : Participante).

(** Truth value of an object: dates and participants are always true. *)
Definition verdade (o : Objeto) : bool :=
  match o with
  | OValor v => truthy v
  | ODate _ => true
  | OParticipante _ => true
  end.

Definition e_str (o : Objeto) : bool :=
  match o with OValor v => isinstance_str v | _ => false end.

(** [isinstance(o, date)]; [datetime] is a subclass of [date]. *)
Definition e_date (o : Objeto) : bool :=
  match o with
  | ODate _ => true
  | OValor v => isinstance_datetime v
  | _ => false
  end.

(** ** [re.sub] with the pattern that keeps digits, and [re.match] *)

Definition entre (lo hi : nat) (c : ascii) : bool :=
  (lo <=? nat_of_ascii c)%nat && (nat_of_ascii c <=? hi)%nat.

(** The class [0-9]. *)
Definition digito (c : ascii) : bool := entre 48 57 c.

(** The class [a-zA-Z]. *)
Definition letra (c : ascii) : bool := entre 97 122 c || entre 65 90 c.

(** [re.sub(r'[^0-9]', '', s)]: the characters of [s] that are digits. *)
Fixpoint so_digitos (s : string) : string :=
  match s with
  | EmptyString => EmptyString
  | String c resto =>
      if digito c then String c (so_digitos resto) else so_digitos resto
  end.

(** Regular expressions over characters, with character classes. *)
Inductive Regex :=
| RNada
| RVazia
| RClasse (f : ascii -> bool)
| RSeq (a b : Regex)
| RAlt (a b : Regex)
| REstrela (a : Regex).

(** [a+] *)
Definition RMais (a : Regex) : Regex := RSeq a (REstrela a).

(** A literal character. *)
Definition RChar (c : ascii) : Regex := RClasse (Ascii.eqb c).

Fixpoint anulavel (e : Regex) : bool :=
  match e with
  | RNada => false
  | RVazia => true
  | RClasse _ => false
  | RSeq a b => anulavel a && anulavel b
  | RAlt a b => anulavel a || anulavel b
  | REstrela _ => true
  end.

(** What is left of [e] after reading [c]. *)
Fixpoint derivada (c : ascii) (e : Regex) : Regex :=
  match e with
  | RNada => RNada
  | RVazia => RNada
  | RClasse f => if f c then RVazia else RNada
  | RSeq a b =>
      if anulavel a then RAlt (RSeq (derivada c a) b) (derivada c b)
      else RSeq (derivada c a) b
  | RAlt a b => RAlt (derivada c a) (derivada c b)
  | REstrela a => RSeq (derivada c a) (REstrela a)
  end.

(** Whether the whole of [s] matches [e]. *)
Fixpoint casa_toda (e : Regex) (s : list ascii) : bool :=
  match s with
  | [] => anulavel e
  | c :: resto => casa_toda (derivada c e) resto
  end.

(** The strings a regular expression denotes. *)
Inductive denota : Regex -> list ascii -> Prop :=
| denota_vazia : denota RVazia []
| denota_classe f c : f c = true -> denota (RClasse f) [c]
| denota_seq a b s1 s2 : denota a s1 -> denota b s2 -> denota (RSeq a b) (s1 ++ s2)
| denota_alt_e a b s : denota a s -> denota (RAlt a b) s
| denota_alt_d a b s : denota b s -> denota (RAlt a b) s
| denota_estrela_0 a : denota (REstrela a) []
| denota_estrela_mais a s1 s2 :
    denota a s1 -> denota (REstrela a) s2 -> denota (REstrela a) (s1 ++ s2).

(** [$] when the pattern ends with it: the end of the string, or a newline
    that is its last character. *)
Definition RFim : Regex := RAlt RVazia (RChar "010"%char).

(** The class [a-zA-Z0-9._%+-] *)
Definition classe_local (c : ascii) : bool :=
  letra c || digito c
  || Ascii.eqb c "."%char || Ascii.eqb c "_"%char || Ascii.eqb c "%"%char
  || Ascii.eqb c "+"%char || Ascii.eqb c "-"%char.

(** The class [a-zA-Z0-9.-] *)
Definition classe_dominio (c : ascii) : bool :=
  letra c || digito c || Ascii.eqb c "."%char || Ascii.eqb c "-"%char.

(** The pattern of [_validar_email]:
    [^[a-zA-Z0-9._%+-]+@[a-zA-Z0-9.-]+\.[a-zA-Z]{2,}$]. *)
Definition padrao_email : Regex :=
  RSeq (RMais (RClasse classe_local))
    (RSeq (RChar "@"%char)
       (RSeq (RMais (RClasse classe_dominio))
          (RSeq (RChar "."%char)
             (RSeq (RClasse letra)
                (RSeq (RClasse letra)
                   (RSeq (REstrela (RClasse letra)) RFim)))))).

(** [re.match(padrao, s) is not None] for a pattern anchored at both ends. *)
Definition re_match (padrao : Regex) (s : string) : bool :=
  casa_toda padrao (list_ascii_of_string s).

(** ** Class [Participante] *)

Module Participante_.

(** [_validar_cpf]: eleven digits once everything else is removed. *)
Definition _validar_cpf (cpf : Objeto) : bool :=
  if negb (verdade cpf) || negb (e_str cpf) then false
  else
    match cpf with
    | OValor (VStr s) => (String.length (so_digitos s) =? 11)%nat
    | _ => false
    end.

(** [_formatar_cpf] *)
Definition _formatar_cpf (cpf : string) : string := so_digitos cpf.

(** [_validar_email] *)
Definition _validar_email (email : Objeto) : bool :=
  if negb (verdade email) || negb (e_str email) then false
  else
    match email with
    | OValor (VStr s) => re_match padrao_email s
    | _ => false
    end.

(** [self._possui_lances = False] on the object of identity [ident]. *)
Definition iniciar_possui_lances {S} (ident : nat) : M S unit :=
  fun _ amb s =>
    (Retorna tt,
     {| leituras := leituras amb; ofertantes := ofertantes amb ∖ {[ ident ]} |},
     s).

(** [Participante.__init__]; [ident] is the identity of the object being
    built, and the new object is the returned value.  [data_nascimento] is
    checked and then only shown by [__repr__]. *)
Definition __init__ {S} (ident : nat) (nome cpf email data_nascimento : Objeto)
  : M S Participante :=
  if negb (verdade nome) || negb (e_str nome) then
    levanta (ValueError "Nome inválido.")
  else if negb (_validar_cpf cpf) then
    levanta (ValueError "CPF inválido.")
  else if negb (_validar_email email) then
    levanta (ValueError "Email inválido.")
  else if negb (e_date data_nascimento) then
    levanta (ValueError "Data de nascimento inválida.")
  else
    match nome, cpf, email with
    | OValor (VStr nome), OValor (VStr cpf), OValor (VStr email) =>
        iniciar_possui_lances ident ;;
        ret {| pid := ident; nome_p := nome; cpf := _formatar_cpf cpf;
               email := email |}
    | _, _, _ => levanta (TypeError "unreachable")
    end.

(** [__hash__] hashes the CPF: the value two participants must share to
    have the same hash. *)
Definition chave_do_hash (p : Participante) : string := cpf p.

End Participante_.

(** ** Class [Lance] *)

Module Lance_.

(** [Lance.__init__]; the new object is the returned value.  The stored
    amount is [float(valor)]. *)
Definition __init__ {S} (participante valor : Objeto) : M S Lance :=
  match participante with
  | OParticipante p =>
      match valor with
      | OValor v =>
          if negb (isinstance_int_float v) || py_le_0 v then
            levanta (ValueError "O valor do lance deve ser positivo.")
          else
            f <- py_float v ;;
            ret {| participante := p; valor := f |}
      | _ => levanta (ValueError "O valor do lance deve ser positivo.")
      end
  | _ => levanta (TypeError "Participante inválido para o lance.")
  end.

(** [__eq__], [__lt__], [__le__], [__gt__], [__ge__] between two bids. *)
Definition __eq__ (a b : Lance) : bool :=
  participante_eq (participante a) (participante b)
  && Feqb (valor a) (valor b).
Definition __lt__ (a b : Lance) : bool := Fltb (valor a) (valor b).
Definition __le__ (a b : Lance) : bool := Fleb (valor a) (valor b).
Definition __gt__ (a b : Lance) : bool := Fltb (valor b) (valor a).
Definition __ge__ (a b : Lance) : bool := Fleb (valor b) (valor a).

End Lance_.

(** ** [SistemaLeiloes.listar_leiloes] *)

(** [datetime.min] and [datetime.max], counting microseconds from the first
    instant of year 1; a [date] is the number of whole days since then. *)
Definition microssegundos_por_dia : Z := 86400000000.
Definition datetime_min : Z := 0.
Definition datetime_max : Z := 3652059 * microssegundos_por_dia - 1.

(** [datetime.combine(d, time.min)] and [datetime.combine(d, time.max)] *)
Definition combine_min (dia : Z) : Z := dia * microssegundos_por_dia.
Definition combine_max (dia : Z) : Z :=
  dia * microssegundos_por_dia + (microssegundos_por_dia - 1).

(** The body of the loop of [listar_leiloes] for the auction at index [i]:
    whether it is kept.  The two comparisons with the interval are joined by
    [and], so the second is made only when the first holds. *)
Definition listar_um (estado : option EstadoLeilao)
  (data_inicio_intervalo data_fim_intervalo : option Z) (i : nat)
  : M SistemaLeiloes bool :=
  no_leilao i Leilao_.atualizar_estado ;;
  combina <- (match estado with
              | Some e =>
                  e' <- no_leilao i Leilao_.estado ;;
                  ret (estado_eqb e' e)
              | None => ret true
              end) ;;
  if combina
     && (bool_decide (is_Some data_inicio_intervalo)
         || bool_decide (is_Some data_fim_intervalo)) then
    leilao <- no_leilao i obter ;;
    let filtro_inicio_dt :=
      match data_inicio_intervalo with
      | Some d => combine_min d
      | None => datetime_min
      end in
    let filtro_fim_dt :=
      match data_fim_intervalo with
      | Some d => combine_max d
      | None => datetime_max
      end in
    comeca_antes <- dh_le (data_inicio leilao) (Ingenua filtro_fim_dt) ;;
    if comeca_antes then
      dh_ge (data_termino leilao) (Ingenua filtro_inicio_dt)
    else ret false
  else ret combina.

(** The loop over the auctions from index [i] on, [n] of them. *)
Fixpoint listar_desde (estado : option EstadoLeilao)
  (data_inicio_intervalo data_fim_intervalo : option Z) (n i : nat)
  : M SistemaLeiloes (list Leilao) :=
  match n with
  | O => ret []
  | Datatypes.S n' =>
      combina <- listar_um estado data_inicio_intervalo data_fim_intervalo i ;;
      leilao <- no_leilao i obter ;;
      resto <- listar_desde estado data_inicio_intervalo data_fim_intervalo
                 n' (Datatypes.S i) ;;
      ret (if combina then leilao :: resto else resto)
  end.

(** [listar_leiloes]; the arguments are an [EstadoLeilao] or [None], and
    [date]s or [None]. *)
Definition listar_leiloes (estado : option EstadoLeilao)
  (data_inicio_intervalo data_fim_intervalo : option Z)
  : M SistemaLeiloes (list Leilao) :=
  self <- obter ;;
  listar_desde estado data_inicio_intervalo data_fim_intervalo
    (length (_leiloes self)) O.

(** ** [SistemaLeiloes] with its participants *)

(** The registry as a whole: the dictionary from CPF to participant, the
    auctions, and the identity the next object built by the registry gets. *)
Record SistemaCompleto := {
  _participantes : gmap string Participante;
  leiloes_do_sistema : SistemaLeiloes;
  proximo_objeto : nat
}.

(** A result, or the exception ParticipanteInvalido, which [Excecao] does
    not list; it is raised only as the last act of the methods below. *)
Inductive Saida (A : Type) :=
| Normal (a : A)
| ParticipanteInvalido (msg : string).
Arguments Normal {A} a.
Arguments ParticipanteInvalido {A} msg.

(** A method of the auctions part of the registry. *)
Definition nos_leiloes {A} (m : M SistemaLeiloes A) : M SistemaCompleto A :=
  fun r amb s =>
    match m r amb (leiloes_do_sistema s) with
    | (res, amb', sl') =>
        (res, amb',
         {| _participantes := _participantes s; leiloes_do_sistema := sl';
            proximo_objeto := proximo_objeto s |})
    end.

(** The identity of a new object. *)
Definition novo_objeto : M SistemaCompleto nat :=
  fun _ amb s =>
    (Retorna (proximo_objeto s), amb,
     {| _participantes := _participantes s;
        leiloes_do_sistema := leiloes_do_sistema s;
        proximo_objeto := Datatypes.S (proximo_objeto s) |}).

Definition com_participantes (ps : gmap string Participante)
  (s : SistemaCompleto) : SistemaCompleto :=
  {| _participantes := ps; leiloes_do_sistema := leiloes_do_sistema s;
     proximo_objeto := proximo_objeto s |}.

(** [_formatar_cpf_busca] *)
Definition _formatar_cpf_busca (cpf : Objeto) : string :=
  if negb (verdade cpf) || negb (e_str cpf) then ""%string
  else
    match cpf with
    | OValor (VStr s) => so_digitos s
    | _ => ""%string
    end.

(** [buscar_participante_por_cpf]: [self._participantes.get(cpf_numerico)] *)
Definition buscar_participante_por_cpf (cpf : Objeto)
  : M SistemaCompleto (option Participante) :=
  self <- obter ;;
  ret (_participantes self !! _formatar_cpf_busca cpf).

(** [cadastrar_participante]; the loop over the registered participants
    looks for one with the new e-mail. *)
Definition cadastrar_participante (o_nome o_cpf o_email o_data_nascimento : Objeto)
  : M SistemaCompleto (Saida Participante) :=
  ident <- novo_objeto ;;
  novo_participante <-
    Participante_.__init__ ident o_nome o_cpf o_email o_data_nascimento ;;
  let cpf_fmt := cpf novo_participante in
  self <- obter ;;
  if bool_decide (is_Some (_participantes self !! cpf_fmt)) then
    ret (ParticipanteInvalido ("CPF " ++ cpf_fmt ++ " já cadastrado."))
  else if bool_decide
            (map_Exists (fun _ p => email p = email novo_participante)
               (_participantes self)) then
    ret (ParticipanteInvalido
           ("Email " ++ email novo_participante ++ " já cadastrado."))
  else
    modificar (fun self =>
      com_participantes (<[cpf_fmt := novo_participante]> (_participantes self))
        self) ;;
    ret (Normal novo_participante).

(** [excluir_participante] *)
Definition excluir_participante (o_cpf : Objeto) : M SistemaCompleto (Saida unit) :=
  participante <- buscar_participante_por_cpf o_cpf ;;
  let cpf_fmt := _formatar_cpf_busca o_cpf in
  match participante with
  | None =>
      ret (ParticipanteInvalido
             ("Participante com CPF " ++ cpf_fmt ++ " não encontrado."))
  | Some p =>
      pode <- pode_ser_excluido p ;;
      if negb pode then
        ret (ParticipanteInvalido
               ("Participante " ++ nome_p p ++ " (CPF: " ++ cpf_fmt
                  ++ ") não pode ser excluído pois possui lances registrados."))
      else
        modificar (fun self =>
          com_participantes (delete cpf_fmt (_participantes self)) self) ;;
        ret (Normal tt)
  end.

(** [propor_lance_sistema] *)
Definition propor_lance_sistema (o_cpf : Objeto) (nome_leilao : Valor)
  (valor_lance : Objeto) : M SistemaCompleto (Saida unit) :=
  participante <- buscar_participante_por_cpf o_cpf ;;
  match participante with
  | None => ret (ParticipanteInvalido "Participante não encontrado.")
  | Some p =>
      achado <- nos_leiloes (Sistema.buscar_leilao_por_nome nome_leilao) ;;
      match achado with
      | None => levanta (LeilaoInvalido "Leilão não encontrado.")
      | Some i =>
          novo_lance <- Lance_.__init__ (OParticipante p) valor_lance ;;
          nos_leiloes (no_leilao i (Leilao_.propor_lance (VLance novo_lance))) ;;
          ret (Normal tt)
      end
  end.

(** The calls a client of [SistemaLeiloes] can make. *)
Inductive ChamadaSistema :=
| s_cadastrar_participante (o_nome o_cpf o_email o_data_nascimento : Objeto)
| s_excluir_participante (o_cpf : Objeto)
| s_cadastrar_leilao (nome lance_minimo data_inicio data_termino : Valor)
| s_alterar_leilao
    (nome_atual novo_nome novo_lance_minimo nova_data_inicio nova_data_termino : Valor)
| s_excluir_leilao (nome : Valor)
| s_listar_leiloes (estado : option EstadoLeilao)
    (data_inicio_intervalo data_fim_intervalo : option Z)
| s_propor_lance_sistema (o_cpf : Objeto) (nome_leilao : Valor) (valor_lance : Objeto)
| s_obter_ganhador_leilao (nome_leilao : Valor)
| s_notificar_ganhador (nome_leilao : Valor)
| s_buscar_participante_por_cpf (o_cpf : Objeto)
| s_buscar_leilao_por_nome (nome : Valor)
| s_listar_lances_leilao (nome_leilao : Valor)
| s_obter_maior_lance_leilao (nome_leilao : Valor)
| s_obter_menor_lance_leilao (nome_leilao : Valor).

Definition chamar_sistema (c : ChamadaSistema) : M SistemaCompleto unit :=
  match c with
  | s_cadastrar_participante n c e d => tentar (cadastrar_participante n c e d)
  | s_excluir_participante c => tentar (excluir_participante c)
  | s_cadastrar_leilao n m i t => tentar (nos_leiloes (Sistema.cadastrar_leilao n m i t))
  | s_alterar_leilao a n m i t => nos_leiloes (Sistema.alterar_leilao a n m i t)
  | s_excluir_leilao n => nos_leiloes (Sistema.excluir_leilao n)
  | s_listar_leiloes e di df => tentar (nos_leiloes (listar_leiloes e di df))
  | s_propor_lance_sistema c n v => tentar (propor_lance_sistema c n v)
  | s_obter_ganhador_leilao n => tentar (nos_leiloes (obter_ganhador_leilao n))
  | s_notificar_ganhador n => tentar (nos_leiloes (notificar_ganhador n))
  | s_buscar_participante_por_cpf c => tentar (buscar_participante_por_cpf c)
  | s_buscar_leilao_por_nome n =>
      tentar (nos_leiloes (Sistema.buscar_leilao_por_nome n))
  | s_listar_lances_leilao n => tentar (nos_leiloes (listar_lances_leilao n))
  | s_obter_maior_lance_leilao n =>
      tentar (nos_leiloes (obter_maior_lance_leilao n))
  | s_obter_menor_lance_leilao n =>
      tentar (nos_leiloes (obter_menor_lance_leilao n))
  end.

Fixpoint chamar_sistema_todas (cs : list ChamadaSistema) : M SistemaCompleto unit :=
  match cs with
  | [] => ret tt
  | c :: resto => tentar (chamar_sistema c) ;; chamar_sistema_todas resto
  end.

(** The registry as [SistemaLeiloes.__init__] builds it; the identities of
    its future objects start at [ident]. *)
Definition sistema_completo_vazio (ident : nat) : SistemaCompleto :=
  {| _participantes := ∅; leiloes_do_sistema := sistema_vazio;
     proximo_objeto := ident |}.

(** [m] leaves the has-bid flags of all participants as they are. *)
Definition nao_marca {S A} (m : M S A) : Prop :=
  forall r amb s, ofertantes (snd (fst (m r amb s))) = ofertantes amb.

(** The registry after the calls [cs], and the environment with it. *)
Definition sistema_completo_apos (r : Relogio) (amb : Ambiente) (ident : nat)
  (cs : list ChamadaSistema) : Ambiente * SistemaCompleto :=
  (snd (fst (chamar_sistema_todas cs r amb (sistema_completo_vazio ident))),
   snd (chamar_sistema_todas cs r amb (sistema_completo_vazio ident))).

(** What holds of the participants and the bids of a registry used through
    its methods: each participant is filed under their CPF, of eleven
    digits, and was built by the registry; no two share an e-mail or an
    identity; and every bidder of every auction is a registered participant
    whose has-bid flag is set. *)
Record registro_ok (amb : Ambiente) (s : SistemaCompleto) : Prop := {
  reg_chave :
    forall k p, _participantes s !! k = Some p ->
      cpf p = k /\ String.length k = 11%nat /\ so_digitos k = k
      /\ (pid p < proximo_objeto s)%nat;
  reg_email :
    forall k1 k2 p1 p2,
      _participantes s !! k1 = Some p1 -> _participantes s !! k2 = Some p2 ->
      email p1 = email p2 -> k1 = k2;
  reg_ident :
    forall k1 k2 p1 p2,
      _participantes s !! k1 = Some p1 -> _participantes s !! k2 = Some p2 ->
      pid p1 = pid p2 -> k1 = k2;
  reg_lances :
    forall l b,
      l ∈ _leiloes (leiloes_do_sistema s) -> b ∈ _lances l ->
      _participantes s !! cpf (participante b) = Some (participante b)
      /\ pid (participante b) ∈ ofertantes amb
}.

(** ** Vocabulary for [listar_leiloes] *)

(** The microseconds a date denotes, whatever its kind. *)
Definition instante (d : DataHora) : Z :=
  match d with
  | Ingenua t => t
  | Ciente t => t
  end.

(** The filters of [listar_leiloes] on an auction with naive dates whose
    state has been derived. *)
Definition atende (estado : option EstadoLeilao)
  (data_inicio_intervalo data_fim_intervalo : option Z) (l : Leilao) : bool :=
  match estado with
  | Some e => estado_eqb (_estado l) e
  | None => true
  end
  && match data_inicio_intervalo, data_fim_intervalo with
     | None, None => true
     | _, _ =>
         (instante (data_inicio l)
            <=? from_option combine_max datetime_max data_fim_intervalo)
         && (instante (data_termino l)
               >=? from_option combine_min datetime_min data_inicio_intervalo)
     end.

(** How many times [listar_leiloes] reads the clock for each auction. *)
Definition leituras_por_leilao (estado : option EstadoLeilao) : nat :=
  match estado with
  | Some _ => 2
  | None => 1
  end.

(** The auctions as the loop of [listar_leiloes] leaves them when the first
    reading of the clock it makes is the [k]-th. *)
Fixpoint derivados (estado : option EstadoLeilao) (r : Relogio) (k : nat)
  (ls : list Leilao) : list Leilao :=
  match ls with
  | [] => []
  | l :: resto =>
      match estado with
      | Some _ =>
          derivar (r (Datatypes.S k)) (derivar (r k) l)
            :: derivados estado r (Datatypes.S (Datatypes.S k)) resto
      | None => derivar (r k) l :: derivados estado r (Datatypes.S k) resto
      end
  end.

(** The environment after [n] more readings of the clock. *)
Definition tiques (n : nat) (amb : Ambiente) : Ambiente :=
  {| leituras := n + leituras amb; ofertantes := ofertantes amb |}.


(** ** Concrete calls of the whole registry *)

(** Alice is registered with a formatted CPF, the auction of the examples is
    registered, and Alice bids 110 through the registry, giving her CPF
    without formatting. *)
Definition chamadas_sistema_exemplo : list ChamadaSistema :=
  [s_cadastrar_participante (OValor (VStr "Alice"))
     (OValor (VStr "111.111.111-11")) (OValor (VStr "alice@test.com"))
     (ODate 726000);
   s_cadastrar_leilao (VStr "Console") (VInt 100)
     (VDatetime (Ingenua 10)) (VDatetime (Ingenua 20));
   s_propor_lance_sistema (OValor (VStr "11111111111")) (VStr "Console")
     (OValor (VInt 110))].



(** ** Concrete data with a bid that is not a number *)



(** Registering the auction, Alice bidding 110, Bob bidding 120, then
    observing the state after the window has closed. *)
Definition chamadas_dois_lances : list Chamada :=
  [c_cadastrar_leilao (VStr "Console") (VInt 100)
     (VDatetime (Ingenua 10)) (VDatetime (Ingenua 20));
   c_no_leilao 0 (m_propor_lance (VLance (lance_de alice 110)));
   c_no_leilao 0 (m_propor_lance (VLance (lance_de bob 120)));
   c_no_leilao 0 m_estado].

(** A clock that goes back: 15 for the first four readings, 5 afterwards. *)
Definition relogio_15_5 : Relogio := fun n => if (n <? 4)%nat then 15 else 5.

(** Registering the auction, Alice bidding 110, then, the clock having gone
    back to before the window, raising the minimum to 200. *)
Definition chamadas_minimo_alterado : list Chamada :=
  [c_cadastrar_leilao (VStr "Console") (VInt 100)
     (VDatetime (Ingenua 10)) (VDatetime (Ingenua 20));
   c_no_leilao 0 (m_propor_lance (VLance (lance_de alice 110)));
   c_alterar_leilao (VStr "Console") VNone (VInt 200) VNone VNone].

(** The auction of the examples as a failed [alterar_leilao] with aware
    dates leaves it. *)
Definition leilao_datas_cientes : Leilao :=
  {| nome := "Console"; lance_minimo := FFin 100; data_inicio := Ciente 10;
     data_termino := Ciente 20; _lances := []; _estado := INATIVO;
     _ganhador := None |}.
(** * Properties *)

(** ** The comparisons of floats *)

Lemma Qleb_spec (x y : Q) : reflect (x <= y)%Q (Qleb x y).
Proof.
  unfold Qleb. destruct (Qle_bool x y) eqn:E; constructor.
  - now apply Qle_bool_iff.
  - intros H. apply Qle_bool_iff in H. congruence.
Qed.

Lemma Qltb_spec (x y : Q) : reflect (x < y)%Q (Qltb x y).
Proof.
  unfold Qltb. destruct (Qle_bool y x) eqn:E; constructor; simpl.
  - apply Qle_bool_iff in E. lra.
  - apply Qnot_le_lt. intros H. apply Qle_bool_iff in H. congruence.
Qed.

Lemma Qeqb_spec (x y : Q) : reflect (x == y)%Q (Qeq_bool x y).
Proof.
  destruct (Qeq_bool x y) eqn:E; constructor.
  - now apply Qeq_bool_iff.
  - intros H. apply Qeq_bool_iff in H. congruence.
Qed.

Lemma estado_eqb_spec (a b : EstadoLeilao) : reflect (a = b) (estado_eqb a b).
Proof. destruct a, b; constructor; congruence. Qed.

(** Case analysis on the floats in sight, then on the comparisons of
    rationals that are left. *)
Ltac q_ord :=
  repeat match goal with
         | H : context [Qltb ?x ?y] |- _ => destruct (Qltb_spec x y)
         | |- context [Qltb ?x ?y] => destruct (Qltb_spec x y)
         | H : context [Qleb ?x ?y] |- _ => destruct (Qleb_spec x y)
         | |- context [Qleb ?x ?y] => destruct (Qleb_spec x y)
         | H : context [Qeq_bool ?x ?y] |- _ => destruct (Qeqb_spec x y)
         | |- context [Qeq_bool ?x ?y] => destruct (Qeqb_spec x y)
         end;
  try congruence; try reflexivity; try lra.

Ltac f_ord :=
  repeat match goal with
         | a : Float |- _ => destruct a as [|[|]|?]
         end;
  cbn in *; try congruence; try reflexivity; q_ord.

Lemma Fltb_le a b : Fltb a b = true -> Fleb a b = true.
Proof. f_ord. Qed.

Lemma Flt_trans a b c : Fltb a b = true -> Fltb b c = true -> Fltb a c = true.
Proof. f_ord. Qed.

Lemma Fle_trans a b c : Fleb a b = true -> Fleb b c = true -> Fleb a c = true.
Proof. f_ord. Qed.



Lemma Fle_refl a : e_numero a = true -> Fleb a a = true.
Proof. f_ord. Qed.

(** Between numbers [<] is the negation of the converse [<=]. *)
Lemma Fltb_negb a b :
  e_numero a = true -> e_numero b = true -> Fltb a b = negb (Fleb b a).
Proof. f_ord. Qed.


Lemma Flt_total a b :
  e_numero a = true -> e_numero b = true ->
  Fleb a b = false -> Fltb b a = true.
Proof. intros Ha Hb H. rewrite (Fltb_negb b a Hb Ha), H. reflexivity. Qed.

Lemma Fltb_irrefl a : Fltb a a = false.
Proof. f_ord. Qed.

Lemma Fltb_nao_le a b : Fltb a b = true -> Fleb b a = false.
Proof. f_ord. Qed.

Lemma Feqb_le a b : Feqb a b = true -> Fleb a b = true /\ Fleb b a = true.
Proof. f_ord. all: split; q_ord. Qed.

Lemma Fle_antissim a b : Fleb a b = true -> Fleb b a = true -> Feqb a b = true.
Proof. f_ord. Qed.

(** Every comparison with not-a-number is false. *)
Lemma comparacoes_com_nan a :
  Fltb a FNaN = false /\ Fltb FNaN a = false
  /\ Fleb a FNaN = false /\ Fleb FNaN a = false
  /\ Feqb a FNaN = false /\ Feqb FNaN a = false.
Proof. destruct a as [|[|]|q]; repeat split. Qed.

Lemma Fltb_numeros a b : Fltb a b = true -> e_numero a = true /\ e_numero b = true.
Proof. f_ord. all: split; reflexivity. Qed.

Lemma Fleb_numeros a b : Fleb a b = true -> e_numero a = true /\ e_numero b = true.
Proof. f_ord. all: split; reflexivity. Qed.

(** ** What [max], [min] and [sorted] compute *)

Section Embutidos.
Context {A : Type} (key : A -> Float).

Lemma so_numeros_cons x l :
  so_numeros key (x :: l) = true
  <-> e_numero (key x) = true /\ so_numeros key l = true.
Proof. unfold so_numeros. cbn. apply andb_true_iff. Qed.

Lemma so_numeros_app l1 l2 :
  so_numeros key (l1 ++ l2) = true
  <-> so_numeros key l1 = true /\ so_numeros key l2 = true.
Proof. unfold so_numeros. rewrite forallb_app. apply andb_true_iff. Qed.






(** Whatever the keys, [max] and [min] return an element of the list. *)
Lemma max_desde_elemento (x : A) (r : list A) : max_desde key x r ∈ x :: r.
Proof.
  revert x. induction r as [|y r IH]; intros x; cbn; [apply list_elem_of_here|].
  destruct (Fltb (key x) (key y)).
  - apply list_elem_of_further, IH.
  - specialize (IH x). apply elem_of_cons in IH.
    destruct IH as [->|IH]; [apply list_elem_of_here|].
    now apply list_elem_of_further, list_elem_of_further.
Qed.

Lemma min_desde_elemento (x : A) (r : list A) : min_desde key x r ∈ x :: r.
Proof.
  revert x. induction r as [|y r IH]; intros x; cbn; [apply list_elem_of_here|].
  destruct (Fltb (key y) (key x)).
  - apply list_elem_of_further, IH.
  - specialize (IH x). apply elem_of_cons in IH.
    destruct IH as [->|IH]; [apply list_elem_of_here|].
    now apply list_elem_of_further, list_elem_of_further.
Qed.

(** What [max] returns on any keys: nothing after it is strictly greater. *)
Lemma max_desde_nao_superado (r : list A) : forall x,
  exists pre suf, x :: r = pre ++ max_desde key x r :: suf
    /\ Forall (fun y => Fltb (key (max_desde key x r)) (key y) = false) suf.
Proof.
  induction r as [|y r IH]; intros x; cbn.
  - exists [], []. split; [reflexivity|constructor].
  - destruct (Fltb (key x) (key y)) eqn:E.
    + destruct (IH y) as (pre & suf & Hl & Hs).
      exists (x :: pre), suf. split; [|exact Hs]. cbn. f_equal. exact Hl.
    + destruct (IH x) as (pre & suf & Hl & Hs).
      destruct pre as [|p pre].
      * cbn in Hl. injection Hl as Hx Hr. exists [], (y :: suf).
        split; [cbn; f_equal; [exact Hx|f_equal; exact Hr]|].
        constructor; [now rewrite <- Hx|exact Hs].
      * cbn in Hl. injection Hl as Hp Hr. subst p.
        exists (x :: y :: pre), suf. split; [|exact Hs]. cbn.
        f_equal. f_equal. exact Hr.
Qed.








Lemma py_sorted_numeros {S} (l : list A) r amb (s : S) :
  so_numeros key l = true ->
  py_sorted key l r amb s = (Retorna (sorted key l), amb, s).
Proof. intros H. unfold py_sorted. fold (so_numeros key l). now rewrite H. Qed.
End Embutidos.


(** ** The methods of [Leilao], run *)

Lemma liga_retorna {S A B} (m : M S A) (k : A -> M S B) r amb s a amb' s' :
  m r amb s = (Retorna a, amb', s') ->
  liga m k r amb s = k a r amb' s'.
Proof. intros H. unfold liga. now rewrite H. Qed.

Lemma liga_levanta {S A B} (m : M S A) (k : A -> M S B) r amb s e amb' s' :
  m r amb s = (Levanta e, amb', s') ->
  liga m k r amb s = (Levanta e, amb', s').
Proof. intros H. unfold liga. now rewrite H. Qed.

Lemma liga_se_deriva {S A B} (m : M S A) (k : A -> M S B) r amb s ok a amb' s' :
  m r amb s = (se_deriva ok a, amb', s') ->
  liga m k r amb s
  = if ok then k a r amb' s' else (Levanta erro_de_fuso, amb', s').
Proof. intros H. unfold liga. rewrite H. now destruct ok. Qed.

Lemma last_nao_vazia {A} (l : list A) :
  vazia l = false -> exists u, last l = Some u.
Proof.
  destruct l as [|x r]; [discriminate|]. intros _.
  destruct (last (x :: r)) eqn:E; [eauto|].
  apply last_None in E. discriminate.
Qed.

Lemma last_vazia {A} (l : list A) : vazia l = true -> last l = None.
Proof. destruct l; [reflexivity|discriminate]. Qed.

(** [atualizar_estado] reads the clock once and leaves [derivar]; it returns
    exactly when [deriva] says so. *)
Lemma atualizar_estado_derivar r amb l :
  Leilao_.atualizar_estado r amb l
  = (se_deriva (deriva (r (leituras amb)) l) tt, tique amb,
     derivar (r (leituras amb)) l).
Proof.
  unfold Leilao_.atualizar_estado, derivar, deriva, liga, datetime_now, obter,
    tique, dh_lt, dh_le, dh_ge, dh_compara, se_deriva.
  cbn [leituras ofertantes].
  destruct (estado_eqb (_estado l) FINALIZADO); [reflexivity|]. cbn [orb].
  destruct (data_inicio l) as [ti|ui]; [|reflexivity].
  cbn [ret levanta modificar].
  destruct (Z.ltb_spec (r (leituras amb)) ti); [reflexivity|]. cbn [orb].
  destruct (Z.leb_spec ti (r (leituras amb))); [|lia].
  destruct (data_termino l) as [tf|uf]; [|reflexivity].
  cbn [ret levanta modificar].
  destruct (Z.ltb_spec (r (leituras amb)) tf); [reflexivity|].
  destruct (Z.geb_spec (r (leituras amb)) tf); [|lia].
  destruct (_lances l) as [|x rest] eqn:E; cbn; [reflexivity|].
  unfold Leilao_.maior_lance, liga, obter, modificar; cbn. rewrite E. reflexivity.
Qed.

Lemma estado_derivar r amb l :
  Leilao_.estado r amb l
  = (se_deriva (deriva (r (leituras amb)) l)
               (_estado (derivar (r (leituras amb)) l)),
     tique amb, derivar (r (leituras amb)) l).
Proof.
  unfold Leilao_.estado.
  erewrite liga_se_deriva by apply atualizar_estado_derivar.
  now destruct (deriva _ l).
Qed.

Lemma derivar_campos t l :
  nome (derivar t l) = nome l
  /\ lance_minimo (derivar t l) = lance_minimo l
  /\ data_inicio (derivar t l) = data_inicio l
  /\ data_termino (derivar t l) = data_termino l
  /\ _lances (derivar t l) = _lances l.
Proof.
  unfold derivar.
  destruct (estado_eqb (_estado l) FINALIZADO); [repeat split|].
  destruct (data_inicio l) as [ti|] eqn:Ei; [|now rewrite <- Ei].
  destruct (t <? ti); [now rewrite <- Ei|].
  destruct (data_termino l) as [tf|] eqn:Ef; [|now rewrite <- Ei, <- Ef].
  destruct (t <? tf); [now rewrite <- Ei, <- Ef|].
  rewrite <- Ei, <- Ef.
  destruct (_lances l) eqn:E; repeat split; cbn; now rewrite ?E.
Qed.

Lemma derivar_lances t l : _lances (derivar t l) = _lances l.
Proof. apply derivar_campos. Qed.

Lemma derivar_nome t l : nome (derivar t l) = nome l.
Proof. apply derivar_campos. Qed.

Lemma derivar_lance_minimo t l : lance_minimo (derivar t l) = lance_minimo l.
Proof. apply derivar_campos. Qed.

Lemma derivar_data_inicio t l : data_inicio (derivar t l) = data_inicio l.
Proof. apply derivar_campos. Qed.

Lemma derivar_data_termino t l : data_termino (derivar t l) = data_termino l.
Proof. apply derivar_campos. Qed.

Lemma derivar_datas_ingenuas t l :
  datas_ingenuas (derivar t l) = datas_ingenuas l.
Proof.
  unfold datas_ingenuas. now rewrite derivar_data_inicio, derivar_data_termino.
Qed.

Lemma derivar_finalizado t l : _estado l = FINALIZADO -> derivar t l = l.
Proof. intros H. unfold derivar. now rewrite H. Qed.

(** A derivation that raises changes nothing. *)
Lemma derivar_levanta t l : deriva t l = false -> derivar t l = l.
Proof.
  unfold deriva, derivar.
  destruct (estado_eqb (_estado l) FINALIZADO); [reflexivity|]. cbn [orb].
  destruct (data_inicio l); [|reflexivity].
  destruct (t <? t0); [discriminate|]. cbn [orb].
  destruct (data_termino l); [discriminate|reflexivity].
Qed.

(** With naive dates every derivation returns. *)
Lemma deriva_ingenuas t l : datas_ingenuas l = true -> deriva t l = true.
Proof.
  unfold datas_ingenuas, deriva.
  destruct (data_inicio l); [|discriminate].
  destruct (data_termino l); [|discriminate]. intros _.
  now rewrite !orb_true_r.
Qed.

Lemma deriva_finalizado t l : _estado l = FINALIZADO -> deriva t l = true.
Proof. intros H. unfold deriva. now rewrite H. Qed.

(** With comparable dates a derivation returns on a finalized auction and on
    naive dates, and only there. *)
Lemma deriva_comparaveis t l :
  dh_antes (data_inicio l) (data_termino l) ->
  deriva t l = estado_eqb (_estado l) FINALIZADO || datas_ingenuas l.
Proof.
  unfold dh_antes, dh_compara, deriva, datas_ingenuas.
  destruct (data_inicio l), (data_termino l); try discriminate; intros _.
  - now rewrite orb_true_r.
  - reflexivity.
Qed.

Lemma derivar_idem t l : derivar t (derivar t l) = derivar t l.
Proof.
  unfold derivar at 2 3.
  destruct (estado_eqb_spec (_estado l) FINALIZADO) as [Hf|Hf].
  - now apply derivar_finalizado.
  - destruct (data_inicio l) as [ti|] eqn:Ei.
    + destruct (t <? ti) eqn:E1.
      * unfold derivar; cbn. now rewrite Ei, E1.
      * destruct (data_termino l) as [tf|] eqn:Ef.
        -- destruct (t <? tf) eqn:E2.
           ++ unfold derivar; cbn. now rewrite Ei, E1, Ef, E2.
           ++ destruct (_lances l) eqn:E3.
              ** unfold derivar; cbn. now rewrite Ei, E1, Ef, E2, E3.
              ** now apply derivar_finalizado.
        -- unfold derivar. rewrite Ei, E1, Ef.
           now destruct (estado_eqb (_estado l) FINALIZADO).
    + unfold derivar. rewrite Ei.
      now destruct (estado_eqb (_estado l) FINALIZADO).
Qed.

Lemma deriva_idem t l : deriva t (derivar t l) = deriva t l.
Proof.
  unfold deriva, derivar.
  destruct (estado_eqb (_estado l) FINALIZADO) eqn:Ef; [now rewrite Ef|].
  destruct (data_inicio l) as [ti|] eqn:Ei; [|now rewrite Ef, Ei].
  destruct (t <? ti) eqn:E1; [cbn; now rewrite Ei, E1|].
  destruct (data_termino l) as [tf|] eqn:Et; [|now rewrite Ef, Ei, E1, Et].
  cbn [orb]. destruct (t <? tf); [cbn; rewrite Ei, E1, Et; reflexivity|].
  destruct (_lances l); cbn; rewrite ?Ei, ?E1, ?Et; reflexivity.
Qed.

Lemma pode_receber_lance_derivar r amb l p v :
  Leilao_._pode_receber_lance p v r amb l
  = (se_deriva (deriva (r (leituras amb)) l)
       (estado_eqb (_estado (derivar (r (leituras amb)) l)) ABERTO
        && admissivel (derivar (r (leituras amb)) l)
                      {| participante := p; valor := v |}),
     tique amb, derivar (r (leituras amb)) l).
Proof.
  unfold Leilao_._pode_receber_lance.
  erewrite liga_se_deriva by apply estado_derivar.
  destruct (deriva _ l); [|reflexivity]. cbn [se_deriva].
  set (l1 := derivar (r (leituras amb)) l).
  destruct (estado_eqb (_estado l1) ABERTO); cbn [negb andb]; [|reflexivity].
  unfold liga, obter, admissivel, Leilao_.ultimo_lance, ret; cbn.
  destruct (Fltb v (lance_minimo l1)); cbn; [reflexivity|].
  destruct (vazia (_lances l1)) eqn:Ev.
  - now rewrite (last_vazia _ Ev).
  - destruct (last_nao_vazia _ Ev) as [u Hu]. rewrite Hu.
    destruct (Fleb v (valor u)); cbn; [reflexivity|].
    destruct (participante_eq p (participante u)); reflexivity.
Qed.

Lemma motivo_da_recusa_eq r amb l b :
  Leilao_.motivo_da_recusa b r amb l = (Retorna (motivo_de l b), amb, l).
Proof.
  unfold Leilao_.motivo_da_recusa, motivo_de, liga, obter, ret,
    Leilao_.ultimo_lance; cbn.
  destruct (Fltb (valor b) (lance_minimo l)); [reflexivity|].
  destruct (vazia (_lances l)) eqn:Ev; cbn.
  - now rewrite (last_vazia _ Ev).
  - destruct (last_nao_vazia _ Ev) as [u Hu]. rewrite Hu.
    destruct (Fleb (valor b) (valor u)); [reflexivity|].
    destruct (participante_eq (participante b) (participante u)); reflexivity.
Qed.

(** An auction a derivation leaves ABERTO has naive dates, so the next
    derivation returns. *)
Lemma aberto_ingenuas t l :
  deriva t l = true -> _estado (derivar t l) = ABERTO ->
  datas_ingenuas l = true.
Proof.
  unfold deriva, derivar, datas_ingenuas.
  destruct (estado_eqb_spec (_estado l) FINALIZADO) as [Hf|Hf].
  - intros _ H. rewrite Hf in H. discriminate.
  - cbn [orb]. destruct (data_inicio l) as [ti|]; [|discriminate].
    destruct (t <? ti); [cbn; discriminate|]. cbn [orb].
    destruct (data_termino l); [auto|discriminate].
Qed.

(** [propor_lance] reads the clock three times: the explicit
    [atualizar_estado], the [estado] of the state test, and then either the
    [estado] quoted in the message or the one read by [_pode_receber_lance].
    Each reading may end the call with the TypeError of an aware date. *)
Lemma propor_lance_derivar r amb l v :
  let n := leituras amb in
  let l1 := derivar (r n) l in
  let l2 := derivar (r (Datatypes.S n)) l1 in
  let l3 := derivar (r (Datatypes.S (Datatypes.S n))) l2 in
  Leilao_.propor_lance v r amb l
  = if negb (deriva (r n) l) then (Levanta erro_de_fuso, tique amb, l1)
    else if negb (deriva (r (Datatypes.S n)) l1) then
      (Levanta erro_de_fuso, tique (tique amb), l2)
    else if negb (estado_eqb (_estado l2) ABERTO) then
      (if deriva (r (Datatypes.S (Datatypes.S n))) l2 then
         Levanta (LeilaoInvalido (Leilao_.msg_nao_aberto (nome l2) (_estado l3)))
       else Levanta erro_de_fuso,
       tique (tique (tique amb)), l3)
    else
      match v with
      | VLance b =>
          if negb (deriva (r (Datatypes.S (Datatypes.S n))) l2) then
            (Levanta erro_de_fuso, tique (tique (tique amb)), l3)
          else if estado_eqb (_estado l3) ABERTO && admissivel l3 b then
            (Retorna tt, marcado (participante b) (tique (tique (tique amb))),
             com_lances (_lances l3 ++ [b]) l3)
          else
            (Levanta (LanceInvalido (nome l3) (motivo_de l3 b)),
             tique (tique (tique amb)), l3)
      | _ => (Levanta (TypeError "Objeto de lance inválido."),
              tique (tique amb), l2)
      end.
Proof.
  intros n l1 l2 l3. unfold Leilao_.propor_lance.
  erewrite liga_se_deriva by apply atualizar_estado_derivar.
  fold n. fold l1.
  destruct (deriva (r n) l) eqn:D1; cbn [negb]; [|reflexivity].
  erewrite liga_se_deriva by apply estado_derivar.
  cbn [tique leituras]. fold n. fold l2.
  destruct (deriva (r (Datatypes.S n)) l1) eqn:D2; cbn [negb]; [|reflexivity].
  destruct (estado_eqb (_estado l2) ABERTO) eqn:Ea; cbn [negb].
  - destruct v as [| | | | | |b]; try reflexivity.
    erewrite liga_se_deriva by apply pode_receber_lance_derivar.
    cbn [tique leituras]. fold n. fold l3.
    destruct (deriva (r (Datatypes.S (Datatypes.S n))) l2); cbn [negb];
      [|reflexivity].
    replace {| participante := participante b; valor := valor b |} with b
      by (destruct b; reflexivity).
    destruct (estado_eqb (_estado l3) ABERTO && admissivel l3 b); cbn [negb].
    + reflexivity.
    + erewrite liga_retorna by apply motivo_da_recusa_eq. reflexivity.
  - unfold liga at 1. unfold obter at 1.
    erewrite liga_se_deriva by apply estado_derivar.
    cbn [tique leituras]. fold n. fold l3.
    now destruct (deriva (r (Datatypes.S (Datatypes.S n))) l2).
Qed.

(** With naive dates no reading raises. *)
Lemma propor_lance_ingenuas r amb l v :
  datas_ingenuas l = true ->
  let n := leituras amb in
  let l2 := derivar (r (Datatypes.S n)) (derivar (r n) l) in
  let l3 := derivar (r (Datatypes.S (Datatypes.S n))) l2 in
  Leilao_.propor_lance v r amb l
  = if negb (estado_eqb (_estado l2) ABERTO) then
      (Levanta (LeilaoInvalido (Leilao_.msg_nao_aberto (nome l2) (_estado l3))),
       tique (tique (tique amb)), l3)
    else
      match v with
      | VLance b =>
          if estado_eqb (_estado l3) ABERTO && admissivel l3 b then
            (Retorna tt, marcado (participante b) (tique (tique (tique amb))),
             com_lances (_lances l3 ++ [b]) l3)
          else
            (Levanta (LanceInvalido (nome l3) (motivo_de l3 b)),
             tique (tique (tique amb)), l3)
      | _ => (Levanta (TypeError "Objeto de lance inválido."),
              tique (tique amb), l2)
      end.
Proof.
  intros Hd n l2 l3. rewrite propor_lance_derivar. cbv zeta. fold n.
  rewrite !deriva_ingenuas by now rewrite ?derivar_datas_ingenuas.
  reflexivity.
Qed.

(** When the three readings agree the call sees one derived state. *)
Lemma propor_lance_parado r agora amb l v :
  datas_ingenuas l = true ->
  parado r amb agora ->
  let l' := derivar agora l in
  Leilao_.propor_lance v r amb l
  = if negb (estado_eqb (_estado l') ABERTO) then
      (Levanta (LeilaoInvalido (Leilao_.msg_nao_aberto (nome l) (_estado l'))),
       tique (tique (tique amb)), l')
    else
      match v with
      | VLance b =>
          if admissivel l' b then
            (Retorna tt, marcado (participante b) (tique (tique (tique amb))),
             com_lances (_lances l ++ [b]) l')
          else
            (Levanta (LanceInvalido (nome l) (motivo_de l' b)),
             tique (tique (tique amb)), l')
      | _ => (Levanta (TypeError "Objeto de lance inválido."),
              tique (tique amb), l')
      end.
Proof.
  intros Hd (H0 & H1 & H2) l'. subst l'.
  rewrite propor_lance_ingenuas by exact Hd. cbv zeta.
  rewrite H0, H1, H2, !derivar_idem, !derivar_nome, !derivar_lances.
  destruct (estado_eqb (_estado (derivar agora l)) ABERTO); reflexivity.
Qed.

Lemma relogio_fixo_parado agora amb : parado (relogio_fixo agora) amb agora.
Proof. repeat split. Qed.

(** ** Preservation of a property along a method *)

Lemma preserva_ret {S A} (P : S -> Prop) (a : A) : preserva P (ret a).
Proof. intros r amb s H. exact H. Qed.

Lemma preserva_levanta {S A} (P : S -> Prop) e : preserva P (@levanta S A e).
Proof. intros r amb s H. exact H. Qed.

Lemma preserva_obter {S} (P : S -> Prop) : preserva P obter.
Proof. intros r amb s H. exact H. Qed.

Lemma preserva_py_float {S} (P : S -> Prop) v : preserva P (py_float v).
Proof. intros r amb s H. exact H. Qed.

Lemma preserva_dh_ge {S} (P : S -> Prop) a b : preserva P (dh_ge a b).
Proof.
  unfold dh_ge. destruct (dh_compara Z.geb a b);
    [apply preserva_ret|apply preserva_levanta].
Qed.

Lemma preserva_dh_le {S} (P : S -> Prop) a b : preserva P (dh_le a b).
Proof.
  unfold dh_le. destruct (dh_compara Z.leb a b);
    [apply preserva_ret|apply preserva_levanta].
Qed.

Lemma preserva_modificar {S} (P : S -> Prop) (f : S -> S) :
  (forall s, P s -> P (f s)) -> preserva P (modificar f).
Proof. intros Hf r amb s H. now apply Hf. Qed.

Lemma preserva_liga {S A B} (P : S -> Prop) (m : M S A) (k : A -> M S B) :
  preserva P m -> (forall a, preserva P (k a)) -> preserva P (liga m k).
Proof.
  intros Hm Hk r amb s H. unfold liga.
  specialize (Hm r amb s H).
  destruct (m r amb s) as [[[a|e] amb'] s']; cbn in Hm |- *.
  - now apply Hk.
  - exact Hm.
Qed.

Lemma preserva_tentar {S A} (P : S -> Prop) (m : M S A) :
  preserva P m -> preserva P (tentar m).
Proof.
  intros Hm r amb s H. unfold tentar. specialize (Hm r amb s H).
  destruct (m r amb s) as [[res amb'] s']. exact Hm.
Qed.

Lemma preserva_no_leilao {A} (P : Leilao -> Prop) (i : nat) (m : M Leilao A) :
  preserva P m ->
  preserva (fun s => Forall P (_leiloes s)) (no_leilao i m).
Proof.
  intros Hm r amb s H. unfold no_leilao.
  destruct (_leiloes s !! i) as [l|] eqn:E; [|exact H].
  assert (Hl : P l) by (eapply Forall_lookup_1; eauto).
  specialize (Hm r amb l Hl).
  destruct (m r amb l) as [[res amb'] l']. cbn in *.
  now apply Forall_insert.
Qed.

(** Assignments to attributes of one auction, one after the other, amount
    to one assignment. *)
Lemma no_leilao_modificar_liga {B} i (f : Leilao -> Leilao)
    (k : M SistemaLeiloes B) r amb s l :
  _leiloes s !! i = Some l ->
  (no_leilao i (modificar f) ;; k) r amb s
  = k r amb {| _leiloes := <[i := f l]> (_leiloes s) |}.
Proof. intros H. unfold liga, no_leilao, modificar. now rewrite H. Qed.

Lemma no_leilao_apos_insert {A} i (m : M Leilao A) r amb ls l l0 :
  ls !! i = Some l0 ->
  no_leilao i m r amb {| _leiloes := <[i := l]> ls |}
  = (fst (fst (m r amb l)), snd (fst (m r amb l)),
     {| _leiloes := <[i := snd (m r amb l)]> ls |}).
Proof.
  intros H. unfold no_leilao. cbn [_leiloes].
  rewrite list_lookup_insert_eq by (eapply lookup_lt_Some; eauto).
  destruct (m r amb l) as [[res amb'] l']. cbn.
  now rewrite list_insert_insert_eq.
Qed.

(** ** Properties kept by every method of [Leilao] *)

Section MetodosPreservam.
Variable P : Leilao -> Prop.
Hypothesis P_derivar : forall t l, P l -> P (derivar t l).
Hypothesis P_aceitar :
  forall l b, P l -> _estado l = ABERTO -> admissivel l b = true ->
              P (com_lances (_lances l ++ [b]) l).

Lemma preserva_atualizar_estado : preserva P Leilao_.atualizar_estado.
Proof.
  intros r amb l H. rewrite atualizar_estado_derivar. now apply P_derivar.
Qed.

Lemma preserva_estado : preserva P Leilao_.estado.
Proof.
  intros r amb l H. rewrite estado_derivar. now apply P_derivar.
Qed.

Lemma preserva_propor_lance v : preserva P (Leilao_.propor_lance v).
Proof.
  intros r amb l H. rewrite propor_lance_derivar. cbv zeta.
  set (l1 := derivar _ l).
  set (l2 := derivar _ l1).
  set (l3 := derivar _ l2).
  assert (H1 : P l1) by (unfold l1; auto).
  assert (H2 : P l2) by (unfold l2; auto).
  assert (H3 : P l3) by (unfold l3; auto).
  destruct (negb (deriva _ l)); [exact H1|].
  destruct (negb (deriva _ l1)); [exact H2|].
  destruct (estado_eqb (_estado l2) ABERTO); cbn [negb]; [|exact H3].
  destruct v; try exact H2.
  destruct (negb (deriva _ l2)); [exact H3|].
  destruct (estado_eqb_spec (_estado l3) ABERTO) as [Ha|Ha]; [|exact H3].
  cbn [andb]. destruct (admissivel l3 l0) eqn:Ead; [|exact H3].
  cbn. now apply P_aceitar.
Qed.

Lemma preserva_py_sorted {A} (key : A -> Float) (l : list A) :
  preserva P (py_sorted key l).
Proof.
  unfold py_sorted. destruct (forallb _ l);
    [apply preserva_ret|apply preserva_levanta].
Qed.

Lemma preserva_invocar m : preserva P (invocar m).
Proof.
  destruct m; cbn [invocar];
    try apply preserva_tentar;
    try apply preserva_atualizar_estado;
    try apply preserva_propor_lance.
  - apply preserva_estado.
  - apply preserva_liga; [apply preserva_obter|intros; apply preserva_py_sorted].
  - apply preserva_liga; [apply preserva_obter|intros; apply preserva_ret].
  - apply preserva_liga; [apply preserva_obter|intros self].
    destruct (vazia (_lances self)); [apply preserva_ret|].
    apply preserva_liga; [|intros; apply preserva_ret].
    unfold py_max. destruct (_lances self);
      [apply preserva_levanta|apply preserva_ret].
  - apply preserva_liga; [apply preserva_obter|intros self].
    destruct (vazia (_lances self)); [apply preserva_ret|].
    apply preserva_liga; [|intros; apply preserva_ret].
    unfold py_min. destruct (_lances self);
      [apply preserva_levanta|apply preserva_ret].
  - apply preserva_liga; [apply preserva_estado|intros e].
    destruct (estado_eqb e FINALIZADO); [|apply preserva_ret].
    apply preserva_liga; [apply preserva_obter|intros; apply preserva_ret].
  - intros r amb l H. rewrite pode_receber_lance_derivar. now apply P_derivar.
  - apply preserva_liga; [apply preserva_estado|intros; apply preserva_ret].
Qed.

Lemma preserva_invocar_todos ms : preserva P (invocar_todos ms).
Proof.
  induction ms as [|m ms IH]; cbn [invocar_todos].
  - apply preserva_ret.
  - apply preserva_liga; [|intros _; exact IH].
    apply preserva_tentar, preserva_invocar.
Qed.
End MetodosPreservam.

(** ** The bid log *)

Lemma acima_do_anterior_app log b :
  acima_do_anterior log ->
  (forall u, last log = Some u ->
     Fleb (valor b) (valor u) = false
     /\ participante_eq (participante b) (participante u) = false) ->
  acima_do_anterior (log ++ [b]).
Proof.
  induction log as [|a resto IH]; intros Hc Hu; cbn.
  - auto.
  - destruct Hc as [Ha Hr]. destruct resto as [|c resto'].
    + cbn. split; [|auto]. apply Hu. reflexivity.
    + split; [exact Ha|]. apply IH; [exact Hr|].
      intros u Hl. apply Hu. exact Hl.
Qed.



(** Between numbers, not at or below the previous amount is strictly above
    it. *)
Lemma acima_crescente log :
  so_numeros valor log = true -> acima_do_anterior log -> crescente log.
Proof.
  induction log as [|a resto IH]; cbn [acima_do_anterior crescente]; [auto|].
  intros Hn [Hab Hr]. apply so_numeros_cons in Hn. destruct Hn as [Ha Hn].
  split; [|auto].
  destruct resto as [|b resto']; [exact I|].
  apply so_numeros_cons in Hn. destruct Hn as [Hb _].
  apply Flt_total; [exact Hb|exact Ha|apply Hab].
Qed.


(** In a strictly increasing log the maximum is the last bid. *)
Lemma crescente_max_ultimo r :
  forall x, crescente (x :: r) -> last (x :: r) = Some (max_desde valor x r).
Proof.
  induction r as [|y r IH]; intros x Hc; [reflexivity|].
  destruct Hc as [Hxy Hr]. cbn [max_desde]. rewrite Hxy.
  rewrite <- IH by exact Hr. reflexivity.
Qed.

Lemma admissivel_spec l b :
  admissivel l b = true <->
  Fltb (valor b) (lance_minimo l) = false
  /\ (forall u, last (_lances l) = Some u ->
        Fleb (valor b) (valor u) = false
        /\ participante_eq (participante b) (participante u) = false).
Proof.
  unfold admissivel.
  destruct (Fltb (valor b) (lance_minimo l)); cbn [negb andb].
  - split; [discriminate|]. intros [H _]. discriminate.
  - destruct (last (_lances l)) as [u|].
    + destruct (Fleb (valor b) (valor u)) eqn:Hle; cbn [negb andb].
      * split; [discriminate|]. intros [_ H].
        destruct (H u eq_refl) as [H1 _]. congruence.
      * destruct (participante_eq (participante b) (participante u)) eqn:Ep;
          cbn [negb].
        -- split; [discriminate|]. intros [_ H].
           destruct (H u eq_refl) as [_ H2]. congruence.
        -- split; [|reflexivity]. intros _. split; [reflexivity|].
           intros u' Hu'. injection Hu' as <-. split; [exact Hle|exact Ep].
    + split; [|reflexivity]. intros _. split; [reflexivity|]. discriminate.
Qed.

(** ** [leilao_ok] is an invariant *)

Lemma derivar_ok t l : leilao_ok l -> leilao_ok (derivar t l).
Proof.
  intros [Hd Hc Hf Hn].
  destruct (estado_eqb_spec (_estado l) FINALIZADO) as [E|E];
    [rewrite derivar_finalizado by exact E; constructor; assumption|].
  specialize (Hn E).
  constructor;
    rewrite ?derivar_data_inicio, ?derivar_data_termino, ?derivar_lances;
    try assumption.
  - unfold derivar. destruct (estado_eqb (_estado l) FINALIZADO); [auto|].
    destruct (data_inicio l) as [ti|]; [|auto].
    destruct (t <? ti); [cbn; discriminate|].
    destruct (data_termino l) as [tf|]; [|auto].
    destruct (t <? tf); [cbn; discriminate|].
    destruct (_lances l) as [|x r] eqn:El; [cbn; discriminate|].
    intros _. exists x, r. split; [reflexivity|]. cbn. reflexivity.
  - unfold derivar. destruct (estado_eqb (_estado l) FINALIZADO); [auto|].
    destruct (data_inicio l) as [ti|]; [|auto].
    destruct (t <? ti); [cbn; auto|].
    destruct (data_termino l) as [tf|]; [|auto].
    destruct (t <? tf); [cbn; auto|].
    destruct (_lances l) as [|x r] eqn:El; [cbn; auto|].
    cbn. congruence.
Qed.

Lemma aceitar_ok l b :
  leilao_ok l -> _estado l = ABERTO -> admissivel l b = true ->
  leilao_ok (com_lances (_lances l ++ [b]) l).
Proof.
  intros [Hd Hc Hf Hn] Ha Hb. apply admissivel_spec in Hb. destruct Hb as [_ Hu].
  constructor; cbn.
  - exact Hd.
  - apply acima_do_anterior_app; [exact Hc|]. intros u Hl. now apply Hu.
  - rewrite Ha. discriminate.
  - exact Hn.
Qed.

Lemma invocar_ok m : preserva leilao_ok (invocar m).
Proof. apply preserva_invocar; [apply derivar_ok|apply aceitar_ok]. Qed.

(** ** The constructor *)

(** The auction [__init__] builds before its first state derivation. *)
Lemma init_aceita {S} n m i t nm q ti tf r amb (s : S) :
  argumentos_validos n m i t nm q ti tf ->
  Leilao_.__init__ n m i t r amb s
  = (Retorna (derivar (r (leituras amb))
                {| nome := nm; lance_minimo := q;
                   data_inicio := Ingenua ti; data_termino := Ingenua tf;
                   _lances := []; _estado := INATIVO; _ganhador := None |}),
     tique amb, s).
Proof.
  intros (-> & Hn & Hi & Hle & Hq & -> & -> & Ht).
  unfold Leilao_.__init__. cbn [truthy isinstance_str].
  destruct (String.eqb_spec nm "") as [->|_]; [contradiction|]. cbn [negb orb].
  rewrite Hi, Hle. cbn [isinstance_datetime negb orb].
  unfold dh_ge, dh_compara. destruct (Z.geb_spec ti tf); [lia|].
  unfold liga, sobre, ret, py_float. rewrite Hq, atualizar_estado_derivar.
  rewrite deriva_ingenuas by reflexivity. reflexivity.
Qed.

(** What [__init__] does, case by case: the checks in the order of the
    source, then the comparison of the dates, the conversion of the minimum
    and the first state derivation. *)
Lemma init_casos {S} n m i t r amb (s : S) :
  (exists msg, Leilao_.__init__ n m i t r amb s = (Levanta (ValueError msg), amb, s))
  \/ (exists di dt, i = VDatetime di /\ t = VDatetime dt
        /\ ((exists u, di = Ciente u) \/ (exists u, dt = Ciente u))
        /\ fst (fst (Leilao_.__init__ n m i t r amb s)) = Levanta erro_de_fuso
        /\ snd (Leilao_.__init__ n m i t r amb s) = s)
  \/ (exists z, m = VInt z /\ float_de_int z = None
        /\ Leilao_.__init__ n m i t r amb s
           = (Levanta (OverflowError "int too large to convert to float"), amb, s))
  \/ (exists nm q ti tf, argumentos_validos n m i t nm q ti tf).
Proof.
  unfold Leilao_.__init__.
  destruct (negb (truthy n) || negb (isinstance_str n)) eqn:E1;
    [left; eexists; reflexivity|].
  destruct (negb (isinstance_int_float m) || py_le_0 m) eqn:E2;
    [left; eexists; reflexivity|].
  destruct (negb (isinstance_datetime i) || negb (isinstance_datetime t)) eqn:E3;
    [left; eexists; reflexivity|].
  apply orb_false_iff in E1, E2, E3.
  destruct E1 as [T1 I1], E2 as [I2 L2], E3 as [D1 D2].
  destruct n as [| | | |nm| |]; try discriminate.
  destruct i as [| | | | |di|]; try discriminate.
  destruct t as [| | | | |dt|]; try discriminate.
  cbn in T1. destruct (String.eqb_spec nm "") as [|Hne]; [discriminate|].
  apply negb_false_iff in I2.
  destruct di as [ti|ui], dt as [tf|uf].
  - unfold liga at 1. unfold dh_ge, dh_compara, ret.
    destruct (Z.geb_spec ti tf) as [|Hlt]; [left; eexists; reflexivity|].
    destruct (float_de m) as [q|e] eqn:Ef.
    + right; right; right. exists nm, q, ti, tf. repeat split; try assumption.
    + right; right; left. destruct m; cbn in I2, Ef; try discriminate.
      destruct (float_de_int z) eqn:Ez; [discriminate|].
      injection Ef as <-. exists z.
      split; [reflexivity|]. split; [exact Ez|].
      unfold liga, py_float, float_de. cbn. now rewrite Ez.
  - right; left. exists (Ingenua ti), (Ciente uf). repeat split. eauto.
  - right; left. exists (Ciente ui), (Ingenua tf). repeat split. eauto.
  - unfold liga at 1. unfold dh_ge, dh_compara, ret.
    destruct (Z.geb_spec ui uf) as [|Hlt]; [left; eexists; reflexivity|].
    destruct (float_de m) as [q|e] eqn:Ef.
    + right; left. exists (Ciente ui), (Ciente uf).
      split; [reflexivity|]. split; [reflexivity|]. split; [eauto|].
      unfold liga, py_float, sobre. rewrite Ef, atualizar_estado_derivar.
      cbn. split; reflexivity.
    + right; right; left. destruct m; cbn in I2, Ef; try discriminate.
      destruct (float_de_int z) eqn:Ez; [discriminate|].
      injection Ef as <-. exists z.
      split; [reflexivity|]. split; [exact Ez|].
      unfold liga, py_float, float_de. cbn. now rewrite Ez.
Qed.

(** No outcome of [__init__] touches the object that runs it. *)
Lemma init_estado {S} n m i t r amb (s : S) :
  snd (Leilao_.__init__ n m i t r amb s) = s.
Proof.
  destruct (init_casos n m i t r amb s)
    as [[msg ->]|[(di & dt & _ & _ & _ & _ & H)|[(z & _ & _ & ->)|Hv]]];
    try reflexivity; try exact H.
  destruct Hv as (nm & q & ti & tf & Hv). now rewrite (init_aceita _ _ _ _ _ _ _ _ _ _ _ Hv).
Qed.

Lemma py_le_0_positivo v q :
  numero_de v = Some (FFin q) -> py_le_0 v = false -> (0 < q)%Q.
Proof.
  unfold py_le_0. intros ->. cbn. destruct (Qleb_spec q 0); [discriminate|]. lra.
Qed.

Lemma init_resultado {S} n m i t r amb (s : S) l amb' s' :
  Leilao_.__init__ n m i t r amb s = (Retorna l, amb', s') ->
  exists nm q ti tf,
    argumentos_validos n m i t nm q ti tf
    /\ l = derivar (r (leituras amb))
             {| nome := nm; lance_minimo := q;
                data_inicio := Ingenua ti; data_termino := Ingenua tf;
                _lances := []; _estado := INATIVO; _ganhador := None |}
    /\ amb' = tique amb /\ s' = s.
Proof.
  intros H.
  destruct (init_casos n m i t r amb s)
    as [[msg Hm]|[(di & dt & _ & _ & _ & Hm & _)|[(z & _ & _ & Hm)|Hv]]].
  - congruence.
  - rewrite H in Hm. discriminate.
  - congruence.
  - destruct Hv as (nm & q & ti & tf & Hv). exists nm, q, ti, tf.
    rewrite (init_aceita _ _ _ _ _ _ _ _ _ _ _ Hv) in H.
    injection H as <- <- <-. auto.
Qed.

Lemma novo_ok nm q ti tf :
  ti < tf ->
  leilao_ok {| nome := nm; lance_minimo := q;
               data_inicio := Ingenua ti; data_termino := Ingenua tf;
               _lances := []; _estado := INATIVO; _ganhador := None |}.
Proof.
  intros Hlt. constructor; cbn; [|exact I|discriminate|reflexivity].
  unfold dh_antes, dh_compara. f_equal. lia.
Qed.

Lemma init_ok {S} n m i t r amb (s : S) l amb' s' :
  Leilao_.__init__ n m i t r amb s = (Retorna l, amb', s') ->
  leilao_ok l /\ _lances l = [] /\ datas_ingenuas l = true.
Proof.
  intros H. apply init_resultado in H.
  destruct H as (nm & q & ti & tf & Hv & -> & _ & _).
  split; [apply derivar_ok, novo_ok, Hv|].
  now rewrite derivar_lances, derivar_datas_ingenuas.
Qed.

(** ** Every registered auction satisfies [leilao_ok] *)

Lemma preserva_leilao_estado : preserva leilao_ok Leilao_.estado.
Proof. apply preserva_estado, derivar_ok. Qed.

Lemma preserva_leilao_pode : preserva leilao_ok Leilao_.pode_ser_alterado_ou_excluido.
Proof.
  apply preserva_liga; [apply preserva_leilao_estado|intros; apply preserva_ret].
Qed.

Lemma buscar_ok alvo : preserva todos_ok (Sistema.buscar_leilao_por_nome alvo).
Proof.
  apply preserva_liga; [apply preserva_obter|intros; apply preserva_ret].
Qed.

Section CadastrarPreserva.
Variable P : Leilao -> Prop.
Hypothesis P_novo :
  forall t nm q ti tf, ti < tf ->
    P (derivar t {| nome := nm; lance_minimo := q;
                    data_inicio := Ingenua ti; data_termino := Ingenua tf;
                    _lances := []; _estado := INATIVO; _ganhador := None |}).

Lemma preserva_cadastrar_leilao n m i t :
  preserva (fun s => Forall P (_leiloes s)) (Sistema.cadastrar_leilao n m i t).
Proof.
  intros r amb s H. unfold Sistema.cadastrar_leilao.
  unfold liga at 1. unfold Sistema.buscar_leilao_por_nome, liga at 1, obter, ret.
  destruct (Sistema.indice_por_nome n (_leiloes s)); [exact H|].
  unfold liga at 1.
  pose proof (init_estado n m i t r amb s) as Hs.
  destruct (Leilao_.__init__ n m i t r amb s) as [[[l|e] amb'] s'] eqn:E;
    cbn in Hs; subst s'; [|exact H].
  apply init_resultado in E. destruct E as (nm & q & ti & tf & Hv & -> & _).
  cbn. apply Forall_app. split; [exact H|].
  constructor; [apply P_novo, Hv|constructor].
Qed.
End CadastrarPreserva.

Lemma cadastrar_ok n m i t : preserva todos_ok (Sistema.cadastrar_leilao n m i t).
Proof.
  apply (preserva_cadastrar_leilao leilao_ok).
  intros. now apply derivar_ok, novo_ok.
Qed.

(** The last four steps of [alterar_leilao], from the second assignment
    on. *)
Lemma alterar_campos_eq i q ti tf r amb s l :
  _leiloes s !! i = Some l ->
  (no_leilao i (modificar (com_lance_minimo q)) ;;
   no_leilao i (modificar (com_data_inicio ti)) ;;
   no_leilao i (modificar (com_data_termino tf)) ;;
   no_leilao i Leilao_.atualizar_estado) r amb s
  = let l' := com_data_termino tf (com_data_inicio ti (com_lance_minimo q l)) in
    (se_deriva (deriva (r (leituras amb)) l') tt, tique amb,
     {| _leiloes := <[i := derivar (r (leituras amb)) l']> (_leiloes s) |}).
Proof.
  intros H. assert (Hi : (i < length (_leiloes s))%nat)
    by (eapply lookup_lt_Some; eauto).
  rewrite (no_leilao_modificar_liga _ _ _ _ _ _ l H).
  rewrite (no_leilao_modificar_liga _ _ _ _ _ _ (com_lance_minimo q l))
    by (cbn; now apply list_lookup_insert_eq).
  cbn [_leiloes]. rewrite list_insert_insert_eq.
  rewrite (no_leilao_modificar_liga _ _ _ _ _ _
             (com_data_inicio ti (com_lance_minimo q l)))
    by (cbn; now apply list_lookup_insert_eq).
  cbn [_leiloes]. rewrite list_insert_insert_eq.
  rewrite (no_leilao_apos_insert _ _ _ _ _ _ l H), atualizar_estado_derivar.
  reflexivity.
Qed.

Lemma alterar_campos_fora i q ti tf r amb s :
  _leiloes s !! i = None ->
  snd ((no_leilao i (modificar (com_lance_minimo q)) ;;
        no_leilao i (modificar (com_data_inicio ti)) ;;
        no_leilao i (modificar (com_data_termino tf)) ;;
        no_leilao i Leilao_.atualizar_estado) r amb s) = s.
Proof. intros H. unfold liga at 1. unfold no_leilao at 1. now rewrite H. Qed.

Lemma dh_ge_antes a b : dh_compara Z.geb a b = Some false -> dh_antes a b.
Proof.
  unfold dh_antes, dh_compara. destruct a, b; try discriminate;
    intros [= H]; f_equal; lia.
Qed.

Lemma preserva_liga_ret {S A B} (P : S -> Prop) (a : A) (k : A -> M S B) :
  preserva P (k a) -> preserva P (liga (ret a) k).
Proof. intros H r amb s Hs. exact (H r amb s Hs). Qed.

Section AlterarPreserva.
Variable P : Leilao -> Prop.
Hypothesis P_derivar : forall t l, P l -> P (derivar t l).
Hypothesis P_nome : forall n l, P l -> P (com_nome n l).
Hypothesis P_campos :
  forall q ti tf l,
    dh_antes ti tf -> P l ->
    P (com_data_termino tf (com_data_inicio ti (com_lance_minimo q l))).

Lemma preserva_alterar_leilao a n m i t :
  preserva (fun s => Forall P (_leiloes s)) (Sistema.alterar_leilao a n m i t).
Proof.
  unfold Sistema.alterar_leilao.
  apply preserva_liga;
    [apply preserva_liga; [apply preserva_obter|intros; apply preserva_ret]
    |intros [idx|]; [|apply preserva_levanta]].
  apply preserva_liga;
    [apply (preserva_no_leilao P), preserva_liga;
       [apply preserva_estado, P_derivar|intros; apply preserva_ret]
    |intros pode].
  destruct (negb pode).
  - apply preserva_liga;
      [apply (preserva_no_leilao P), preserva_obter|intros leilao].
    apply preserva_liga;
      [apply (preserva_no_leilao P), preserva_estado, P_derivar|intros e].
    apply preserva_levanta.
  - apply preserva_liga.
    { destruct (negb (is_None n) && negb (py_eq n a)); [|apply preserva_ret].
      apply preserva_liga; [apply preserva_obter|intros; apply preserva_ret]. }
    intros [dup|]; [apply preserva_levanta|].
    apply preserva_liga;
      [apply (preserva_no_leilao P), preserva_obter|intros leilao].
    cbv zeta.
    set (tn := if negb (is_None n) then n else VStr (nome leilao)).
    set (tm := if negb (is_None m) then m else VFloat (lance_minimo leilao)).
    set (ti := if negb (is_None i) then i else VDatetime (data_inicio leilao)).
    set (tf := if negb (is_None t) then t else VDatetime (data_termino leilao)).
    clearbody tn tm ti tf.
    destruct (negb (truthy tn) || negb (isinstance_str tn));
      [apply preserva_levanta|].
    destruct (negb (isinstance_int_float tm) || py_le_0 tm);
      [apply preserva_levanta|].
    destruct (negb (isinstance_datetime ti) || negb (isinstance_datetime tf));
      [apply preserva_levanta|].
    destruct tn; try apply preserva_levanta.
    destruct ti as [| | | | |x|]; try apply preserva_levanta.
    destruct tf as [| | | | |y|]; try apply preserva_levanta.
    unfold dh_ge. destruct (dh_compara Z.geb x y) as [[|]|] eqn:Ege.
    + intros r amb s0 H0. exact H0.
    + apply dh_ge_antes in Ege.
      apply preserva_liga_ret. cbv beta iota.
      apply preserva_liga.
      { apply (preserva_no_leilao P), preserva_modificar. intros; now apply P_nome. }
      intros _. apply preserva_liga; [apply preserva_py_float|intros q].
      intros r amb s1 H1.
      destruct (_leiloes s1 !! idx) as [l|] eqn:El.
      * rewrite (alterar_campos_eq _ _ _ _ _ _ _ l El). cbn.
        apply Forall_insert; [exact H1|].
        apply P_derivar, P_campos; [exact Ege|].
        eapply Forall_lookup_1; eauto.
      * now rewrite alterar_campos_fora.
    + intros r amb s0 H0. exact H0.
Qed.
End AlterarPreserva.

Lemma alterar_ok a n m i t : preserva todos_ok (Sistema.alterar_leilao a n m i t).
Proof.
  apply (preserva_alterar_leilao leilao_ok); [apply derivar_ok| |].
  - intros n0 l [Hd Hc Hf Hn]. constructor; cbn; assumption.
  - intros q ti tf l Hlt [Hd Hc Hf Hn]. constructor; cbn; assumption.
Qed.

Lemma excluir_ok alvo : preserva todos_ok (Sistema.excluir_leilao alvo).
Proof.
  unfold Sistema.excluir_leilao.
  apply preserva_liga; [apply buscar_ok|intros [idx|]; [|apply preserva_levanta]].
  apply preserva_liga;
    [apply (preserva_no_leilao leilao_ok), preserva_leilao_pode|intros pode].
  destruct (negb pode).
  - apply preserva_liga;
      [apply (preserva_no_leilao leilao_ok), preserva_obter|intros leilao].
    apply preserva_liga;
      [apply (preserva_no_leilao leilao_ok), preserva_leilao_estado|intros e].
    apply preserva_levanta.
  - apply preserva_modificar. intros s H. unfold todos_ok in *. cbn.
    now apply Forall_delete.
Qed.

Lemma chamar_ok c : preserva todos_ok (chamar c).
Proof.
  destruct c; cbn [chamar].
  - apply preserva_tentar, cadastrar_ok.
  - apply alterar_ok.
  - apply excluir_ok.
  - apply (preserva_no_leilao leilao_ok), invocar_ok.
Qed.

Lemma chamar_todas_ok cs : preserva todos_ok (chamar_todas cs).
Proof.
  induction cs as [|c cs IH]; cbn [chamar_todas].
  - apply preserva_ret.
  - apply preserva_liga; [|intros _; exact IH].
    apply preserva_tentar, chamar_ok.
Qed.

Lemma sistema_apos_ok r amb cs l :
  l ∈ _leiloes (sistema_apos r amb cs) -> leilao_ok l.
Proof.
  intros Hin.
  assert (H : todos_ok (sistema_apos r amb cs)).
  { unfold sistema_apos. apply chamar_todas_ok. constructor. }
  unfold todos_ok in H. rewrite Forall_forall in H. now apply H.
Qed.

(** * The claims *)

(** ** C1: the state-derivation step *)


(** Such an auction is reached through the interface: registering with
    naive dates, then altering to aware ones, which raises after the
    assignments. *)
Example datas_cientes_alcancaveis :
  _leiloes (sistema_apos (relogio_fixo 5) amb0
              [c_cadastrar_leilao (VStr "Console") (VInt 100)
                 (VDatetime (Ingenua 10)) (VDatetime (Ingenua 20));
               c_alterar_leilao (VStr "Console") VNone VNone
                 (VDatetime (Ciente 10)) (VDatetime (Ciente 20))])
  = [leilao_datas_cientes].
Proof. reflexivity. Qed.



(** Scenario B of the specification: an auction with no bid is EXPIRADO
    after its window and ABERTO again when derived with an earlier clock. *)
Example cenario_B :
  _estado (snd (Leilao_.atualizar_estado (relogio_fixo 25) amb0
                  (leilao_10_20 [] ABERTO None))) = EXPIRADO
  /\ _estado (snd (Leilao_.atualizar_estado (relogio_fixo 15) amb0
                     (leilao_10_20 [] EXPIRADO None))) = ABERTO.
Proof. split; reflexivity. Qed.

(** ** C7: the queries on the bid log *)



(** A log that is not ascending, with two bids of the same amount: the
    sorted view differs from the log and keeps Bob's 120 before Alice's. *)
Example C7_lances_exemplo :
  fst (fst (Leilao_.lances (relogio_fixo 15) amb0
              (leilao_10_20 [lance_de bob 120; lance_de alice 110; lance_de alice 120]
                            ABERTO None)))
  = Retorna [lance_de alice 110; lance_de bob 120; lance_de alice 120].
Proof. reflexivity. Qed.


(** ** C8: idempotence of the state derivation *)

(** C8. When two successive readings of the clock give the same value,
    running [atualizar_estado] a second time ends as the first run ended and
    leaves the auction exactly as the first run left it (same state, same
    winner), and the log after either run is the log before the first.  The
    runs return whenever the dates are naive or the auction is FINALIZADO;
    they raise the TypeError of an aware date otherwise, and then change
    nothing. *)
Theorem C8_atualizar_estado_idempotente (r : Relogio) (amb : Ambiente) (l : Leilao) :
  r (Datatypes.S (leituras amb)) = r (leituras amb) ->
  exists res l1,
    Leilao_.atualizar_estado r amb l = (res, tique amb, l1)
    /\ Leilao_.atualizar_estado r (tique amb) l1 = (res, tique (tique amb), l1)
    /\ (res = Retorna tt ->
        (Leilao_.atualizar_estado ;; Leilao_.atualizar_estado) r amb l
        = (Retorna tt, tique (tique amb), l1))
    /\ _lances l1 = _lances l
    /\ (datas_ingenuas l = true \/ _estado l = FINALIZADO -> res = Retorna tt)
    /\ (res = Retorna tt \/ res = Levanta erro_de_fuso /\ l1 = l).
Proof.
  intros Hr.
  exists (se_deriva (deriva (r (leituras amb)) l) tt), (derivar (r (leituras amb)) l).
  assert (H2 : Leilao_.atualizar_estado r (tique amb) (derivar (r (leituras amb)) l)
               = (se_deriva (deriva (r (leituras amb)) l) tt,
                  tique (tique amb), derivar (r (leituras amb)) l)).
  { rewrite atualizar_estado_derivar. cbn [tique leituras].
    rewrite Hr, derivar_idem, deriva_idem. reflexivity. }
  split; [apply atualizar_estado_derivar|]. split; [exact H2|].
  split; [|split; [apply derivar_lances|split]].
  - intros Hres. erewrite liga_se_deriva by apply atualizar_estado_derivar.
    destruct (deriva (r (leituras amb)) l); [|discriminate]. exact H2.
  - intros [Hd|Hf].
    + now rewrite deriva_ingenuas.
    + now rewrite deriva_finalizado.
  - destruct (deriva (r (leituras amb)) l) eqn:E; [now left|right].
    split; [reflexivity|now apply derivar_levanta].
Qed.

Lemma C8_witness :
  relogio_fixo 25 1%nat = relogio_fixo 25 0%nat
  /\ exists l1,
       Leilao_.atualizar_estado (relogio_fixo 25) amb0
         (leilao_10_20 [lance_de alice 110] ABERTO None)
       = (Retorna tt, tique amb0, l1)
       /\ Leilao_.atualizar_estado (relogio_fixo 25) (tique amb0) l1
          = (Retorna tt, tique (tique amb0), l1)
       /\ (Leilao_.atualizar_estado ;; Leilao_.atualizar_estado)
            (relogio_fixo 25) amb0 (leilao_10_20 [lance_de alice 110] ABERTO None)
          = (Retorna tt, tique (tique amb0), l1)
       /\ _lances l1 = [lance_de alice 110].
Proof.
  split; [reflexivity|].
  destruct (C8_atualizar_estado_idempotente (relogio_fixo 25) amb0
              (leilao_10_20 [lance_de alice 110] ABERTO None) eq_refl)
    as (res & l1 & H1 & H2 & H3 & H4 & H5 & _).
  assert (Hres : res = Retorna tt) by (apply H5; now left).
  subst res. exists l1. auto.
Defined.

(** ** C9: a failed proposal changes neither the log nor the bidder flags *)

(** C9. Whatever the clock and the argument, when [propor_lance] raises
    (LeilaoInvalido, TypeError or LanceInvalido) the log and the store of
    has-bid flags are as before the call; when it returns, the argument was a
    [Lance], the log is the old log followed by that bid and the only flag
    set is the bidder's. *)
Theorem C9_falha_nao_altera_log_nem_marca
  (r : Relogio) (amb : Ambiente) (l : Leilao) (v : Valor)
  (res : Resultado unit) (amb' : Ambiente) (l' : Leilao) :
  Leilao_.propor_lance v r amb l = (res, amb', l') ->
  match res with
  | Levanta e =>
      _lances l' = _lances l /\ ofertantes amb' = ofertantes amb
      /\ (forall p, pode_ser_excluido p r amb' l' = (Retorna (bool_decide (pid p ∉ ofertantes amb)), amb', l'))
  | Retorna _ =>
      exists b, v = VLance b
        /\ _lances l' = _lances l ++ [b]
        /\ ofertantes amb' = {[ pid (participante b) ]} ∪ ofertantes amb
  end.
Proof.
  rewrite propor_lance_derivar. cbv zeta.
  set (l1 := derivar _ l). set (l2 := derivar _ l1). set (l3 := derivar _ l2).
  assert (E1 : _lances l1 = _lances l)
    by (unfold l1; now rewrite !derivar_lances).
  assert (E2 : _lances l2 = _lances l)
    by (unfold l2, l1; now rewrite !derivar_lances).
  assert (E3 : _lances l3 = _lances l)
    by (unfold l3, l2, l1; now rewrite !derivar_lances).
  destruct (negb (deriva _ l));
    [intros H; injection H as <- <- <-; repeat split; assumption|].
  destruct (negb (deriva _ l1));
    [intros H; injection H as <- <- <-; repeat split; assumption|].
  destruct (estado_eqb (_estado l2) ABERTO); cbn [negb].
  - destruct v as [| | | | | |b];
      try (intros H; injection H as <- <- <-; repeat split; try assumption;
           intros; unfold pode_ser_excluido; reflexivity).
    destruct (negb (deriva _ l2));
      [intros H; injection H as <- <- <-; repeat split; assumption|].
    destruct (estado_eqb (_estado l3) ABERTO && admissivel l3 b);
      intros H; injection H as <- <- <-.
    + exists b. cbn. rewrite E3. repeat split.
    + repeat split; try assumption.
  - destruct (deriva _ l2);
      intros H; injection H as <- <- <-; repeat split; try assumption.
Qed.

Lemma C9_witness :
  Leilao_.propor_lance (VLance (lance_de bob 90)) (relogio_fixo 15) amb0
    (leilao_10_20 [] INATIVO None)
  = (Levanta (LanceInvalido "Console"
                (AbaixoDoMinimo (FFin (inject_Z 90)) (FFin 100))),
     tique (tique (tique amb0)), leilao_10_20 [] ABERTO None)
  /\ _lances (leilao_10_20 [] ABERTO None) = _lances (leilao_10_20 [] INATIVO None)
  /\ ofertantes (tique (tique (tique amb0))) = ofertantes amb0.
Proof.
  split; [reflexivity|].
  pose proof (C9_falha_nao_altera_log_nem_marca (relogio_fixo 15) amb0
                (leilao_10_20 [] INATIVO None) (VLance (lance_de bob 90))
                (Levanta (LanceInvalido "Console"
                            (AbaixoDoMinimo (FFin (inject_Z 90)) (FFin 100))))
                (tique (tique (tique amb0))) (leilao_10_20 [] ABERTO None)
                eq_refl) as H.
  cbn beta iota in H. destruct H as (H1 & H2 & _). split; assumption.
Defined.


(** What it means that a use of the property [estado] returned. *)
Lemma estado_retorna r amb l e amb' l' :
  Leilao_.estado r amb l = (Retorna e, amb', l') ->
  deriva (r (leituras amb)) l = true
  /\ amb' = tique amb /\ l' = derivar (r (leituras amb)) l /\ e = _estado l'.
Proof.
  rewrite estado_derivar.
  destruct (deriva (r (leituras amb)) l); [|discriminate].
  intros [= <- <- <-]. auto.
Qed.

(** What it means that the first two readings of [propor_lance], the
    explicit derivation and the state test, returned. *)
Lemma teste_de_estado_retorna r amb l e amb2 l2 :
  (Leilao_.atualizar_estado ;; Leilao_.estado) r amb l = (Retorna e, amb2, l2) ->
  deriva (r (leituras amb)) l = true
  /\ deriva (r (Datatypes.S (leituras amb))) (derivar (r (leituras amb)) l) = true
  /\ amb2 = tique (tique amb)
  /\ l2 = derivar (r (Datatypes.S (leituras amb))) (derivar (r (leituras amb)) l)
  /\ e = _estado l2.
Proof.
  erewrite liga_se_deriva by apply atualizar_estado_derivar.
  destruct (deriva (r (leituras amb)) l); [|discriminate].
  intros H. apply estado_retorna in H. cbn [tique leituras] in H.
  destruct H as (H1 & H2 & H3 & H4). auto.
Qed.

(** ** C5: proposals on an auction that is not open *)



(** Scenario D of the specification: a bid on an auction that has not
    started, and on a finalized one. *)
Example cenario_D :
  fst (fst (Leilao_.propor_lance (VLance (lance_de bob 150)) (relogio_fixo 5) amb0
              (leilao_10_20 [] INATIVO None)))
  = Levanta (LeilaoInvalido
      "Leilão 'Console' não está ABERTO para receber lances (Estado: INATIVO).")
  /\ fst (fst (Leilao_.propor_lance (VLance (lance_de bob 150)) (relogio_fixo 25) amb0
                 (leilao_10_20 [lance_de alice 110] FINALIZADO (Some alice))))
     = Levanta (LeilaoInvalido
         "Leilão 'Console' não está ABERTO para receber lances (Estado: FINALIZADO).").
Proof. split; reflexivity. Qed.

(** ** C4: the reason of a rejection *)

(** C4 as stated fails when the window closes between the state test of
    [propor_lance], which finds the auction ABERTO, and the derivation made
    by [_pode_receber_lance]: a first bid of 110 on a minimum of 100 is
    rejected, with a reason that is none of the three. *)
Lemma C4_contraexemplo :
  (Leilao_.atualizar_estado ;; Leilao_.estado) relogio_15_15_25 amb0
    (leilao_10_20 [] INATIVO None)
  = (Retorna ABERTO, tique (tique amb0), leilao_10_20 [] ABERTO None)
  /\ Fleb (lance_minimo (leilao_10_20 [] INATIVO None)) (valor (lance_de bob 110))
     = true
  /\ Leilao_.propor_lance (VLance (lance_de bob 110)) relogio_15_15_25 amb0
       (leilao_10_20 [] INATIVO None)
     = (Levanta (LanceInvalido "Console" Desconhecido),
        tique (tique (tique amb0)), leilao_10_20 [] EXPIRADO None).
Proof. repeat split. Qed.

Lemma propor_lance_aberto r amb l b amb2 l2 amb3 l3 :
  (Leilao_.atualizar_estado ;; Leilao_.estado) r amb l = (Retorna ABERTO, amb2, l2) ->
  Leilao_.estado r amb2 l2 = (Retorna ABERTO, amb3, l3) ->
  Leilao_.propor_lance (VLance b) r amb l
  = (if admissivel l b then
       (Retorna tt, marcado (participante b) amb3,
        com_lances (_lances l ++ [b]) l3)
     else (Levanta (LanceInvalido (nome l) (motivo_de l b)), amb3, l3))
  /\ amb3 = tique (tique (tique amb))
  /\ _estado l3 = ABERTO /\ mesmos_campos l l3 /\ _lances l3 = _lances l.
Proof.
  intros H2 H3. apply teste_de_estado_retorna in H2.
  destruct H2 as (D1 & D2 & -> & -> & Ha).
  apply estado_retorna in H3. cbn [tique leituras] in H3.
  destruct H3 as (D3 & -> & -> & Ha3).
  rewrite propor_lance_derivar. cbv zeta. rewrite D1, D2, D3, <- Ha, <- Ha3.
  cbn [negb estado_eqb andb].
  set (l3 := derivar _ (derivar _ (derivar _ l))).
  assert (Em : lance_minimo l3 = lance_minimo l)
    by (unfold l3; now rewrite !derivar_lance_minimo).
  assert (El : _lances l3 = _lances l)
    by (unfold l3; now rewrite !derivar_lances).
  assert (En : nome l3 = nome l)
    by (unfold l3; now rewrite !derivar_nome).
  assert (Had : admissivel l3 b = admissivel l b)
    by (unfold admissivel; now rewrite Em, El).
  assert (Hmo : motivo_de l3 b = motivo_de l b)
    by (unfold motivo_de; now rewrite Em, El).
  split; [now rewrite Had, Hmo, El, En|]. split; [reflexivity|].
  split; [reflexivity|]. split; [|exact El].
  unfold mesmos_campos, l3.
  rewrite !derivar_nome, !derivar_lance_minimo, !derivar_data_inicio,
    !derivar_data_termino, !derivar_lances. auto.
Qed.

(** C4. Whatever the clock: when the state test of [propor_lance] finds the
    auction ABERTO and so does the derivation made by [_pode_receber_lance],
    the outcome of the call on a [Lance] is decided in this order: an amount
    below [lance_minimo] is rejected as below the minimum; otherwise, when
    the log has a last bid, an amount at or below it is rejected as not
    greater than the last bid; otherwise a bidder equal to the last bidder is
    rejected as a consecutive bid; otherwise the bid is admitted, and so is
    any first bid that is not below [lance_minimo].  A rejection is a
    LanceInvalido carrying one of these three reasons and leaves the log as
    it was; an admission returns, appends the bid to the log and marks the
    bidder. *)
Theorem C4_motivo_da_recusa
  (r : Relogio) (amb : Ambiente) (l : Leilao) (b : Lance)
  (amb2 : Ambiente) (l2 : Leilao) (amb3 : Ambiente) (l3 : Leilao) :
  (Leilao_.atualizar_estado ;; Leilao_.estado) r amb l = (Retorna ABERTO, amb2, l2) ->
  Leilao_.estado r amb2 l2 = (Retorna ABERTO, amb3, l3) ->
  let res := Leilao_.propor_lance (VLance b) r amb l in
  let recusa motivo := (Levanta (LanceInvalido (nome l) motivo), amb3, l3) in
  let admite :=
    (Retorna tt, marcado (participante b) amb3, com_lances (_lances l ++ [b]) l3) in
  (Fltb (valor b) (lance_minimo l) = true ->
     res = recusa (AbaixoDoMinimo (valor b) (lance_minimo l)))
  /\ (forall u, Fltb (valor b) (lance_minimo l) = false ->
        last (_lances l) = Some u ->
        Fleb (valor b) (valor u) = true ->
        res = recusa (NaoMaiorQueUltimo (valor b) (valor u)))
  /\ (forall u, Fltb (valor b) (lance_minimo l) = false ->
        last (_lances l) = Some u ->
        Fleb (valor b) (valor u) = false ->
        participante_eq (participante b) (participante u) = true ->
        res = recusa DoisLancesSeguidos)
  /\ (forall u, Fltb (valor b) (lance_minimo l) = false ->
        last (_lances l) = Some u ->
        Fleb (valor b) (valor u) = false ->
        participante_eq (participante b) (participante u) = false ->
        res = admite)
  /\ (Fltb (valor b) (lance_minimo l) = false -> _lances l = [] -> res = admite)
  /\ (Fleb (lance_minimo l) (valor b) = true -> _lances l = [] -> res = admite)
  /\ (forall e, fst (fst res) = Levanta e ->
        exists motivo, e = LanceInvalido (nome l) motivo
          /\ (motivo = AbaixoDoMinimo (valor b) (lance_minimo l)
              \/ (exists u, last (_lances l) = Some u
                            /\ motivo = NaoMaiorQueUltimo (valor b) (valor u))
              \/ motivo = DoisLancesSeguidos))
  /\ _estado l3 = ABERTO /\ mesmos_campos l l3.
Proof.
  intros H2 H3 res recusa admite.
  destruct (propor_lance_aberto r amb l b amb2 l2 amb3 l3 H2 H3)
    as (Hres & _ & Ha & Hc & _).
  assert (Hmin : Fleb (lance_minimo l) (valor b) = true ->
                 Fltb (valor b) (lance_minimo l) = false).
  { intros H. destruct (Fltb (valor b) (lance_minimo l)) eqn:E; [|reflexivity].
    apply Fltb_nao_le in E. congruence. }
  subst res recusa admite. rewrite Hres. clear Hres.
  unfold admissivel, motivo_de.
  destruct (Fltb (valor b) (lance_minimo l)) eqn:Hlt; cbn [negb andb];
    [|destruct (last (_lances l)) as [u|] eqn:El;
      [destruct (Fleb (valor b) (valor u)) eqn:Hle; cbn [negb andb];
       [|destruct (participante_eq (participante b) (participante u)) eqn:Ep;
         cbn [negb]]|]];
    (split; [|split; [|split; [|split; [|split; [|split; [|split; [|split]]]]]]]);
    try exact Ha; try exact Hc;
    try (intros;
         repeat match goal with
                | H : Some _ = Some _ |- _ => injection H as <-
                | H : _lances l = [] |- _ => rewrite H in El; discriminate El
                | H : Fleb (lance_minimo l) (valor b) = true |- _ =>
                    apply Hmin in H
                end;
         first [congruence | reflexivity]);
    try (intros e H; cbn in H; discriminate H).
  - intros e H. injection H as <-. eexists. split; [reflexivity|]. now left.
  - intros e H. injection H as <-. eexists. split; [reflexivity|].
    right. left. exists u. split; reflexivity.
  - intros e H. injection H as <-. eexists. split; [reflexivity|]. now right; right.
Qed.

(** Alice bids 120 right after her own 110. *)
Lemma C4_witness :
  ((Leilao_.atualizar_estado ;; Leilao_.estado) (relogio_fixo 15) amb0
     (leilao_10_20 [lance_de alice 110] ABERTO None)
   = (Retorna ABERTO, tique (tique amb0),
      leilao_10_20 [lance_de alice 110] ABERTO None)
   /\ Leilao_.estado (relogio_fixo 15) (tique (tique amb0))
        (leilao_10_20 [lance_de alice 110] ABERTO None)
      = (Retorna ABERTO, tique (tique (tique amb0)),
         leilao_10_20 [lance_de alice 110] ABERTO None))
  /\ Leilao_.propor_lance (VLance (lance_de alice 120)) (relogio_fixo 15)
       amb0 (leilao_10_20 [lance_de alice 110] ABERTO None)
     = (Levanta (LanceInvalido "Console" DoisLancesSeguidos),
        tique (tique (tique amb0)), leilao_10_20 [lance_de alice 110] ABERTO None).
Proof.
  split; [split; reflexivity|].
  destruct (C4_motivo_da_recusa (relogio_fixo 15) amb0
              (leilao_10_20 [lance_de alice 110] ABERTO None)
              (lance_de alice 120)
              (tique (tique amb0)) (leilao_10_20 [lance_de alice 110] ABERTO None)
              (tique (tique (tique amb0)))
              (leilao_10_20 [lance_de alice 110] ABERTO None)
              eq_refl eq_refl)
    as (_ & _ & H & _).
  apply (H (lance_de alice 110)); reflexivity.
Defined.

(** The clock passes the start of the window during the call, and the first
    bid is admitted: the readings need not agree. *)
Example C4_relogio_em_movimento :
  Leilao_.propor_lance (VLance (lance_de bob 110))
    (fun n => if (n <? 1)%nat then 5 else 15) amb0 (leilao_10_20 [] INATIVO None)
  = (Retorna tt, marcado bob (tique (tique (tique amb0))),
     leilao_10_20 [lance_de bob 110] ABERTO None).
Proof. reflexivity. Qed.

(** Scenario A of the specification: window 10..20, minimum 100, clock at
    15; 110 by Alice is admitted, 90 by Bob is below the minimum, 100 by Bob
    is not greater than the last bid, 120 by Alice is a consecutive bid, 120
    by Bob is admitted. *)
Example cenario_A_log :
  _lances (leilao_apos (relogio_fixo 15) amb0 (leilao_10_20 [] INATIVO None)
             [m_propor_lance (VLance (lance_de alice 110));
              m_propor_lance (VLance (lance_de bob 90));
              m_propor_lance (VLance (lance_de bob 100));
              m_propor_lance (VLance (lance_de alice 120));
              m_propor_lance (VLance (lance_de bob 120))])
  = [lance_de alice 110; lance_de bob 120].
Proof. reflexivity. Qed.

Example cenario_A_motivos :
  let l := leilao_10_20 [lance_de alice 110] ABERTO None in
  let tenta b := fst (fst (Leilao_.propor_lance (VLance b) (relogio_fixo 15) amb0 l)) in
  tenta (lance_de bob 90)
  = Levanta (LanceInvalido "Console"
               (AbaixoDoMinimo (FFin (inject_Z 90)) (FFin 100)))
  /\ tenta (lance_de bob 100)
     = Levanta (LanceInvalido "Console"
                  (NaoMaiorQueUltimo (FFin (inject_Z 100)) (FFin (inject_Z 110))))
  /\ tenta (lance_de alice 120)
     = Levanta (LanceInvalido "Console" DoisLancesSeguidos)
  /\ tenta (lance_de bob 120) = Retorna tt.
Proof. repeat split. Qed.

(** ** C3: what the admitted bids satisfy *)

Lemma propor_lance_retorna r amb l v amb' l' :
  Leilao_.propor_lance v r amb l = (Retorna tt, amb', l') ->
  exists b l3,
    v = VLance b /\ _estado l3 = ABERTO /\ admissivel l3 b = true
    /\ mesmos_campos l l3 /\ datas_ingenuas l = true
    /\ amb' = marcado (participante b) (tique (tique (tique amb)))
    /\ l' = com_lances (_lances l3 ++ [b]) l3.
Proof.
  rewrite propor_lance_derivar. cbv zeta.
  set (l1 := derivar _ l). set (l2 := derivar _ l1). set (l3 := derivar _ l2).
  destruct (deriva _ l) eqn:D1; cbn [negb]; [|discriminate].
  destruct (deriva _ l1) eqn:D2; cbn [negb]; [|discriminate].
  destruct (estado_eqb_spec (_estado l2) ABERTO) as [Ha2|]; cbn [negb];
    [|destruct (deriva _ l2); discriminate].
  destruct v as [| | | | | |b]; try discriminate.
  destruct (deriva _ l2) eqn:D3; cbn [negb]; [|discriminate].
  destruct (estado_eqb_spec (_estado l3) ABERTO) as [Ha|]; [|discriminate].
  cbn [andb]. destruct (admissivel l3 b) eqn:Ead; [|discriminate].
  intros H. injection H as <- <-.
  exists b, l3. split; [reflexivity|]. split; [exact Ha|]. split; [exact Ead|].
  split; [|split; [|split; reflexivity]].
  - unfold mesmos_campos, l3, l2, l1.
    rewrite !derivar_nome, !derivar_lance_minimo, !derivar_data_inicio,
      !derivar_data_termino, !derivar_lances. auto.
  - apply (aberto_ingenuas _ _ D2) in Ha2. unfold l1 in Ha2.
    now rewrite derivar_datas_ingenuas in Ha2.
Qed.


(** The minimum that an admitted bid is compared with is the one of the
    moment: when the clock goes back to before the window, the auction is
    INATIVO with its bid, and [alterar_leilao] raises the minimum above
    it. *)
Example C3_minimo_alterado_depois :
  _leiloes (sistema_apos relogio_15_5 amb0 chamadas_minimo_alterado)
  = [ {| nome := "Console"; lance_minimo := FFin (inject_Z 200);
         data_inicio := Ingenua 10; data_termino := Ingenua 20;
         _lances := [lance_de alice 110]; _estado := INATIVO;
         _ganhador := None |} ].
Proof. reflexivity. Qed.



(** ** C2: FINALIZADO is permanent, and the winner query *)


Lemma ganhador_derivar r amb l :
  Leilao_.ganhador r amb l
  = (se_deriva (deriva (r (leituras amb)) l)
       (if estado_eqb (_estado (derivar (r (leituras amb)) l)) FINALIZADO
        then _ganhador (derivar (r (leituras amb)) l) else None),
     tique amb, derivar (r (leituras amb)) l).
Proof.
  unfold Leilao_.ganhador.
  erewrite liga_se_deriva by apply estado_derivar.
  destruct (deriva (r (leituras amb)) l); [|reflexivity].
  destruct (estado_eqb (_estado (derivar (r (leituras amb)) l)) FINALIZADO);
    reflexivity.
Qed.

(** A derivation that leaves the auction FINALIZADO returned. *)
Lemma finalizado_deriva t l :
  _estado (derivar t l) = FINALIZADO -> deriva t l = true.
Proof.
  intros H. destruct (deriva t l) eqn:E; [reflexivity|].
  rewrite derivar_levanta in H by exact E.
  rewrite deriva_finalizado in E by exact H. discriminate.
Qed.




(** Scenario C of the specification: one bid by Alice during the window,
    observed after the end. *)
Example cenario_C :
  leilao_10_20 [lance_de alice 110] FINALIZADO (Some alice)
    ∈ _leiloes (sistema_apos relogio_15_25 amb0 chamadas_exemplo)
  /\ fst (fst (Leilao_.ganhador (relogio_fixo 5) amb0
                 (leilao_10_20 [lance_de alice 110] FINALIZADO (Some alice))))
     = Retorna (Some alice).
Proof. split; [apply list_elem_of_here|reflexivity]. Qed.

(** ** C10: the highest bid is the last bid *)





(** ** C6: construction, alteration and the window of an auction *)

Lemma arredonda_53_positivo n : 0 < n -> 0 < arredonda_53 n.
Proof.
  intros Hn. unfold arredonda_53.
  destruct (Z.ltb_spec n (2 ^ 53)) as [|Hge]; [exact Hn|]. cbv zeta.
  assert (Hlog : 53 <= Z.log2 n).
  { rewrite <- (Z.log2_pow2 53) by lia. now apply Z.log2_le_mono. }
  set (e := Z.log2 n - 52).
  assert (He : 0 < e) by (unfold e; lia).
  assert (Hpe : 0 < 2 ^ e) by (apply Z.pow_pos_nonneg; lia).
  assert (Hq : 0 < Z.shiftr n e).
  { rewrite Z.shiftr_div_pow2 by lia. apply Z.div_str_pos. split; [exact Hpe|].
    transitivity (2 ^ Z.log2 n).
    - apply Z.pow_le_mono_r; unfold e; lia.
    - apply Z.log2_spec. exact Hn. }
  rewrite Z.shiftl_mul_pow2 by lia.
  apply Z.mul_pos_pos; [|exact Hpe].
  destruct (_ || _); lia.
Qed.

(** A minimum that passed the check and is a number is positive. *)
Lemma minimo_positivo m q :
  isinstance_int_float m = true -> py_le_0 m = false ->
  float_de m = Retorna q -> e_numero q = true -> Fltb F0 q = true.
Proof.
  intros Hi Hle Hq Hn. destruct m as [|b|z|f| | |]; try discriminate.
  - destruct b; [|discriminate]. injection Hq as <-. reflexivity.
  - unfold py_le_0 in Hle. cbn in Hle, Hq.
    destruct (Qleb_spec (inject_Z z) 0) as [|Hz]; [discriminate|].
    assert (Hpos : 0 < z) by (unfold Qle in Hz; cbn in Hz; lia).
    unfold float_de_int in Hq.
    destruct (2 ^ 1024 <=? arredonda_53 (Z.abs z)); [discriminate|].
    injection Hq as <-. cbn [Fltb F0].
    apply (reflect_iff _ _ (Qltb_spec _ _)).
    rewrite Z.sgn_pos, Z.abs_eq, Z.mul_1_l by lia.
    pose proof (arredonda_53_positivo z Hpos) as Hp.
    unfold Qlt. cbn. lia.
  - injection Hq as <-. unfold py_le_0 in Hle. cbn in Hle.
    apply Flt_total; [exact Hn|reflexivity|exact Hle].
Qed.




(** The constructor on the arguments of the repository's tests: an empty
    name, a zero minimum, a string for a date, and equal dates. *)
Example C6_construtor_recusa :
  let cria n m i t :=
    fst (fst (@Leilao_.__init__ unit n m i t (relogio_fixo 5) amb0 tt)) in
  cria (VStr "") (VInt 100) (VDatetime (Ingenua 10)) (VDatetime (Ingenua 20))
  = Levanta (ValueError "Nome do leilão inválido.")
  /\ cria VNone (VInt 100) (VDatetime (Ingenua 10)) (VDatetime (Ingenua 20))
     = Levanta (ValueError "Nome do leilão inválido.")
  /\ cria (VStr "Item") (VInt 0) (VDatetime (Ingenua 10)) (VDatetime (Ingenua 20))
     = Levanta (ValueError "Lance mínimo deve ser positivo.")
  /\ cria (VStr "Item") (VStr "abc") (VDatetime (Ingenua 10)) (VDatetime (Ingenua 20))
     = Levanta (ValueError "Lance mínimo deve ser positivo.")
  /\ cria (VStr "Item") (VInt 100) (VStr "2025-06-01 10:00:00")
       (VDatetime (Ingenua 20))
     = Levanta (ValueError "Datas de início e término devem ser objetos datetime.")
  /\ cria (VStr "Item") (VInt 100) (VDatetime (Ingenua 20)) (VDatetime (Ingenua 20))
     = Levanta (ValueError "Data de início deve ser anterior à data de término.")
  /\ cria (VStr "Item") (VInt 100) (VDatetime (Ingenua 10)) (VDatetime (Ciente 20))
     = Levanta erro_de_fuso.
Proof. repeat split. Qed.

(** [float] of an [int]: exact up to 2^53, rounded to the nearest double
    beyond, ties to even. *)
Example float_de_int_exemplos :
  float_de_int (2 ^ 53) = Some (FFin (inject_Z (2 ^ 53)))
  /\ float_de_int (2 ^ 53 + 1) = Some (FFin (inject_Z (2 ^ 53)))
  /\ float_de_int (2 ^ 53 + 2) = Some (FFin (inject_Z (2 ^ 53 + 2)))
  /\ float_de_int (2 ^ 53 + 3) = Some (FFin (inject_Z (2 ^ 53 + 4)))
  /\ float_de_int (- (2 ^ 53 + 1)) = Some (FFin (inject_Z (- 2 ^ 53)))
  /\ float_de_int (2 ^ 1024 - 2 ^ 970) = None
  /\ float_de_int (2 ^ 1024 - 2 ^ 970 - 1)
     = Some (FFin (inject_Z (2 ^ 1024 - 2 ^ 971)))
  /\ float_de_int (2 ^ 1024) = None.
Proof. vm_compute. repeat split. Qed.

(** * Further properties of the code *)

(** ** What the methods of [Leilao] never change *)

(** X1. Whatever the clock, the methods called and their arguments, the
    methods of [Leilao] never change [nome], [lance_minimo], [data_inicio] or
    [data_termino], and never remove or reorder bids: the log afterwards is
    the log before followed by the bids admitted meanwhile. *)
Theorem X1_metodos_so_acrescentam_lances
  (r : Relogio) (amb : Ambiente) (l : Leilao) (ms : list Metodo) :
  nome (leilao_apos r amb l ms) = nome l
  /\ lance_minimo (leilao_apos r amb l ms) = lance_minimo l
  /\ data_inicio (leilao_apos r amb l ms) = data_inicio l
  /\ data_termino (leilao_apos r amb l ms) = data_termino l
  /\ exists novos, _lances (leilao_apos r amb l ms) = _lances l ++ novos.
Proof.
  unfold leilao_apos.
  apply (preserva_invocar_todos
           (fun x => nome x = nome l
                     /\ lance_minimo x = lance_minimo l
                     /\ data_inicio x = data_inicio l
                     /\ data_termino x = data_termino l
                     /\ exists novos, _lances x = _lances l ++ novos)).
  - intros t x H.
    destruct (derivar_campos t x) as (-> & -> & -> & -> & ->). exact H.
  - intros x b (H1 & H2 & H3 & H4 & novos & H5) _ _. cbn.
    repeat split; try assumption.
    exists (novos ++ [b]). rewrite H5. now rewrite app_assoc.
  - repeat split. exists []. now rewrite app_nil_r.
Qed.


(** ** When an auction may be altered or deleted *)

(** X2. [pode_ser_alterado_ou_excluido], reading the clock value [agora],
    answers [True] exactly when the auction is not FINALIZADO and either
    [agora] is before [data_inicio], or [agora] is at or after both dates and
    the log is empty.  So an auction that holds a bid may be altered or
    deleted only while the clock reads before its start.  The property
    returns whenever the dates are naive; it raises the TypeError of an aware
    date, changing nothing, exactly when [deriva] is false. *)
Theorem X2_pode_ser_alterado_ou_excluido (r : Relogio) (amb : Ambiente) (l : Leilao) :
  let agora := r (leituras amb) in
  (deriva agora l = true ->
   exists b,
     Leilao_.pode_ser_alterado_ou_excluido r amb l
     = (Retorna b, tique amb, derivar agora l)
     /\ (b = true <->
         _estado l <> FINALIZADO
         /\ exists ti, data_inicio l = Ingenua ti
              /\ (agora < ti
                  \/ (ti <= agora
                      /\ exists tf, data_termino l = Ingenua tf
                           /\ tf <= agora /\ _lances l = [])))
     /\ (b = true -> _lances l <> [] ->
         exists ti, data_inicio l = Ingenua ti /\ agora < ti))
  /\ (deriva agora l = false ->
      Leilao_.pode_ser_alterado_ou_excluido r amb l
      = (Levanta erro_de_fuso, tique amb, l))
  /\ (datas_ingenuas l = true -> deriva agora l = true).
Proof.
  intros agora.
  assert (Hrun : Leilao_.pode_ser_alterado_ou_excluido r amb l
                 = (se_deriva (deriva agora l)
                      (estado_eqb (_estado (derivar agora l)) INATIVO
                       || estado_eqb (_estado (derivar agora l)) EXPIRADO),
                    tique amb, derivar agora l)).
  { unfold Leilao_.pode_ser_alterado_ou_excluido.
    erewrite liga_se_deriva by apply estado_derivar.
    now destruct (deriva _ l). }
  split; [|split].
  - intros Hd. rewrite Hrun, Hd. eexists. split; [reflexivity|].
    assert (Hiff : estado_eqb (_estado (derivar agora l)) INATIVO
                   || estado_eqb (_estado (derivar agora l)) EXPIRADO = true <->
                   _estado l <> FINALIZADO
                   /\ exists ti, data_inicio l = Ingenua ti
                        /\ (agora < ti
                            \/ (ti <= agora
                                /\ exists tf, data_termino l = Ingenua tf
                                     /\ tf <= agora /\ _lances l = []))).
    { unfold deriva in Hd. unfold derivar.
      destruct (estado_eqb_spec (_estado l) FINALIZADO) as [E|E].
      - rewrite E. cbn. split; [discriminate|]. intros [H _]. congruence.
      - cbn [orb] in Hd. destruct (data_inicio l) as [ti|]; [|discriminate].
        destruct (Z.ltb_spec agora ti) as [H1|H1]; cbn.
        + split; [intros _|reflexivity]. split; [exact E|].
          exists ti. split; [reflexivity|now left].
        + cbn [orb] in Hd.
          destruct (data_termino l) as [tf|]; [|discriminate].
          destruct (Z.ltb_spec agora tf) as [H2|H2]; cbn.
          * split; [discriminate|].
            intros [_ (ti' & [= <-] & [H|(_ & tf' & [= <-] & H & _)])]; lia.
          * destruct (_lances l) as [|x rest]; cbn.
            -- split; [intros _|reflexivity]. split; [exact E|].
               exists ti. split; [reflexivity|]. right. split; [exact H1|].
               exists tf. auto.
            -- split; [discriminate|].
               intros [_ (ti' & [= <-] & [H|(_ & tf' & _ & _ & H)])];
                 [lia|discriminate]. }
    split; [exact Hiff|].
    intros Hb Hne. apply Hiff in Hb.
    destruct Hb as [_ (ti & Hi & [H|(_ & tf & _ & _ & H)])];
      [eauto|contradiction].
  - intros Hd. rewrite Hrun, Hd, derivar_levanta by exact Hd. reflexivity.
  - apply deriva_ingenuas.
Qed.

(** ** The queries on a log filled through [propor_lance] *)

Lemma crescente_cauda_maior x resto :
  crescente (x :: resto) -> Forall (fun y => Fltb (valor x) (valor y) = true) resto.
Proof.
  revert x. induction resto as [|y resto IH]; intros x Hc; [constructor|].
  destruct Hc as [Hxy Hr]. constructor; [exact Hxy|].
  eapply Forall_impl; [apply IH; exact Hr|]. cbn. intros z Hz.
  eapply Flt_trans; eauto.
Qed.

Lemma min_desde_primeiro melhor resto :
  Forall (fun y => Fltb (valor melhor) (valor y) = true) resto ->
  min_desde valor melhor resto = melhor.
Proof.
  induction resto as [|y resto IH]; intros H; [reflexivity|].
  apply Forall_cons in H. destruct H as [Hy Hr]. cbn [min_desde].
  destruct (Fltb (valor y) (valor melhor)) eqn:Hlt; [|now apply IH].
  apply Fltb_le in Hlt. apply Fltb_nao_le in Hy. congruence.
Qed.

Lemma sorted_crescente log : crescente log -> sorted valor log = log.
Proof.
  induction log as [|x resto IH]; intros Hc; [reflexivity|].
  cbn [sorted]. rewrite IH by apply Hc.
  destruct resto as [|y resto']; [reflexivity|].
  destruct Hc as [Hxy _]. cbn [inserir].
  now rewrite (Fltb_le _ _ Hxy).
Qed.

(** X3. For every auction of a registry reached by calls of the interface
    whose log holds no not-a-number amount, the sorted view [lances] is the
    chronological log itself, and [menor_lance] is its first bid: bids
    admitted by [propor_lance] are already in ascending order. *)
Theorem X3_lances_ja_ordenados
  (r : Relogio) (amb_i : Ambiente) (cs : list Chamada) (l : Leilao) :
  l ∈ _leiloes (sistema_apos r amb_i cs) ->
  so_numeros valor (_lances l) = true ->
  forall r' amb,
    Leilao_.lances r' amb l = (Retorna (_lances l), amb, l)
    /\ Leilao_.menor_lance r' amb l = (Retorna (head (_lances l)), amb, l).
Proof.
  intros Hin Hn r' amb. apply sistema_apos_ok in Hin.
  assert (Hc : crescente (_lances l))
    by (apply acima_crescente; [exact Hn|apply Hin]).
  split.
  - unfold Leilao_.lances, liga, obter.
    rewrite py_sorted_numeros by exact Hn. now rewrite sorted_crescente.
  - unfold Leilao_.menor_lance, liga, obter, ret.
    destruct (_lances l) as [|x resto]; [reflexivity|].
    cbn [vazia py_min head].
    now rewrite (min_desde_primeiro x resto (crescente_cauda_maior x resto Hc)).
Qed.

Lemma X3_witness :
  (leilao_10_20 [lance_de alice 110; lance_de bob 120] FINALIZADO (Some bob)
     ∈ _leiloes (sistema_apos (relogio_15_ate 7) amb0 chamadas_dois_lances)
   /\ so_numeros valor [lance_de alice 110; lance_de bob 120] = true)
  /\ Leilao_.lances (relogio_fixo 30) amb0
       (leilao_10_20 [lance_de alice 110; lance_de bob 120] FINALIZADO (Some bob))
     = (Retorna [lance_de alice 110; lance_de bob 120], amb0,
        leilao_10_20 [lance_de alice 110; lance_de bob 120] FINALIZADO (Some bob))
  /\ Leilao_.menor_lance (relogio_fixo 30) amb0
       (leilao_10_20 [lance_de alice 110; lance_de bob 120] FINALIZADO (Some bob))
     = (Retorna (Some (lance_de alice 110)), amb0,
        leilao_10_20 [lance_de alice 110; lance_de bob 120] FINALIZADO (Some bob)).
Proof.
  assert (H : leilao_10_20 [lance_de alice 110; lance_de bob 120] FINALIZADO
                (Some bob)
                ∈ _leiloes (sistema_apos (relogio_15_ate 7) amb0 chamadas_dois_lances))
    by apply list_elem_of_here.
  split; [split; [exact H|reflexivity]|].
  exact (X3_lances_ja_ordenados (relogio_15_ate 7) amb0 chamadas_dois_lances _ H
           eq_refl (relogio_fixo 30) amb0).
Defined.

(** ** Looking an auction up by name *)

Lemma py_eq_str x a : py_eq (VStr x) a = true <-> a = VStr x.
Proof.
  destruct a; cbn; try (split; [discriminate|discriminate]).
  rewrite String.eqb_eq. split; [now intros ->|now intros [= ->]].
Qed.

Lemma indice_por_nome_Some a ls i :
  Sistema.indice_por_nome a ls = Some i ->
  exists l, ls !! i = Some l /\ a = VStr (nome l)
            /\ forall j l', (j < i)%nat -> ls !! j = Some l' -> nome l' <> nome l.
Proof.
  revert i. induction ls as [|x ls IH]; intros i H; [discriminate|].
  cbn [Sistema.indice_por_nome] in H. destruct (py_eq (VStr (nome x)) a) eqn:E.
  - injection H as <-. apply py_eq_str in E. exists x.
    split; [reflexivity|]. split; [exact E|]. intros j l' Hj. lia.
  - destruct (Sistema.indice_por_nome a ls) as [k|] eqn:Ek; [|discriminate].
    cbn in H. injection H as <-. destruct (IH k eq_refl) as (l & Hl & Ha & Hprev).
    exists l. split; [exact Hl|]. split; [exact Ha|].
    intros [|j] l' Hj Hl'.
    + injection Hl' as <-. intros Hn. subst a. rewrite Hn in E.
      assert (py_eq (VStr (nome l)) (VStr (nome l)) = true)
        by now apply py_eq_str.
      congruence.
    + apply (Hprev j l'); [lia|exact Hl'].
Qed.

Lemma indice_por_nome_None a ls :
  Sistema.indice_por_nome a ls = None <-> forall l, l ∈ ls -> a <> VStr (nome l).
Proof.
  induction ls as [|x ls IH]; cbn [Sistema.indice_por_nome].
  - split; [intros _ l Hl; inversion Hl|reflexivity].
  - destruct (py_eq (VStr (nome x)) a) eqn:E.
    + split; [discriminate|]. intros H. apply py_eq_str in E.
      exfalso. apply (H x); [apply list_elem_of_here|exact E].
    + destruct (Sistema.indice_por_nome a ls) as [k|]; cbn.
      * split; [discriminate|]. intros H.
        assert (Hn : Some k = None); [|discriminate].
        apply IH. intros l Hl. apply H. now apply list_elem_of_further.
      * split; [|reflexivity]. intros _ l Hl.
        apply elem_of_cons in Hl. destruct Hl as [->|Hl].
        -- intros Ha. apply py_eq_str in Ha. congruence.
        -- now apply IH.
Qed.

Lemma indice_por_nome_nomes a ls ls' :
  nome <$> ls = nome <$> ls' ->
  Sistema.indice_por_nome a ls = Sistema.indice_por_nome a ls'.
Proof.
  revert ls'. induction ls as [|x ls IH]; intros [|y ls'] H; try discriminate;
    [reflexivity|].
  cbn in H. injection H as Hxy Hr. cbn [Sistema.indice_por_nome].
  rewrite Hxy, (IH ls' Hr). reflexivity.
Qed.

Lemma indice_por_nome_valido a ls i :
  Sistema.indice_por_nome a ls = Some i -> (i < length ls)%nat.
Proof.
  intros H. apply indice_por_nome_Some in H. destruct H as (l & Hl & _).
  now apply lookup_lt_Some in Hl.
Qed.

Lemma no_leilao_executa {A} i (m : M Leilao A) r amb s l :
  _leiloes s !! i = Some l ->
  no_leilao i m r amb s
  = (fst (m r amb l),
     {| _leiloes := <[i := snd (m r amb l)]> (_leiloes s) |}).
Proof.
  intros H. unfold no_leilao. rewrite H.
  destruct (m r amb l) as [[res amb'] l']. reflexivity.
Qed.

Lemma nomes_insert (ls : list Leilao) (i : nat) (l l' : Leilao) :
  ls !! i = Some l -> nome l' = nome l ->
  nome <$> <[i := l']> ls = nome <$> ls.
Proof.
  intros Hl Hn. rewrite list_fmap_insert, Hn.
  apply list_insert_id. now rewrite list_lookup_fmap, Hl.
Qed.

(** ** Registering an auction *)


Lemma cadastrar_leilao_executa n m i t r amb s :
  Sistema.cadastrar_leilao n m i t r amb s
  = match Sistema.indice_por_nome n (_leiloes s) with
    | Some _ =>
        (Levanta (LeilaoInvalido "Já existe um leilão com o nome dado."), amb, s)
    | None =>
        match Leilao_.__init__ n m i t r amb s with
        | (Retorna novo, amb', _) =>
            (Retorna novo, amb', {| _leiloes := _leiloes s ++ [novo] |})
        | (Levanta e, amb', _) => (Levanta e, amb', s)
        end
    end.
Proof.
  unfold Sistema.cadastrar_leilao.
  unfold liga at 1. unfold Sistema.buscar_leilao_por_nome, liga at 1, obter, ret.
  destruct (Sistema.indice_por_nome n (_leiloes s)); [reflexivity|].
  unfold liga at 1.
  pose proof (init_estado n m i t r amb s) as Hs.
  destruct (Leilao_.__init__ n m i t r amb s) as [[[l|e] amb'] s'];
    cbn in Hs; subst s'; reflexivity.
Qed.




(** What the registry refuses to register, and what it registers when the
    minimum is not a number. *)
Example X4_exemplos :
  let cadastra m i t :=
    fst (fst (Sistema.cadastrar_leilao (VStr "Item") m i t (relogio_fixo 5) amb0
                sistema_vazio)) in
  cadastra (VInt (2 ^ 1024)) (VDatetime (Ingenua 10)) (VDatetime (Ingenua 20))
  = Levanta (OverflowError "int too large to convert to float")
  /\ cadastra (VInt 100) (VDatetime (Ciente 10)) (VDatetime (Ciente 20))
     = Levanta erro_de_fuso
  /\ cadastra (VFloat FNaN) (VDatetime (Ingenua 10)) (VDatetime (Ingenua 20))
     = Retorna {| nome := "Item"; lance_minimo := FNaN;
                  data_inicio := Ingenua 10; data_termino := Ingenua 20;
                  _lances := []; _estado := INATIVO; _ganhador := None |}.
Proof. vm_compute. repeat split. Qed.

(** ** Deleting an auction *)

Lemma delete_insert_mesmo {A} (ls : list A) (i : nat) (x : A) :
  delete i (<[i := x]> ls) = delete i ls.
Proof.
  revert i. induction ls as [|y ls IH]; intros [|i]; try reflexivity.
  cbn. f_equal. apply IH.
Qed.

Lemma pode_executa r amb l :
  Leilao_.pode_ser_alterado_ou_excluido r amb l
  = (se_deriva (deriva (r (leituras amb)) l)
       (estado_eqb (_estado (derivar (r (leituras amb)) l)) INATIVO
        || estado_eqb (_estado (derivar (r (leituras amb)) l)) EXPIRADO),
     tique amb, derivar (r (leituras amb)) l).
Proof.
  unfold Leilao_.pode_ser_alterado_ou_excluido.
  erewrite liga_se_deriva by apply estado_derivar.
  now destruct (deriva _ l).
Qed.

(** After a derivation that returned a state other than INATIVO and
    EXPIRADO, the next derivation returns. *)
Lemma deriva_de_novo t t' l :
  deriva t l = true ->
  estado_eqb (_estado (derivar t l)) INATIVO
  || estado_eqb (_estado (derivar t l)) EXPIRADO = false ->
  deriva t' (derivar t l) = true.
Proof.
  intros Hd He. destruct (_estado (derivar t l)) eqn:E; try discriminate.
  - apply deriva_ingenuas. rewrite derivar_datas_ingenuas.
    eapply aberto_ingenuas; eauto.
  - now apply deriva_finalizado.
Qed.

Lemma sistema_insert_id (s : SistemaLeiloes) i l :
  _leiloes s !! i = Some l -> {| _leiloes := <[i := l]> (_leiloes s) |} = s.
Proof. intros H. destruct s as [ls]. cbn in *. now rewrite list_insert_id. Qed.

Lemma excluir_leilao_executa alvo r amb s i l :
  Sistema.indice_por_nome alvo (_leiloes s) = Some i ->
  _leiloes s !! i = Some l ->
  let l1 := derivar (r (leituras amb)) l in
  let l2 := derivar (r (Datatypes.S (leituras amb))) l1 in
  Sistema.excluir_leilao alvo r amb s
  = if negb (deriva (r (leituras amb)) l) then
      (Levanta erro_de_fuso, tique amb, s)
    else if estado_eqb (_estado l1) INATIVO || estado_eqb (_estado l1) EXPIRADO then
      (Retorna tt, tique amb, {| _leiloes := delete i (_leiloes s) |})
    else
      (Levanta (LeilaoInvalido (Sistema.msg_nao_excluivel (nome l) (_estado l2))),
       tique (tique amb), {| _leiloes := <[i := l2]> (_leiloes s) |}).
Proof.
  intros Hi Hl l1 l2. unfold Sistema.excluir_leilao.
  unfold liga at 1. unfold Sistema.buscar_leilao_por_nome, liga at 1, obter at 1, ret.
  rewrite Hi.
  pose proof (lookup_lt_Some _ _ _ Hl) as Hlt.
  unfold liga at 1. rewrite (no_leilao_executa i _ r amb s l Hl), pode_executa.
  cbn [fst snd]. fold l1.
  destruct (deriva (r (leituras amb)) l) eqn:D1; cbn [negb se_deriva].
  2:{ unfold l1. rewrite derivar_levanta by exact D1.
      now rewrite sistema_insert_id. }
  destruct (estado_eqb (_estado l1) INATIVO || estado_eqb (_estado l1) EXPIRADO)
    eqn:Ep; cbn [negb].
  - unfold modificar. cbn [_leiloes]. now rewrite delete_insert_mesmo.
  - unfold liga at 1.
    rewrite (no_leilao_executa i obter r (tique amb) _ l1)
      by (cbn [_leiloes]; now apply list_lookup_insert_eq).
    cbn [fst snd obter _leiloes]. rewrite list_insert_insert_eq.
    unfold liga at 1.
    rewrite (no_leilao_executa i Leilao_.estado r (tique amb) _ l1)
      by (cbn [_leiloes]; now apply list_lookup_insert_eq).
    rewrite estado_derivar. cbn [fst snd _leiloes tique leituras].
    rewrite (deriva_de_novo _ _ _ D1 Ep). cbn [se_deriva].
    rewrite list_insert_insert_eq. fold l2.
    unfold levanta. unfold l1 at 1. now rewrite derivar_nome.
Qed.

Lemma delete_sem_o_nome (ls : list Leilao) (i : nat) (l : Leilao) :
  NoDup (nome <$> ls) -> ls !! i = Some l ->
  Sistema.indice_por_nome (VStr (nome l)) (delete i ls) = None.
Proof.
  intros Hnd Hl. apply indice_por_nome_None. intros l' Hin Heq.
  injection Heq as Heq.
  apply list_elem_of_lookup in Hin. destruct Hin as [j Hj].
  rewrite list_lookup_delete in Hj.
  set (j' := if decide (j < i)%nat is left _ then j else Datatypes.S j) in Hj.
  assert (Hne : j' <> i) by (unfold j'; destruct (decide (j < i)%nat); lia).
  apply Hne.
  apply (NoDup_lookup (nome <$> ls) j' i (nome l) Hnd).
  - rewrite list_lookup_fmap, Hj. cbn. now rewrite Heq.
  - now rewrite list_lookup_fmap, Hl.
Qed.

(** X5. [excluir_leilao] raises LeilaoInvalido, leaving the registry
    untouched, when no auction has the name.  Otherwise it derives the state
    of the first auction of that name: if that state is INATIVO or EXPIRADO
    the auction, and nothing else, is removed from the registry (and, names
    being distinct, the name is no longer found); if not it raises
    LeilaoInvalido and the registry keeps all its auctions, the named one
    with its state derived anew and its name, dates, minimum and log as they
    were.  When the derivation itself raises, for an aware date, the call
    raises that TypeError and the registry is untouched. *)
Theorem X5_excluir_leilao (alvo : Valor) (r : Relogio) (amb : Ambiente)
  (s : SistemaLeiloes) :
  (Sistema.indice_por_nome alvo (_leiloes s) = None ->
     exists msg,
       Sistema.excluir_leilao alvo r amb s = (Levanta (LeilaoInvalido msg), amb, s))
  /\ (forall i l,
        Sistema.indice_por_nome alvo (_leiloes s) = Some i ->
        _leiloes s !! i = Some l ->
        let l1 := derivar (r (leituras amb)) l in
        (deriva (r (leituras amb)) l = true ->
         (_estado l1 = INATIVO \/ _estado l1 = EXPIRADO ->
            Sistema.excluir_leilao alvo r amb s
            = (Retorna tt, tique amb, {| _leiloes := delete i (_leiloes s) |})
            /\ (NoDup (nome <$> _leiloes s) ->
                Sistema.indice_por_nome alvo (delete i (_leiloes s)) = None))
         /\ (_estado l1 <> INATIVO -> _estado l1 <> EXPIRADO ->
             exists msg l2,
               Sistema.excluir_leilao alvo r amb s
               = (Levanta (LeilaoInvalido msg), tique (tique amb),
                  {| _leiloes := <[i := l2]> (_leiloes s) |})
               /\ nome l2 = nome l /\ lance_minimo l2 = lance_minimo l
               /\ data_inicio l2 = data_inicio l
               /\ data_termino l2 = data_termino l
               /\ _lances l2 = _lances l))
        /\ (datas_ingenuas l = true -> deriva (r (leituras amb)) l = true)
        /\ (deriva (r (leituras amb)) l = false ->
            Sistema.excluir_leilao alvo r amb s
            = (Levanta erro_de_fuso, tique amb, s))).
Proof.
  split.
  - intros Hn. unfold Sistema.excluir_leilao.
    unfold liga at 1. unfold Sistema.buscar_leilao_por_nome, liga at 1, obter, ret.
    rewrite Hn. eexists. reflexivity.
  - intros i l Hi Hl l1. rewrite (excluir_leilao_executa alvo r amb s i l Hi Hl).
    cbv zeta. fold l1. split; [|split].
    + intros Hd. rewrite Hd. cbn [negb]. split.
      * intros Hpode.
        assert (E : estado_eqb (_estado l1) INATIVO
                    || estado_eqb (_estado l1) EXPIRADO = true)
          by (destruct Hpode as [-> | ->]; reflexivity).
        rewrite E. split; [reflexivity|]. intros Hnd.
        destruct (indice_por_nome_Some alvo _ i Hi) as (l' & Hl' & -> & _).
        rewrite Hl in Hl'. injection Hl' as <-.
        now apply delete_sem_o_nome.
      * intros H1 H2.
        destruct (estado_eqb_spec (_estado l1) INATIVO) as [|_]; [contradiction|].
        destruct (estado_eqb_spec (_estado l1) EXPIRADO) as [|_]; [contradiction|].
        cbn [orb]. eexists _, _. split; [reflexivity|].
        destruct (derivar_campos (r (Datatypes.S (leituras amb))) l1)
          as (-> & -> & -> & -> & ->).
        apply derivar_campos.
    + apply deriva_ingenuas.
    + intros Hd. now rewrite Hd.
Qed.

(** ** Altering an auction *)

Lemma mesmos_campos_derivar t l : mesmos_campos l (derivar t l).
Proof. apply derivar_campos. Qed.

Lemma mesmos_campos_trans l1 l2 l3 :
  mesmos_campos l1 l2 -> mesmos_campos l2 l3 -> mesmos_campos l1 l3.
Proof.
  intros (A1 & A2 & A3 & A4 & A5) (B1 & B2 & B3 & B4 & B5).
  repeat split; congruence.
Qed.

Lemma mesmos_campos_refl l : mesmos_campos l l.
Proof. repeat split. Qed.

Lemma alterar_leilao_nao_achado a n m i t r amb s :
  Sistema.indice_por_nome a (_leiloes s) = None ->
  Sistema.alterar_leilao a n m i t r amb s
  = (Levanta (LeilaoInvalido "Leilão não encontrado."), amb, s).
Proof.
  intros Hn. unfold Sistema.alterar_leilao.
  unfold liga at 1. unfold Sistema.buscar_leilao_por_nome, liga at 1, obter, ret.
  now rewrite Hn.
Qed.

(** What [alterar_leilao] does to the auction it finds.  Either it raises
    with the fields as they were; or the checks passed and the name was
    assigned, after which either [float] raises OverflowError, leaving the
    other fields as they were, or the three other fields are assigned too
    and the call ends as the state derivation does: it returns on naive
    dates and raises TypeError on aware ones. *)
Lemma alterar_leilao_casos a n m i t r amb s idx l :
  Sistema.indice_por_nome a (_leiloes s) = Some idx ->
  _leiloes s !! idx = Some l ->
  let l1 := derivar (r (leituras amb)) l in
  let tm := ou_atual m (VFloat (lance_minimo l)) in
  exists res amb' l',
    Sistema.alterar_leilao a n m i t r amb s
    = (res, amb', {| _leiloes := <[idx := l']> (_leiloes s) |})
    /\ ((exists e, res = Levanta e /\ mesmos_campos l l')
        \/ ((_estado l1 = INATIVO \/ _estado l1 = EXPIRADO)
            /\ (n = VNone \/ n = a
                \/ Sistema.indice_por_nome n (_leiloes s) = None)
            /\ ou_atual n (VStr (nome l)) = VStr (nome l')
            /\ nome l' <> ""%string
            /\ _lances l' = _lances l
            /\ isinstance_int_float tm = true /\ py_le_0 tm = false
            /\ exists di dt,
                 ou_atual i (VDatetime (data_inicio l)) = VDatetime di
                 /\ ou_atual t (VDatetime (data_termino l)) = VDatetime dt
                 /\ dh_antes di dt
                 /\ ((res = Levanta (OverflowError "int too large to convert to float")
                      /\ amb' = tique amb
                      /\ (exists z, tm = VInt z /\ float_de_int z = None)
                      /\ l' = com_nome (nome l') l1)
                     \/ (float_de tm = Retorna (lance_minimo l')
                         /\ data_inicio l' = di /\ data_termino l' = dt
                         /\ amb' = tique (tique amb)
                         /\ res = se_deriva (datas_ingenuas l') tt
                         /\ (datas_ingenuas l' = false -> _estado l' = _estado l1))))).
Proof.
  intros Hi Hl l1 tm. unfold Sistema.alterar_leilao.
  unfold liga at 1. unfold Sistema.buscar_leilao_por_nome at 1, liga at 1, obter at 1, ret at 1.
  rewrite Hi.
  pose proof (lookup_lt_Some _ _ _ Hl) as Hlt.
  unfold liga at 1. rewrite (no_leilao_executa idx _ r amb s l Hl), pode_executa.
  cbn [fst snd]. fold l1.
  destruct (deriva (r (leituras amb)) l) eqn:D1; cbn [se_deriva].
  2:{ eexists _, _, _. split; [reflexivity|]. left. eexists.
      split; [reflexivity|apply mesmos_campos_derivar]. }
  assert (Hl1 : <[idx := l1]> (_leiloes s) !! idx = Some l1)
    by now apply list_lookup_insert_eq.
  destruct (estado_eqb (_estado l1) INATIVO || estado_eqb (_estado l1) EXPIRADO)
    eqn:Epode; cbn [negb].
  2:{ unfold liga at 1.
      rewrite (no_leilao_executa idx obter r (tique amb) _ l1) by exact Hl1.
      cbn [fst snd obter _leiloes]. rewrite list_insert_insert_eq.
      unfold liga at 1.
      rewrite (no_leilao_executa idx Leilao_.estado r (tique amb) _ l1) by exact Hl1.
      rewrite estado_derivar. cbn [fst snd _leiloes tique leituras].
      rewrite list_insert_insert_eq.
      rewrite (deriva_de_novo _ _ _ D1 Epode). cbn [se_deriva].
      eexists _, _, _. split; [reflexivity|]. left. eexists. split; [reflexivity|].
      eapply mesmos_campos_trans; apply mesmos_campos_derivar. }
  assert (Hpode : _estado l1 = INATIVO \/ _estado l1 = EXPIRADO).
  { destruct (_estado l1); cbn in Epode; try discriminate; auto. }
  assert (Hnomes : nome <$> <[idx := l1]> (_leiloes s) = nome <$> _leiloes s)
    by (apply (nomes_insert _ _ l); [exact Hl|apply derivar_nome]).
  unfold liga at 1.
  set (busca := if negb (is_None n) && negb (py_eq n a)
                then Sistema.buscar_leilao_por_nome n else ret None).
  assert (Hbusca : busca r (tique amb) {| _leiloes := <[idx := l1]> (_leiloes s) |}
                   = (Retorna (if negb (is_None n) && negb (py_eq n a)
                               then Sistema.indice_por_nome n (_leiloes s)
                               else None),
                      tique amb, {| _leiloes := <[idx := l1]> (_leiloes s) |})).
  { unfold busca. destruct (negb (is_None n) && negb (py_eq n a)); [|reflexivity].
    unfold Sistema.buscar_leilao_por_nome, liga, obter, ret. cbn [_leiloes].
    now rewrite (indice_por_nome_nomes n _ _ Hnomes). }
  rewrite Hbusca. clear Hbusca busca.
  destruct (if negb (is_None n) && negb (py_eq n a)
            then Sistema.indice_por_nome n (_leiloes s) else None) as [dup|] eqn:Edup.
  { eexists _, _, _. split; [reflexivity|]. left. eexists. split; [reflexivity|].
    apply mesmos_campos_derivar. }
  assert (Hunico : n = VNone \/ n = a
                   \/ Sistema.indice_por_nome n (_leiloes s) = None).
  { destruct (is_None n) eqn:En; [left; now destruct n|].
    destruct (py_eq n a) eqn:Eq; cbn in Edup; [|auto].
    right. left.
    destruct (indice_por_nome_Some a _ idx Hi) as (l0 & _ & -> & _).
    destruct n; cbn in Eq; try discriminate.
    apply String.eqb_eq in Eq. now subst. }
  unfold liga at 1.
  rewrite (no_leilao_executa idx obter r (tique amb) _ l1) by exact Hl1.
  cbn [fst snd obter _leiloes]. rewrite list_insert_insert_eq. cbv zeta.
  destruct (derivar_campos (r (leituras amb)) l) as (N1 & N2 & N3 & N4 & N5).
  fold l1 in N1, N2, N3, N4, N5. rewrite N1, N2, N3, N4.
  fold (ou_atual n (VStr (nome l))).
  fold (ou_atual m (VFloat (lance_minimo l))).
  fold (ou_atual i (VDatetime (data_inicio l))).
  fold (ou_atual t (VDatetime (data_termino l))).
  fold tm.
  set (tn := ou_atual n (VStr (nome l))).
  set (ti := ou_atual i (VDatetime (data_inicio l))).
  set (tf := ou_atual t (VDatetime (data_termino l))).
  clearbody tn tm ti tf.
  destruct (negb (truthy tn) || negb (isinstance_str tn)) eqn:E1;
    [eexists _, _, _; split; [reflexivity|]; left; eexists;
     split; [reflexivity|apply mesmos_campos_derivar]|].
  destruct (negb (isinstance_int_float tm) || py_le_0 tm) eqn:E2;
    [eexists _, _, _; split; [reflexivity|]; left; eexists;
     split; [reflexivity|apply mesmos_campos_derivar]|].
  destruct (negb (isinstance_datetime ti) || negb (isinstance_datetime tf)) eqn:E3;
    [eexists _, _, _; split; [reflexivity|]; left; eexists;
     split; [reflexivity|apply mesmos_campos_derivar]|].
  apply orb_false_iff in E1, E2, E3.
  destruct E1 as [T1 I1], E2 as [I2 L2], E3 as [D1' D2'].
  apply negb_false_iff in I2.
  destruct tn as [| | | |nn| |]; try discriminate.
  destruct ti as [| | | | |x|]; try discriminate.
  destruct tf as [| | | | |y|]; try discriminate.
  cbn in T1. destruct (String.eqb_spec nn "") as [|Hne]; [discriminate|].
  unfold dh_ge. destruct (dh_compara Z.geb x y) as [[|]|] eqn:E4;
    [eexists _, _, _; split; [reflexivity|]; left; eexists;
     split; [reflexivity|apply mesmos_campos_derivar]
    |
    |eexists _, _, _; split; [reflexivity|]; left; eexists;
     split; [reflexivity|apply mesmos_campos_derivar]].
  apply dh_ge_antes in E4.
  erewrite liga_retorna by reflexivity. cbv beta iota.
  rewrite (no_leilao_modificar_liga _ _ _ _ _ _ l1) by exact Hl1.
  cbn [_leiloes]. rewrite list_insert_insert_eq.
  unfold liga at 1, py_float.
  destruct (float_de tm) as [q|e] eqn:Ef.
  - rewrite (alterar_campos_eq _ _ _ _ _ _ _ (com_nome nn l1))
      by (cbn [_leiloes]; now apply list_lookup_insert_eq).
    cbv zeta. cbn [_leiloes tique leituras]. rewrite list_insert_insert_eq.
    set (l'' := com_data_termino y (com_data_inicio x
                  (com_lance_minimo q (com_nome nn l1)))).
    assert (Hnf : estado_eqb (_estado l'') FINALIZADO = false)
      by (cbn; destruct Hpode as [-> | ->]; reflexivity).
    assert (Hdv : deriva (r (Datatypes.S (leituras amb))) l'' = datas_ingenuas l'')
      by (rewrite deriva_comparaveis by exact E4; now rewrite Hnf).
    eexists _, _, _. split; [reflexivity|]. right.
    rewrite derivar_nome, derivar_lance_minimo, derivar_lances,
      derivar_data_inicio, derivar_data_termino, derivar_datas_ingenuas, Hdv.
    cbn [nome lance_minimo data_inicio data_termino _lances l'' com_data_termino
         com_data_inicio com_lance_minimo com_nome].
    split; [exact Hpode|]. split; [exact Hunico|]. split; [reflexivity|].
    split; [exact Hne|]. split; [exact N5|]. split; [exact I2|].
    split; [exact L2|]. exists x, y. split; [reflexivity|].
    split; [reflexivity|]. split; [exact E4|]. right.
    repeat split.
    intros Hd. rewrite derivar_levanta by (now rewrite Hdv). reflexivity.
  - eexists _, _, _. split; [reflexivity|]. right.
    cbn [nome _lances com_nome].
    split; [exact Hpode|]. split; [exact Hunico|]. split; [reflexivity|].
    split; [exact Hne|]. split; [exact N5|]. split; [exact I2|].
    split; [exact L2|]. exists x, y. split; [reflexivity|].
    split; [reflexivity|]. split; [exact E4|]. left.
    destruct tm; cbn in I2, Ef; try discriminate.
    destruct (float_de_int z) eqn:Ez; [discriminate|]. injection Ef as <-.
    split; [reflexivity|]. split; [reflexivity|]. split; [eauto|reflexivity].
Qed.

Lemma Forall2_mesmos_campos_insert (ls : list Leilao) (idx : nat) (l l' : Leilao) :
  ls !! idx = Some l -> mesmos_campos l l' ->
  Forall2 mesmos_campos ls (<[idx := l']> ls).
Proof.
  intros Hl Hm. rewrite <- (list_insert_id ls idx l Hl) at 1.
  apply Forall2_insert; [|exact Hm].
  apply Forall2_same_length_lookup_2; [reflexivity|].
  intros j x y Hx Hy. rewrite Hx in Hy. injection Hy as <-.
  apply mesmos_campos_refl.
Qed.

(** The new name is the old one or the name of no registered auction. *)
Lemma novo_nome_livre a n s idx l nn :
  Sistema.indice_por_nome a (_leiloes s) = Some idx ->
  _leiloes s !! idx = Some l ->
  (n = VNone \/ n = a \/ Sistema.indice_por_nome n (_leiloes s) = None) ->
  ou_atual n (VStr (nome l)) = VStr nn ->
  nn = nome l \/ forall x, x ∈ _leiloes s -> nome x <> nn.
Proof.
  intros Hi Hl Hun Hn.
  destruct (indice_por_nome_Some a _ idx Hi) as (l0 & Hl0 & Ha & _).
  rewrite Hl in Hl0. injection Hl0 as <-.
  unfold ou_atual in Hn. destruct Hun as [->|[->|Hnone]].
  - cbn in Hn. left. now injection Hn as <-.
  - subst a. cbn in Hn. left. now injection Hn as <-.
  - destruct (is_None n) eqn:En; cbn in Hn.
    + left. now injection Hn as <-.
    + right. subst n. intros x Hx Hnx.
      apply (proj1 (indice_por_nome_None _ _) Hnone x Hx).
      now rewrite Hnx.
Qed.

(** X6. [alterar_leilao] validates before it assigns, but is not all or
    nothing.  When it returns, only the first auction named [nome_atual]
    changed: each field for which an argument other than [None] was given
    holds that argument, the minimum as [float] converts it, the others and
    the log are kept, the new name is non-empty, the new dates are naive, the
    new start before the new end, and the new name is the old one or the name
    of no auction of the registry.  When it raises, every registered auction
    keeps its name, minimum bid, dates and log, with two exceptions: when
    [float] raises OverflowError on the new minimum the auction has already
    been renamed; and when the new dates are aware the four fields have been
    assigned before the state derivation raises TypeError. *)
Theorem X6_alterar_leilao
  (a n m i t : Valor) (r : Relogio) (amb : Ambiente) (s : SistemaLeiloes) :
  match Sistema.alterar_leilao a n m i t r amb s with
  | (Retorna _, amb', s') =>
      exists idx l l',
        Sistema.indice_por_nome a (_leiloes s) = Some idx
        /\ _leiloes s !! idx = Some l
        /\ _leiloes s' = <[idx := l']> (_leiloes s)
        /\ ou_atual n (VStr (nome l)) = VStr (nome l')
        /\ float_de (ou_atual m (VFloat (lance_minimo l)))
           = Retorna (lance_minimo l')
        /\ py_le_0 (ou_atual m (VFloat (lance_minimo l))) = false
        /\ ou_atual i (VDatetime (data_inicio l)) = VDatetime (data_inicio l')
        /\ ou_atual t (VDatetime (data_termino l)) = VDatetime (data_termino l')
        /\ _lances l' = _lances l
        /\ nome l' <> ""%string
        /\ datas_ingenuas l' = true
        /\ dh_antes (data_inicio l') (data_termino l')
        /\ (nome l' = nome l
            \/ forall x, x ∈ _leiloes s -> nome x <> nome l')
  | (Levanta e, _, s') =>
      Forall2 mesmos_campos (_leiloes s) (_leiloes s')
      \/ exists idx l l',
           Sistema.indice_por_nome a (_leiloes s) = Some idx
           /\ _leiloes s !! idx = Some l
           /\ _leiloes s' = <[idx := l']> (_leiloes s)
           /\ ou_atual n (VStr (nome l)) = VStr (nome l')
           /\ _lances l' = _lances l
           /\ (nome l' = nome l
               \/ forall x, x ∈ _leiloes s -> nome x <> nome l')
           /\ ((e = OverflowError "int too large to convert to float"
                /\ (exists z, ou_atual m (VFloat (lance_minimo l)) = VInt z
                              /\ float_de_int z = None)
                /\ lance_minimo l' = lance_minimo l
                /\ data_inicio l' = data_inicio l
                /\ data_termino l' = data_termino l)
               \/ (e = erro_de_fuso
                   /\ float_de (ou_atual m (VFloat (lance_minimo l)))
                      = Retorna (lance_minimo l')
                   /\ ou_atual i (VDatetime (data_inicio l))
                      = VDatetime (data_inicio l')
                   /\ ou_atual t (VDatetime (data_termino l))
                      = VDatetime (data_termino l')
                   /\ datas_ingenuas l' = false
                   /\ dh_antes (data_inicio l') (data_termino l')))
  end.
Proof.
  destruct (Sistema.indice_por_nome a (_leiloes s)) as [idx|] eqn:Hi.
  2:{ rewrite (alterar_leilao_nao_achado a n m i t r amb s Hi). left.
      apply Forall2_same_length_lookup_2; [reflexivity|].
      intros j x y Hx Hy. rewrite Hx in Hy. injection Hy as <-.
      apply mesmos_campos_refl. }
  destruct (indice_por_nome_Some a _ idx Hi) as (l & Hl & Ha & _).
  destruct (alterar_leilao_casos a n m i t r amb s idx l Hi Hl)
    as (res & amb' & l' & -> & [(e & -> & Hm)|H]).
  - left. cbn [_leiloes]. now apply (Forall2_mesmos_campos_insert _ idx l).
  - destruct H as (_ & Hun & Hn & Hne & Hlog & Hi2 & Hle & di & dt & Hdi & Hdt
                   & Hant & Hfim).
    pose proof (novo_nome_livre a n s idx l (nome l') Hi Hl Hun Hn) as Hlivre.
    destruct Hfim as [(-> & _ & Hz & Hl')|(Hq & <- & <- & _ & -> & _)].
    + right. exists idx, l, l'. repeat (split; [assumption || reflexivity|]).
      left. split; [reflexivity|]. split; [exact Hz|].
      rewrite Hl'. cbn [lance_minimo data_inicio data_termino com_nome].
      now rewrite derivar_lance_minimo, derivar_data_inicio, derivar_data_termino.
    + destruct (datas_ingenuas l') eqn:Hd; cbn [se_deriva].
      * exists idx, l, l'. repeat (split; [assumption || reflexivity|]).
        exact Hlivre.
      * right. exists idx, l, l'. repeat (split; [assumption || reflexivity|]).
        right. repeat (split; [assumption || reflexivity|]). exact Hant.
Qed.

(** The two partial alterations, on the registry of one auction named
    Console with minimum 100 and window 10..20: an [int] beyond the range of
    [float] leaves the auction renamed; aware dates leave all four fields
    assigned, and the call raises TypeError. *)
Example X6_alteracoes_parciais :
  let s := {| _leiloes := [leilao_10_20 [] INATIVO None] |} in
  Sistema.alterar_leilao (VStr "Console") (VStr "Novo") (VInt (2 ^ 1024)) VNone VNone
    (relogio_fixo 5) amb0 s
  = (Levanta (OverflowError "int too large to convert to float"), tique amb0,
     {| _leiloes :=
          [ {| nome := "Novo"; lance_minimo := FFin 100;
               data_inicio := Ingenua 10; data_termino := Ingenua 20;
               _lances := []; _estado := INATIVO; _ganhador := None |} ] |})
  /\ Sistema.alterar_leilao (VStr "Console") (VStr "Novo") (VInt 200)
       (VDatetime (Ciente 30)) (VDatetime (Ciente 40)) (relogio_fixo 5) amb0 s
     = (Levanta erro_de_fuso, tique (tique amb0),
        {| _leiloes :=
             [ {| nome := "Novo"; lance_minimo := FFin (inject_Z 200);
                  data_inicio := Ciente 30; data_termino := Ciente 40;
                  _lances := []; _estado := INATIVO; _ganhador := None |} ] |}).
Proof. split; vm_compute; reflexivity. Qed.

(** ** Names are unique within a registry *)

Lemma NoDup_insert_novo (ns : list string) (idx : nat) (x : string) :
  NoDup ns -> x ∉ ns -> NoDup (<[idx := x]> ns).
Proof.
  intros Hnd Hx. apply NoDup_alt. intros j k y Hj Hk.
  apply list_lookup_insert_Some in Hj, Hk.
  destruct Hj as [(-> & -> & Hlj)|(Hnj & Hj)], Hk as [(-> & Hxy & Hlk)|(Hnk & Hk)].
  - reflexivity.
  - exfalso. apply Hx. eapply list_elem_of_lookup_2; eauto.
  - subst y. exfalso. apply Hx. eapply list_elem_of_lookup_2; eauto.
  - eapply NoDup_lookup; eauto.
Qed.

Lemma nome_fora_dos_nomes (ls : list Leilao) (x : string) :
  (forall l, l ∈ ls -> nome l <> x) -> x ∉ nome <$> ls.
Proof.
  intros H Hin. apply list_elem_of_fmap in Hin. destruct Hin as (l & -> & Hl).
  now apply (H l).
Qed.

Lemma invocar_nome m r amb l : nome (snd (invocar m r amb l)) = nome l.
Proof.
  apply (preserva_invocar (fun x => nome x = nome l)).
  - intros t x H. now rewrite derivar_nome.
  - intros x b H _ _. exact H.
  - reflexivity.
Qed.

Lemma chamar_nomes_distintos c :
  preserva (fun s => NoDup (nome <$> _leiloes s)) (chamar c).
Proof.
  intros r amb s Hnd. destruct c as [n m i t|a n m i t|alvo|idx m]; cbn [chamar].
  - unfold tentar. rewrite cadastrar_leilao_executa.
    destruct (Sistema.indice_por_nome n (_leiloes s)) eqn:Hi; [exact Hnd|].
    destruct (Leilao_.__init__ n m i t r amb s) as [[[novo|e] amb'] s'] eqn:E;
      [|exact Hnd].
    apply init_resultado in E.
    destruct E as (nm & q & ti & tf & (-> & _) & -> & _).
    cbn [snd _leiloes]. rewrite fmap_app. cbn [fmap list_fmap].
    rewrite derivar_nome. cbn [nome].
    apply NoDup_app. split; [exact Hnd|]. split; [|apply NoDup_singleton].
    intros x Hx Hin. apply list_elem_of_singleton in Hin. subst x.
    apply list_elem_of_fmap in Hx. destruct Hx as (l & Hl & Hin).
    apply (proj1 (indice_por_nome_None _ _) Hi l Hin). congruence.
  - destruct (Sistema.indice_por_nome a (_leiloes s)) as [idx|] eqn:Hi;
      [|now rewrite (alterar_leilao_nao_achado a n m i t r amb s Hi)].
    destruct (indice_por_nome_Some a _ idx Hi) as (l & Hl & Ha & _).
    destruct (alterar_leilao_casos a n m i t r amb s idx l Hi Hl)
      as (res & amb' & l' & -> & [(e & -> & Hm)|H]); cbn [snd _leiloes].
    + rewrite (nomes_insert _ idx l l' Hl); [exact Hnd|apply Hm].
    + destruct H as (_ & Hun & Hn & _).
      destruct (novo_nome_livre a n s idx l (nome l') Hi Hl Hun Hn)
        as [Hmesmo|Hnovo].
      * rewrite (nomes_insert _ idx l l' Hl Hmesmo). exact Hnd.
      * rewrite list_fmap_insert. apply NoDup_insert_novo; [exact Hnd|].
        now apply nome_fora_dos_nomes.
  - destruct (Sistema.indice_por_nome alvo (_leiloes s)) as [idx|] eqn:Hi.
    + destruct (indice_por_nome_Some alvo _ idx Hi) as (l & Hl & _).
      rewrite (excluir_leilao_executa alvo r amb s idx l Hi Hl). cbv zeta.
      destruct (negb _); [exact Hnd|].
      destruct (_ || _); cbn [snd _leiloes].
      * rewrite list_fmap_delete.
        eapply sublist_NoDup; [exact Hnd|apply sublist_delete].
      * rewrite (nomes_insert _ idx l _ Hl); [exact Hnd|].
        now rewrite !derivar_nome.
    + unfold Sistema.excluir_leilao.
      unfold liga at 1.
      unfold Sistema.buscar_leilao_por_nome, liga at 1, obter, ret.
      now rewrite Hi.
  - unfold no_leilao. destruct (_leiloes s !! idx) as [l|] eqn:Hl; [|exact Hnd].
    pose proof (invocar_nome m r amb l) as Hn.
    destruct (invocar m r amb l) as [[res amb'] l']. cbn in Hn |- *.
    now rewrite (nomes_insert _ idx l l' Hl Hn).
Qed.

(** X7. In every registry reached by calls of the interface no two auctions
    have the same name, so a search by name designates at most one
    auction. *)
Theorem X7_nomes_distintos (r : Relogio) (amb : Ambiente) (cs : list Chamada) :
  NoDup (nome <$> _leiloes (sistema_apos r amb cs))
  /\ forall i j li lj,
       _leiloes (sistema_apos r amb cs) !! i = Some li ->
       _leiloes (sistema_apos r amb cs) !! j = Some lj ->
       nome li = nome lj -> i = j.
Proof.
  assert (Hnd : NoDup (nome <$> _leiloes (sistema_apos r amb cs))).
  { unfold sistema_apos.
    assert (H : forall cs', preserva (fun s => NoDup (nome <$> _leiloes s))
                              (chamar_todas cs')).
    { induction cs' as [|c cs' IH]; cbn [chamar_todas].
      - apply preserva_ret.
      - apply preserva_liga; [|intros _; exact IH].
        apply preserva_tentar, chamar_nomes_distintos. }
    apply H. constructor. }
  split; [exact Hnd|].
  intros i j li lj Hi Hj Hn.
  apply (NoDup_lookup _ i j (nome li) Hnd).
  - now rewrite list_lookup_fmap, Hi.
  - now rewrite list_lookup_fmap, Hj, Hn.
Qed.

(** ** Notifying the winner *)

Lemma maior_lance_executa r amb l :
  Leilao_.maior_lance r amb l
  = (Retorna (match _lances l with
              | [] => None
              | x :: resto => Some (max_desde valor x resto)
              end), amb, l).
Proof.
  unfold Leilao_.maior_lance, liga, obter, ret.
  now destruct (_lances l).
Qed.

(** With comparable dates, an auction that is not FINALIZADO has its state
    derived exactly when its dates are naive. *)
Lemma deriva_nao_finalizado t l :
  leilao_ok l -> _estado l <> FINALIZADO -> deriva t l = datas_ingenuas l.
Proof.
  intros [Hd _ _ _] Hnf. rewrite deriva_comparaveis by exact Hd.
  now destruct (estado_eqb_spec (_estado l) FINALIZADO).
Qed.

Lemma notificar_ganhador_finalizado n r amb s idx l :
  Sistema.indice_por_nome n (_leiloes s) = Some idx ->
  _leiloes s !! idx = Some l ->
  leilao_ok l ->
  let l1 := derivar (r (leituras amb)) l in
  _estado l1 = FINALIZADO ->
  exists u,
    u ∈ _lances l
    /\ Leilao_.maior_lance r amb l = (Retorna (Some u), amb, l)
    /\ (so_numeros valor (_lances l) = true -> last (_lances l) = Some u)
    /\ notificar_ganhador n r amb s
       = (Retorna (true,
                   Some (EmailGanhador (email (participante u))
                           (nome_p (participante u)) (nome l) (valor u)
                           (data_termino l))),
          tique amb, {| _leiloes := <[idx := l1]> (_leiloes s) |}).
Proof.
  intros Hi Hl Hok l1 Hf.
  pose proof (derivar_ok (r (leituras amb)) l Hok) as Hok1. fold l1 in Hok1.
  destruct Hok1 as [_ Hc Hfin _].
  destruct (Hfin Hf) as (x & rest & El & Eg).
  pose proof (lookup_lt_Some _ _ _ Hl) as Hlt.
  assert (Hl1 : <[idx := l1]> (_leiloes s) !! idx = Some l1)
    by now apply list_lookup_insert_eq.
  assert (El0 : _lances l = x :: rest)
    by (unfold l1 in El; now rewrite derivar_lances in El).
  exists (max_desde valor x rest).
  split; [rewrite El0; apply max_desde_elemento|].
  split; [now rewrite maior_lance_executa, El0|].
  split.
  { intros Hn. rewrite El0. apply crescente_max_ultimo. rewrite <- El0.
    apply acima_crescente; [exact Hn|apply Hok]. }
  unfold notificar_ganhador.
  unfold liga at 1. unfold Sistema.buscar_leilao_por_nome, liga at 1, obter at 1, ret at 1.
  rewrite Hi. unfold liga at 1.
  rewrite (no_leilao_executa idx _ r amb s l Hl), ganhador_derivar.
  cbn [fst snd]. fold l1. rewrite (finalizado_deriva _ _ Hf), Hf, Eg.
  cbn [estado_eqb se_deriva].
  unfold liga at 1.
  rewrite (no_leilao_executa idx _ r (tique amb) _ l1) by exact Hl1.
  rewrite maior_lance_executa, El.
  cbn [fst snd _leiloes]. rewrite list_insert_insert_eq.
  unfold liga at 1.
  rewrite (no_leilao_executa idx obter r (tique amb) _ l1) by exact Hl1.
  cbn [fst snd obter _leiloes]. rewrite list_insert_insert_eq.
  unfold ret. unfold l1 at 1 2. rewrite derivar_nome.
  destruct (derivar_campos (r (leituras amb)) l) as (_ & _ & _ & -> & _).
  reflexivity.
Qed.

Lemma notificar_ganhador_nao_finalizado n r amb s idx l :
  Sistema.indice_por_nome n (_leiloes s) = Some idx ->
  _leiloes s !! idx = Some l ->
  datas_ingenuas l = true ->
  let k := leituras amb in
  let l1 := derivar (r k) l in
  _estado l1 <> FINALIZADO ->
  exists imp amb' l',
    notificar_ganhador n r amb s
    = (Retorna (false, imp), amb', {| _leiloes := <[idx := l']> (_leiloes s) |})
    /\ (imp = Some AvisoSemGanhador \/ imp = None
        \/ exists e, imp = Some (InfoNaoFinalizado e))
    /\ (r (Datatypes.S k) = r k ->
        r (Datatypes.S (Datatypes.S k)) = r k ->
        r (Datatypes.S (Datatypes.S (Datatypes.S k))) = r k ->
        imp = Some (InfoNaoFinalizado (_estado l1)) /\ l' = l1
        /\ amb' = tique (tique (tique (tique amb)))).
Proof.
  intros Hi Hl Hd k l1 Hnf.
  pose proof (lookup_lt_Some _ _ _ Hl) as Hlt.
  assert (Hins : forall x : Leilao, <[idx := x]> (_leiloes s) !! idx = Some x)
    by (intros x; now apply list_lookup_insert_eq).
  assert (Hdv : forall t ts, deriva t (fold_right derivar l ts) = true).
  { intros t ts. apply deriva_ingenuas.
    induction ts as [|t' ts IH]; [exact Hd|].
    cbn [fold_right]. now rewrite derivar_datas_ingenuas. }
  unfold notificar_ganhador.
  unfold liga at 1. unfold Sistema.buscar_leilao_por_nome, liga at 1, obter at 1, ret at 1.
  rewrite Hi. unfold liga at 1.
  rewrite (no_leilao_executa idx _ r amb s l Hl), ganhador_derivar.
  rewrite (Hdv _ []). cbn [fst snd se_deriva]. fold k. fold l1.
  destruct (estado_eqb_spec (_estado l1) FINALIZADO) as [|_]; [contradiction|].
  unfold liga at 1.
  rewrite (no_leilao_executa idx _ r (tique amb) _ l1) by apply Hins.
  rewrite estado_derivar. unfold l1 at 1. rewrite (Hdv _ [r k]).
  cbn [fst snd _leiloes tique leituras se_deriva]. fold k.
  rewrite list_insert_insert_eq.
  set (l2 := derivar (r (Datatypes.S k)) l1).
  destruct (estado_eqb_spec (_estado l2) FINALIZADO) as [E2|E2].
  { eexists _, _, _. split; [reflexivity|]. split; [now left|].
    intros H1 _ _. exfalso. unfold l2 in E2. rewrite H1 in E2.
    unfold l1 in E2. rewrite derivar_idem in E2. contradiction. }
  unfold liga at 1.
  rewrite (no_leilao_executa idx _ r _ _ l2) by apply Hins.
  rewrite estado_derivar. unfold l2 at 1, l1 at 1.
  rewrite (Hdv _ [r (Datatypes.S k); r k]).
  cbn [fst snd _leiloes tique leituras se_deriva]. fold k. fold l1. fold l2.
  rewrite list_insert_insert_eq.
  set (l3 := derivar (r (Datatypes.S (Datatypes.S k))) l2).
  destruct (estado_eqb_spec (_estado l3) FINALIZADO) as [E3|E3]; cbn [negb].
  { eexists _, _, _. split; [reflexivity|]. split; [right; now left|].
    intros H1 H2 _. exfalso. unfold l3, l2 in E3. rewrite H1, H2 in E3.
    unfold l1 in E3. rewrite !derivar_idem in E3. contradiction. }
  unfold liga at 1.
  rewrite (no_leilao_executa idx _ r _ _ l3) by apply Hins.
  rewrite estado_derivar. unfold l3 at 1, l2 at 1, l1 at 1.
  rewrite (Hdv _ [r (Datatypes.S (Datatypes.S k)); r (Datatypes.S k); r k]).
  cbn [fst snd _leiloes tique leituras se_deriva]. fold k. fold l1. fold l2. fold l3.
  rewrite list_insert_insert_eq.
  eexists _, _, _. split; [reflexivity|]. split; [right; right; eauto|].
  intros H1 H2 H3. unfold l3, l2. rewrite H1, H2, H3.
  unfold l1. rewrite !derivar_idem. repeat split.
Qed.

Lemma notificar_ganhador_levanta n r amb s idx l :
  Sistema.indice_por_nome n (_leiloes s) = Some idx ->
  _leiloes s !! idx = Some l ->
  deriva (r (leituras amb)) l = false ->
  notificar_ganhador n r amb s = (Levanta erro_de_fuso, tique amb, s).
Proof.
  intros Hi Hl Hd. unfold notificar_ganhador.
  unfold liga at 1. unfold Sistema.buscar_leilao_por_nome, liga at 1, obter at 1, ret at 1.
  rewrite Hi. unfold liga at 1.
  rewrite (no_leilao_executa idx _ r amb s l Hl), ganhador_derivar, Hd.
  cbn [fst snd se_deriva]. rewrite derivar_levanta by exact Hd.
  now rewrite sistema_insert_id.
Qed.

(** X8. On a registry reached by calls of the interface,
    [notificar_ganhador] raises LeilaoInvalido when the name is unknown.
    Otherwise it returns [True] exactly when the state it first derives for
    the named auction is FINALIZADO, and then prints the e-mail addressed to
    the bidder of the bid that [maior_lance] returns, with that bid's amount;
    that bid is the last bid of the log when no amount is not-a-number.  The
    notice about a winner without a highest bid is never printed.  When the
    state is not FINALIZADO and the dates are naive it returns [False], and
    if the clock does not move during the call it prints the notice that
    quotes that state; when the dates are aware it raises TypeError and
    changes nothing. *)
Theorem X8_notificar_ganhador
  (r0 : Relogio) (amb_i : Ambiente) (cs : list Chamada)
  (n : Valor) (r : Relogio) (amb : Ambiente) :
  let s := sistema_apos r0 amb_i cs in
  (Sistema.indice_por_nome n (_leiloes s) = None ->
     exists msg,
       notificar_ganhador n r amb s = (Levanta (LeilaoInvalido msg), amb, s))
  /\ (forall idx l,
        Sistema.indice_por_nome n (_leiloes s) = Some idx ->
        _leiloes s !! idx = Some l ->
        let k := leituras amb in
        let l1 := derivar (r k) l in
        (_estado l1 = FINALIZADO ->
           exists u,
             u ∈ _lances l
             /\ Leilao_.maior_lance r amb l = (Retorna (Some u), amb, l)
             /\ (so_numeros valor (_lances l) = true -> last (_lances l) = Some u)
             /\ notificar_ganhador n r amb s
                = (Retorna (true,
                            Some (EmailGanhador (email (participante u))
                                    (nome_p (participante u)) (nome l) (valor u)
                                    (data_termino l))),
                   tique amb, {| _leiloes := <[idx := l1]> (_leiloes s) |}))
        /\ (_estado l1 <> FINALIZADO -> datas_ingenuas l = true ->
            exists imp amb' l',
              notificar_ganhador n r amb s
              = (Retorna (false, imp), amb',
                 {| _leiloes := <[idx := l']> (_leiloes s) |})
              /\ (imp = Some AvisoSemGanhador \/ imp = None
                  \/ exists e, imp = Some (InfoNaoFinalizado e))
              /\ (r (Datatypes.S k) = r k ->
                  r (Datatypes.S (Datatypes.S k)) = r k ->
                  r (Datatypes.S (Datatypes.S (Datatypes.S k))) = r k ->
                  imp = Some (InfoNaoFinalizado (_estado l1)) /\ l' = l1
                  /\ amb' = tique (tique (tique (tique amb)))))
        /\ (_estado l <> FINALIZADO -> datas_ingenuas l = false ->
            notificar_ganhador n r amb s = (Levanta erro_de_fuso, tique amb, s))).
Proof.
  intros s. split.
  - intros Hn. unfold notificar_ganhador.
    unfold liga at 1.
    unfold Sistema.buscar_leilao_por_nome, liga at 1, obter at 1, ret at 1.
    rewrite Hn. eexists. reflexivity.
  - intros idx l Hi Hl k l1.
    assert (Hok : leilao_ok l).
    { apply (sistema_apos_ok r0 amb_i cs). eapply list_elem_of_lookup_2. exact Hl. }
    split; [|split].
    + now apply notificar_ganhador_finalizado.
    + intros Hnf Hd. now apply notificar_ganhador_nao_finalizado.
    + intros Hnf Hd. apply (notificar_ganhador_levanta n r amb s idx l Hi Hl).
      now rewrite deriva_nao_finalizado.
Qed.

(** The registry of the two bids, notified after the end of the window. *)
Lemma X8_witness :
  (Sistema.indice_por_nome (VStr "Console")
     (_leiloes (sistema_apos (relogio_15_ate 7) amb0 chamadas_dois_lances))
   = Some 0%nat
   /\ _leiloes (sistema_apos (relogio_15_ate 7) amb0 chamadas_dois_lances) !! 0%nat
      = Some (leilao_10_20 [lance_de alice 110; lance_de bob 120] FINALIZADO
                (Some bob))
   /\ _estado (derivar 30 (leilao_10_20 [lance_de alice 110; lance_de bob 120]
                             FINALIZADO (Some bob)))
      = FINALIZADO)
  /\ exists u,
       last [lance_de alice 110; lance_de bob 120] = Some u
       /\ notificar_ganhador (VStr "Console") (relogio_fixo 30) amb0
            (sistema_apos (relogio_15_ate 7) amb0 chamadas_dois_lances)
          = (Retorna (true,
                      Some (EmailGanhador (email (participante u))
                              (nome_p (participante u)) "Console" (valor u)
                              (Ingenua 20))),
             tique amb0,
             {| _leiloes :=
                  <[0%nat := derivar 30 (leilao_10_20
                                           [lance_de alice 110; lance_de bob 120]
                                           FINALIZADO (Some bob))]>
                    (_leiloes (sistema_apos (relogio_15_ate 7) amb0
                                 chamadas_dois_lances)) |}).
Proof.
  split; [repeat split|].
  destruct (X8_notificar_ganhador (relogio_15_ate 7) amb0 chamadas_dois_lances
              (VStr "Console") (relogio_fixo 30) amb0) as [_ H].
  destruct (H 0%nat (leilao_10_20 [lance_de alice 110; lance_de bob 120]
                       FINALIZADO (Some bob))
              eq_refl eq_refl) as [Hf _].
  destruct (Hf eq_refl) as (u & _ & _ & Hlast & Hnot).
  exists u. split; [now apply Hlast|exact Hnot].
Defined.

(** With a not-a-number bid in the log the e-mail goes to the bidder whom
    [max] keeps, here Alice with her 200, not to the last bidder. *)
Example X8_nan :
  fst (fst (notificar_ganhador (VStr "Console") (relogio_fixo 30) amb0
              (sistema_apos (relogio_15_ate 10) amb0 chamadas_nan_no_meio)))
  = Retorna (true,
             Some (EmailGanhador "alice@test.com" "Alice" "Console"
                     (FFin (inject_Z 200)) (Ingenua 20))).
Proof. reflexivity. Qed.

(** ** The registry's queries by name *)

Lemma no_leilao_consulta {A} idx (m : M Leilao A) r amb s l a :
  _leiloes s !! idx = Some l ->
  m r amb l = (Retorna a, amb, l) ->
  no_leilao idx m r amb s = (Retorna a, amb, s).
Proof.
  intros Hl Hm. rewrite (no_leilao_executa idx m r amb s l Hl), Hm.
  cbn [fst snd]. rewrite (list_insert_id _ _ _ Hl). now destruct s.
Qed.

(** X9. On a registry reached by calls of the interface, the queries by name
    raise LeilaoInvalido for an unknown name and leave the registry
    untouched.  For a registered name, [obter_maior_lance_leilao] returns
    what [max] keeps of the log, without changing anything, and
    [obter_ganhador_leilao] derives the state and returns the bidder of that
    bid when the state is FINALIZADO, [None] otherwise (it raises TypeError
    when the derivation does).  When no amount of the log is not-a-number,
    [listar_lances_leilao] returns the chronological log,
    [obter_maior_lance_leilao] its last bid and [obter_menor_lance_leilao]
    its first bid. *)
Theorem X9_consultas_por_nome
  (r0 : Relogio) (amb_i : Ambiente) (cs : list Chamada)
  (n : Valor) (r : Relogio) (amb : Ambiente) :
  let s := sistema_apos r0 amb_i cs in
  (Sistema.indice_por_nome n (_leiloes s) = None ->
     (exists msg, listar_lances_leilao n r amb s
                  = (Levanta (LeilaoInvalido msg), amb, s))
     /\ (exists msg, obter_maior_lance_leilao n r amb s
                     = (Levanta (LeilaoInvalido msg), amb, s))
     /\ (exists msg, obter_menor_lance_leilao n r amb s
                     = (Levanta (LeilaoInvalido msg), amb, s))
     /\ (exists msg, obter_ganhador_leilao n r amb s
                     = (Levanta (LeilaoInvalido msg), amb, s)))
  /\ (forall idx l,
        Sistema.indice_por_nome n (_leiloes s) = Some idx ->
        _leiloes s !! idx = Some l ->
        let l1 := derivar (r (leituras amb)) l in
        let maior := match _lances l with
                     | [] => None
                     | x :: resto => Some (max_desde valor x resto)
                     end in
        obter_maior_lance_leilao n r amb s = (Retorna maior, amb, s)
        /\ obter_ganhador_leilao n r amb s
           = (se_deriva (deriva (r (leituras amb)) l)
                (if estado_eqb (_estado l1) FINALIZADO
                 then participante <$> maior else None),
              tique amb, {| _leiloes := <[idx := l1]> (_leiloes s) |})
        /\ (datas_ingenuas l = true -> deriva (r (leituras amb)) l = true)
        /\ (so_numeros valor (_lances l) = true ->
            maior = last (_lances l)
            /\ listar_lances_leilao n r amb s = (Retorna (_lances l), amb, s)
            /\ obter_menor_lance_leilao n r amb s
               = (Retorna (head (_lances l)), amb, s))).
Proof.
  intros s. split.
  - intros Hn.
    unfold listar_lances_leilao, obter_maior_lance_leilao,
      obter_menor_lance_leilao, obter_ganhador_leilao,
      Sistema.buscar_leilao_por_nome, liga, obter, ret.
    rewrite Hn. repeat split; eexists; reflexivity.
  - intros idx l Hi Hl l1 maior.
    assert (Hok : leilao_ok l).
    { apply (sistema_apos_ok r0 amb_i cs). eapply list_elem_of_lookup_2. exact Hl. }
    unfold listar_lances_leilao, obter_maior_lance_leilao,
      obter_menor_lance_leilao, obter_ganhador_leilao.
    unfold liga at 1 2 3 4.
    unfold Sistema.buscar_leilao_por_nome, liga at 1 2 3 4, obter at 1 2 3 4,
      ret at 1 2 3 4.
    rewrite Hi. split; [|split; [|split]].
    + apply (no_leilao_consulta idx _ r amb s l _ Hl).
      apply maior_lance_executa.
    + rewrite (no_leilao_executa idx _ r amb s l Hl), ganhador_derivar.
      cbn [fst snd]. fold l1. f_equal. f_equal. f_equal.
      destruct (estado_eqb_spec (_estado l1) FINALIZADO) as [Hf|_]; [|reflexivity].
      pose proof (derivar_ok (r (leituras amb)) l Hok) as [_ _ Hfin _].
      fold l1 in Hfin.
      destruct (Hfin Hf) as (x & rest & El & ->).
      unfold l1 in El. rewrite derivar_lances in El.
      unfold maior. now rewrite El.
    + apply deriva_ingenuas.
    + intros Hn.
      assert (Hc : crescente (_lances l))
        by (apply acima_crescente; [exact Hn|apply Hok]).
      split; [|split].
      * unfold maior. destruct (_lances l) as [|x resto]; [reflexivity|].
        symmetry. now apply crescente_max_ultimo.
      * apply (no_leilao_consulta idx _ r amb s l _ Hl).
        unfold Leilao_.lances, liga, obter.
        rewrite py_sorted_numeros by exact Hn. now rewrite sorted_crescente.
      * apply (no_leilao_consulta idx _ r amb s l _ Hl).
        unfold Leilao_.menor_lance, liga, obter, ret.
        destruct (_lances l) as [|x resto]; [reflexivity|].
        cbn [vazia py_min head].
        now rewrite (min_desde_primeiro x resto (crescente_cauda_maior x resto Hc)).
Qed.

(** ** Equality of participants *)

(** X10. [Participante.__eq__] is reflexive and symmetric but not
    transitive (a participant sharing the CPF of one and the e-mail of
    another equals both), and two equal participants need not have the same
    hash, which is taken from the CPF alone. *)
Theorem X10_participante_eq_nao_e_equivalencia :
  (forall a, participante_eq a a = true)
  /\ (forall a b, participante_eq a b = participante_eq b a)
  /\ (exists a b c,
        participante_eq a b = true /\ participante_eq b c = true
        /\ participante_eq a c = false)
  /\ (exists a b,
        participante_eq a b = true
        /\ Participante_.chave_do_hash a <> Participante_.chave_do_hash b).
Proof.
  split; [|split; [|split]].
  - intros a. unfold participante_eq. now rewrite String.eqb_refl.
  - intros a b. unfold participante_eq.
    now rewrite (String.eqb_sym (cpf a)), (String.eqb_sym (email a)).
  - exists alice,
      {| pid := 3; nome_p := "Carol"; cpf := cpf alice; email := email bob |},
      bob.
    repeat split.
  - exists alice,
      {| pid := 3; nome_p := "Carol"; cpf := cpf bob; email := email alice |}.
    split; [reflexivity|discriminate].
Qed.

(** ** Bids *)

(** X11. [Lance.__init__] raises TypeError unless the bidder is a
    [Participante], ValueError unless the amount is an [int] or a [float]
    that is not at or below zero (a [bool] counts as an [int]; not-a-number
    passes), and OverflowError when the amount is an [int] beyond the range
    of [float].  Otherwise it returns the bid of that bidder whose amount is
    what [float] converts the argument to: the nearest double for an [int],
    the argument itself for a [float]; that amount is positive unless it is
    not-a-number.  It reads no clock and changes nothing. *)
Theorem X11_lance_init
  (S : Type) (op ov : Objeto) (r : Relogio) (amb : Ambiente) (s : S) :
  match @Lance_.__init__ S op ov r amb s with
  | (Retorna b, amb', s') =>
      op = OParticipante (participante b)
      /\ (exists v, ov = OValor v /\ isinstance_int_float v = true
                    /\ py_le_0 v = false /\ float_de v = Retorna (valor b))
      /\ (e_numero (valor b) = true -> Fltb F0 (valor b) = true)
      /\ amb' = amb /\ s' = s
  | (Levanta e, amb', s') =>
      amb' = amb /\ s' = s
      /\ (((forall p, op <> OParticipante p) /\ exists msg, e = TypeError msg)
          \/ ((exists p, op = OParticipante p)
              /\ (exists msg, e = ValueError msg)
              /\ forall v, ov = OValor v ->
                    isinstance_int_float v = false \/ py_le_0 v = true)
          \/ ((exists p, op = OParticipante p)
              /\ e = OverflowError "int too large to convert to float"
              /\ exists z, ov = OValor (VInt z) /\ py_le_0 (VInt z) = false
                           /\ float_de_int z = None))
  end.
Proof.
  unfold Lance_.__init__.
  destruct op as [v0|d|p];
    [cbn; split; [reflexivity|]; split; [reflexivity|]; left;
     split; [discriminate|eauto] ..|].
  destruct ov as [v|d|p'].
  - destruct (negb (isinstance_int_float v) || py_le_0 v) eqn:E.
    + cbn. split; [reflexivity|]. split; [reflexivity|]. right. left.
      split; [eauto|]. split; [eauto|].
      intros v' Hv'. injection Hv' as <-.
      apply orb_true_iff in E. destruct E as [E|E]; [left|right; exact E].
      now apply negb_true_iff in E.
    + apply orb_false_iff in E. destruct E as [E1 E2].
      apply negb_false_iff in E1.
      unfold liga, py_float. destruct (float_de v) as [q|e] eqn:Ef.
      * cbn. split; [reflexivity|]. split; [eauto|].
        split; [|split; reflexivity].
        intros Hn. eapply minimo_positivo; eauto.
      * split; [reflexivity|]. split; [reflexivity|]. right. right.
        split; [eauto|].
        destruct v; cbn in E1, Ef; try discriminate.
        destruct (float_de_int z) eqn:Ez; [discriminate|]. injection Ef as <-.
        split; [reflexivity|]. exists z. auto.
  - cbn. split; [reflexivity|]. split; [reflexivity|]. right. left.
    split; [eauto|]. split; [eauto|]. intros v Hv'. discriminate.
  - cbn. split; [reflexivity|]. split; [reflexivity|]. right. left.
    split; [eauto|]. split; [eauto|]. intros v Hv'. discriminate.
Qed.

(** The amount a bid stores: an [int] beyond 2^53 is rounded, not-a-number
    and infinity are accepted, and an [int] beyond the range of [float]
    raises OverflowError. *)
Example X11_exemplos :
  let cria v :=
    fst (fst (@Lance_.__init__ unit (OParticipante alice) (OValor v)
                (relogio_fixo 5) amb0 tt)) in
  cria (VInt (2 ^ 53 + 1))
  = Retorna {| participante := alice; valor := FFin (inject_Z (2 ^ 53)) |}
  /\ cria (VFloat FNaN) = Retorna (lance_nan alice)
  /\ cria (VFloat (FInf false))
     = Retorna {| participante := alice; valor := FInf false |}
  /\ cria (VInt (2 ^ 1024))
     = Levanta (OverflowError "int too large to convert to float")
  /\ cria (VInt 0) = Levanta (ValueError "O valor do lance deve ser positivo.")
  /\ cria (VBool true) = Retorna {| participante := alice; valor := FFin 1 |}.
Proof. vm_compute. repeat split. Qed.

(** X12. The comparisons of bids order them by amount alone.  Between bids
    whose amounts are numbers, [<=] is reflexive, transitive and total, [<]
    holds exactly when the converse [<=] fails, and on finite amounts [<] and
    [<=] are the order of the amounts; [>] and [>=] are the converses of [<]
    and [<=].  Bids that [==] equates are [<=] both ways, but two bids [<=]
    both ways need not be [==]: they may come from different participants.
    A bid whose amount is not-a-number compares false with every bid, itself
    included. *)
Theorem X12_lance_comparacoes :
  (forall a, e_numero (valor a) = true -> Lance_.__le__ a a = true)
  /\ (forall a b c, Lance_.__le__ a b = true -> Lance_.__le__ b c = true ->
                    Lance_.__le__ a c = true)
  /\ (forall a b, e_numero (valor a) = true -> e_numero (valor b) = true ->
                  Lance_.__le__ a b = true \/ Lance_.__le__ b a = true)
  /\ (forall a b,
        (e_numero (valor a) = true -> e_numero (valor b) = true ->
         (Lance_.__lt__ a b = true <-> Lance_.__le__ b a = false))
        /\ (forall x y, valor a = FFin x -> valor b = FFin y ->
              (Lance_.__lt__ a b = true <-> (x < y)%Q)
              /\ (Lance_.__le__ a b = true <-> (x <= y)%Q))
        /\ Lance_.__gt__ a b = Lance_.__lt__ b a
        /\ Lance_.__ge__ a b = Lance_.__le__ b a)
  /\ (forall a b, Lance_.__eq__ a b = true ->
                  Lance_.__le__ a b = true /\ Lance_.__le__ b a = true)
  /\ (exists a b, Lance_.__le__ a b = true /\ Lance_.__le__ b a = true
                  /\ Lance_.__eq__ a b = false)
  /\ (forall a b, valor a = FNaN ->
        Lance_.__lt__ a b = false /\ Lance_.__lt__ b a = false
        /\ Lance_.__le__ a b = false /\ Lance_.__le__ b a = false
        /\ Lance_.__eq__ a b = false /\ Lance_.__eq__ b a = false).
Proof.
  split; [|split; [|split; [|split; [|split; [|split]]]]].
  - intros a. unfold Lance_.__le__. apply Fle_refl.
  - intros a b c. unfold Lance_.__le__. apply Fle_trans.
  - intros a b Ha Hb. unfold Lance_.__le__.
    destruct (Fleb (valor a) (valor b)) eqn:E; [now left|right].
    apply Fltb_le. now apply Flt_total.
  - intros a b. unfold Lance_.__lt__, Lance_.__le__, Lance_.__gt__, Lance_.__ge__.
    split; [|split; [|split; reflexivity]].
    + intros Ha Hb. rewrite (Fltb_negb _ _ Ha Hb).
      destruct (Fleb (valor b) (valor a)); cbn; split; congruence.
    + intros x y -> ->. cbn [Fltb Fleb]. split.
      * destruct (Qltb_spec x y); split; try congruence; tauto.
      * destruct (Qleb_spec x y); split; try congruence; tauto.
  - intros a b. unfold Lance_.__eq__, Lance_.__le__. intros H.
    apply andb_true_iff in H. destruct H as [_ H]. now apply Feqb_le.
  - exists (lance_de alice 120), (lance_de bob 120). repeat split.
  - intros a b Ha. unfold Lance_.__lt__, Lance_.__le__, Lance_.__eq__.
    rewrite Ha. destruct (comparacoes_com_nan (valor b))
      as (H1 & H2 & H3 & H4 & H5 & H6).
    rewrite H1, H2, H3, H4, H5, H6, !andb_false_r. repeat split.
Qed.

(** ** Matching regular expressions *)

Lemma denota_vazio_anulavel e : denota e [] -> anulavel e = true.
Proof.
  intros H. remember [] as s eqn:Es. induction H; cbn; try reflexivity.
  - discriminate.
  - apply app_eq_nil in Es. destruct Es as [-> ->].
    now rewrite IHdenota1, IHdenota2.
  - now rewrite IHdenota.
  - rewrite IHdenota by assumption. apply orb_true_r.
Qed.

Lemma anulavel_denota_vazio e : anulavel e = true -> denota e [].
Proof.
  induction e; cbn; intros H; try discriminate.
  - constructor.
  - apply andb_true_iff in H. destruct H as [H1 H2].
    apply (denota_seq _ _ [] []); auto.
  - apply orb_true_iff in H. destruct H as [H|H];
      [apply denota_alt_e|apply denota_alt_d]; auto.
  - constructor.
Qed.

Lemma derivada_denota c e : forall s, denota (derivada c e) s -> denota e (c :: s).
Proof.
  induction e; cbn [derivada]; intros s H.
  - inversion H.
  - inversion H.
  - destruct (f c) eqn:E; inversion H; subst. now constructor.
  - destruct (anulavel e1) eqn:En.
    + inversion H as [| | | a b s' H1 | a b s' H1 | |]; subst.
      * inversion H1; subst.
        apply (denota_seq e1 e2 (c :: s1) s2); auto.
      * apply (denota_seq e1 e2 [] (c :: s)); auto.
        now apply anulavel_denota_vazio.
    + inversion H; subst. apply (denota_seq e1 e2 (c :: s1) s2); auto.
  - inversion H; subst; [apply denota_alt_e|apply denota_alt_d]; auto.
  - inversion H; subst. apply (denota_estrela_mais e (c :: s1) s2); auto.
Qed.

Lemma denota_derivada e s0 :
  denota e s0 -> forall c s, s0 = c :: s -> denota (derivada c e) s.
Proof.
  induction 1 as [|f c' Hf|a b s1 s2 H1 IH1 H2 IH2|a b s' H1 IH1|a b s' H1 IH1
                  | |a s1 s2 H1 IH1 H2 IH2]; intros c s Es.
  - discriminate.
  - injection Es as -> <-. cbn. rewrite Hf. constructor.
  - cbn [derivada]. destruct s1 as [|c1 s1'].
    + cbn in Es. subst s2. rewrite (denota_vazio_anulavel a H1).
      apply denota_alt_d. now apply IH2.
    + cbn in Es. injection Es as -> <-.
      assert (Hs : denota (RSeq (derivada c a) b) (s1' ++ s2))
        by (constructor; auto).
      destruct (anulavel a); [now apply denota_alt_e|exact Hs].
  - cbn. apply denota_alt_e. now apply IH1.
  - cbn. apply denota_alt_d. now apply IH1.
  - discriminate.
  - destruct s1 as [|c1 s1'].
    + cbn in Es. now apply IH2.
    + cbn in Es. injection Es as -> <-. cbn [derivada].
      constructor; auto.
Qed.

Lemma casa_toda_denota e s : casa_toda e s = true <-> denota e s.
Proof.
  revert e. induction s as [|c s IH]; intros e; cbn [casa_toda].
  - split; [apply anulavel_denota_vazio|apply denota_vazio_anulavel].
  - rewrite IH. split; [apply derivada_denota|].
    intros H. now apply (denota_derivada e (c :: s)).
Qed.

Lemma denota_seq_inv a b s :
  denota (RSeq a b) s <-> exists s1 s2, s = s1 ++ s2 /\ denota a s1 /\ denota b s2.
Proof.
  split.
  - intros H. inversion H; subst. eauto.
  - intros (s1 & s2 & -> & H1 & H2). now constructor.
Qed.

Lemma denota_classe_inv f s :
  denota (RClasse f) s <-> exists c, s = [c] /\ f c = true.
Proof.
  split.
  - intros H. inversion H; subst. eauto.
  - intros (c & -> & H). now constructor.
Qed.

Lemma denota_char_inv c s : denota (RChar c) s <-> s = [c].
Proof.
  unfold RChar. rewrite denota_classe_inv. split.
  - intros (c' & -> & H). apply Ascii.eqb_eq in H. now subst.
  - intros ->. exists c. split; [reflexivity|apply Ascii.eqb_refl].
Qed.

Lemma denota_estrela_classe f s :
  denota (REstrela (RClasse f)) s <-> Forall (fun c => f c = true) s.
Proof.
  split.
  - intros H. remember (REstrela (RClasse f)) as e eqn:Ee.
    induction H; try discriminate; [constructor|].
    injection Ee as ->. inversion H; subst. cbn. constructor; auto.
  - induction 1 as [|c s Hc Hs IH]; [constructor|].
    apply (denota_estrela_mais (RClasse f) [c] s); [now constructor|exact IH].
Qed.

Lemma denota_mais_classe f s :
  denota (RMais (RClasse f)) s <-> s <> [] /\ Forall (fun c => f c = true) s.
Proof.
  unfold RMais. rewrite denota_seq_inv. split.
  - intros (s1 & s2 & -> & H1 & H2).
    apply denota_classe_inv in H1. destruct H1 as (c & -> & Hc).
    apply denota_estrela_classe in H2. split; [discriminate|].
    now constructor.
  - intros [Hne H]. destruct s as [|c s]; [contradiction|].
    apply Forall_cons in H. destruct H as [Hc Hs].
    exists [c], s. split; [reflexivity|]. split.
    + now constructor.
    + now apply denota_estrela_classe.
Qed.

Lemma denota_fim s : denota RFim s <-> s = [] \/ s = ["010"%char].
Proof.
  unfold RFim. split.
  - intros H. inversion H as [| | |a b s' H1|a b s' H1| |]; subst.
    + inversion H1; subst. now left.
    + apply denota_char_inv in H1. now right.
  - intros [->| ->]; [apply denota_alt_e; constructor|].
    apply denota_alt_d. now apply denota_char_inv.
Qed.

(** ** Validation of e-mail addresses *)

Lemma denota_padrao_email s :
  denota padrao_email s <->
  exists l d t f,
    s = l ++ "@"%char :: d ++ "."%char :: t ++ f
    /\ l <> [] /\ Forall (fun c => classe_local c = true) l
    /\ d <> [] /\ Forall (fun c => classe_dominio c = true) d
    /\ (2 <= length t)%nat /\ Forall (fun c => letra c = true) t
    /\ (f = [] \/ f = ["010"%char]).
Proof.
  unfold padrao_email. split.
  - intros H.
    apply denota_seq_inv in H. destruct H as (l & s1 & -> & Hl & H).
    apply denota_seq_inv in H. destruct H as (a & s2 & -> & Ha & H).
    apply denota_seq_inv in H. destruct H as (d & s3 & -> & Hd & H).
    apply denota_seq_inv in H. destruct H as (p & s4 & -> & Hp & H).
    apply denota_seq_inv in H. destruct H as (t1 & s5 & -> & Ht1 & H).
    apply denota_seq_inv in H. destruct H as (t2 & s6 & -> & Ht2 & H).
    apply denota_seq_inv in H. destruct H as (t3 & f & -> & Ht3 & Hf).
    apply denota_mais_classe in Hl, Hd. destruct Hl as [Hl1 Hl2], Hd as [Hd1 Hd2].
    apply denota_char_inv in Ha, Hp. subst a p.
    apply denota_classe_inv in Ht1, Ht2.
    destruct Ht1 as (c1 & -> & Hc1), Ht2 as (c2 & -> & Hc2).
    apply denota_estrela_classe in Ht3. apply denota_fim in Hf.
    exists l, d, (c1 :: c2 :: t3), f. cbn.
    repeat split; try assumption.
    + lia.
    + repeat constructor; assumption.
  - intros (l & d & t & f & -> & Hl1 & Hl2 & Hd1 & Hd2 & Ht1 & Ht2 & Hf).
    destruct t as [|c1 [|c2 t3]]; cbn in Ht1; try lia.
    apply Forall_cons in Ht2. destruct Ht2 as [Hc1 Ht2].
    apply Forall_cons in Ht2. destruct Ht2 as [Hc2 Ht3].
    apply denota_seq_inv. exists l, ("@"%char :: d ++ "."%char :: (c1 :: c2 :: t3) ++ f).
    split; [reflexivity|]. split; [now apply denota_mais_classe|].
    apply denota_seq_inv. exists ["@"%char], (d ++ "."%char :: (c1 :: c2 :: t3) ++ f).
    split; [reflexivity|]. split; [now apply denota_char_inv|].
    apply denota_seq_inv. exists d, ("."%char :: (c1 :: c2 :: t3) ++ f).
    split; [reflexivity|]. split; [now apply denota_mais_classe|].
    apply denota_seq_inv. exists ["."%char], ((c1 :: c2 :: t3) ++ f).
    split; [reflexivity|]. split; [now apply denota_char_inv|].
    apply denota_seq_inv. exists [c1], (c2 :: t3 ++ f).
    split; [reflexivity|]. split; [now apply denota_classe_inv; eauto|].
    apply denota_seq_inv. exists [c2], (t3 ++ f).
    split; [reflexivity|]. split; [now apply denota_classe_inv; eauto|].
    apply denota_seq_inv. exists t3, f.
    split; [reflexivity|]. split; [now apply denota_estrela_classe|].
    now apply denota_fim.
Qed.

(** X13. [_validar_email] accepts an object exactly when it is a string of
    the form local part, [@], domain, [.], ending: the local part non-empty
    and made of letters, digits and [._%+-]; the domain non-empty and made of
    letters, digits, [.] and [-]; the ending at least two letters; and then
    nothing more, or one final newline, which [$] lets through. *)
Theorem X13_validar_email (o : Objeto) :
  Participante_._validar_email o = true <->
  exists s l d t f,
    o = OValor (VStr s)
    /\ list_ascii_of_string s = l ++ "@"%char :: d ++ "."%char :: t ++ f
    /\ l <> [] /\ Forall (fun c => classe_local c = true) l
    /\ d <> [] /\ Forall (fun c => classe_dominio c = true) d
    /\ (2 <= length t)%nat /\ Forall (fun c => letra c = true) t
    /\ (f = [] \/ f = ["010"%char]).
Proof.
  unfold Participante_._validar_email. split.
  - destruct o as [v|dia|p]; [|discriminate..].
    destruct v as [|b|z|q|s|t|lc];
      try (cbn [verdade e_str isinstance_str negb]; rewrite orb_true_r;
           discriminate).
    cbn. destruct (String.eqb_spec s ""); cbn; [discriminate|].
    unfold re_match. rewrite casa_toda_denota, denota_padrao_email.
    intros (l & d & t & f & H). exists s, l, d, t, f. split; [reflexivity|exact H].
  - intros (s & l & d & t & f & -> & Hs & H). cbn.
    destruct (String.eqb_spec s "") as [->|_]; cbn.
    + destruct l; [now destruct H|discriminate].
    + unfold re_match. rewrite casa_toda_denota, denota_padrao_email.
      exists l, d, t, f. split; [exact Hs|exact H].
Qed.

(** The addresses of the repository's tests, and one with a final newline. *)
Example validar_email_exemplos :
  let valida s := Participante_._validar_email (OValor (VStr s)) in
  valida "joao@example.com" = true
  /\ valida "teste" = false
  /\ valida "teste@" = false
  /\ valida "teste@domain" = false
  /\ valida "teste@domain." = false
  /\ valida "a@b@c.com" = false
  /\ valida (String.append "joao@example.com" (String "010"%char "")) = true
  /\ Participante_._validar_email (OValor VNone) = false.
Proof. repeat split. Qed.

(** ** CPF numbers *)

Lemma so_digitos_digitos s :
  Forall (fun c => digito c = true) (list_ascii_of_string (so_digitos s)).
Proof.
  induction s as [|c s IH]; cbn; [constructor|].
  destruct (digito c) eqn:E; [|exact IH]. cbn. now constructor.
Qed.

Lemma so_digitos_fixo s :
  Forall (fun c => digito c = true) (list_ascii_of_string s) -> so_digitos s = s.
Proof.
  induction s as [|c s IH]; cbn; intros H; [reflexivity|].
  apply Forall_cons in H. destruct H as [Hc Hs]. now rewrite Hc, IH.
Qed.

Lemma so_digitos_idem s : so_digitos (so_digitos s) = so_digitos s.
Proof. apply so_digitos_fixo, so_digitos_digitos. Qed.

Lemma validar_cpf_str s :
  Participante_._validar_cpf (OValor (VStr s))
  = (String.length (so_digitos s) =? 11)%nat.
Proof.
  unfold Participante_._validar_cpf. cbn.
  destruct (String.eqb_spec s "") as [->|_]; reflexivity.
Qed.

Lemma formatar_cpf_busca_str s :
  _formatar_cpf_busca (OValor (VStr s)) = so_digitos s.
Proof.
  unfold _formatar_cpf_busca. cbn.
  destruct (String.eqb_spec s "") as [->|_]; reflexivity.
Qed.

(** X14. Only the digits of a CPF count.  [_formatar_cpf] returns a string
    of digits that it maps to itself; [_validar_cpf] accepts a string
    exactly when it has eleven digits, so it gives the same answer before
    and after formatting; [_formatar_cpf_busca] formats a string the same
    way.  Anything that is not a string is refused by [_validar_cpf] and
    searched as the empty string. *)
Theorem X14_cpf :
  (forall s,
      let f := Participante_._formatar_cpf s in
      Forall (fun c => digito c = true) (list_ascii_of_string f)
      /\ Participante_._formatar_cpf f = f
      /\ (Participante_._validar_cpf (OValor (VStr s)) = true
          <-> String.length f = 11%nat)
      /\ Participante_._validar_cpf (OValor (VStr f))
         = Participante_._validar_cpf (OValor (VStr s))
      /\ _formatar_cpf_busca (OValor (VStr s)) = f
      /\ _formatar_cpf_busca (OValor (VStr f)) = f)
  /\ (forall o,
        (forall s, o <> OValor (VStr s)) ->
        Participante_._validar_cpf o = false
        /\ _formatar_cpf_busca o = ""%string).
Proof.
  split.
  - intros s f. unfold f, Participante_._formatar_cpf.
    rewrite !validar_cpf_str, !formatar_cpf_busca_str, !so_digitos_idem.
    repeat split; try reflexivity.
    + apply so_digitos_digitos.
    + apply Nat.eqb_eq.
    + apply Nat.eqb_eq.
  - intros o Ho. unfold Participante_._validar_cpf, _formatar_cpf_busca.
    destruct o as [v|dia|p]; [|split; reflexivity..].
    destruct v as [|b|z|q|s|t|lc];
      try (cbn [verdade e_str isinstance_str negb]; rewrite orb_true_r;
           split; reflexivity).
    exfalso. now apply (Ho s).
Qed.

Example cpf_exemplos :
  Participante_._formatar_cpf "123.456.789-00" = "12345678900"%string
  /\ Participante_._validar_cpf (OValor (VStr "123.456.789-00")) = true
  /\ Participante_._validar_cpf (OValor (VStr "1234567890")) = false
  /\ Participante_._validar_cpf (OValor (VStr "123456789000")) = false
  /\ Participante_._validar_cpf (OValor VNone) = false
  /\ _formatar_cpf_busca (OValor (VInt 12345)) = ""%string.
Proof. repeat split. Qed.

(** ** Building a participant *)

Lemma validar_cpf_e_str o :
  Participante_._validar_cpf o = true -> exists c, o = OValor (VStr c).
Proof.
  unfold Participante_._validar_cpf.
  destruct o as [v|dia|p]; [|discriminate..].
  destruct v as [|b|z|q|s|t|lc];
    try (cbn [verdade e_str isinstance_str negb]; rewrite orb_true_r;
         discriminate).
  eauto.
Qed.

Lemma validar_email_e_str o :
  Participante_._validar_email o = true -> exists c, o = OValor (VStr c).
Proof.
  unfold Participante_._validar_email.
  destruct o as [v|dia|p]; [|discriminate..].
  destruct v as [|b|z|q|s|t|lc];
    try (cbn [verdade e_str isinstance_str negb]; rewrite orb_true_r;
         discriminate).
  eauto.
Qed.

Lemma participante_init_casos {S} ident o_n o_c o_e o_d r amb (s : S) :
  (exists msg,
     Participante_.__init__ ident o_n o_c o_e o_d r amb s
     = (Levanta (ValueError msg), amb, s)
     /\ (negb (verdade o_n) || negb (e_str o_n) = true
         \/ Participante_._validar_cpf o_c = false
         \/ Participante_._validar_email o_e = false
         \/ e_date o_d = false))
  \/ (exists n c e,
        o_n = OValor (VStr n) /\ n <> ""%string
        /\ o_c = OValor (VStr c) /\ String.length (so_digitos c) = 11%nat
        /\ o_e = OValor (VStr e) /\ Participante_._validar_email o_e = true
        /\ e_date o_d = true
        /\ Participante_.__init__ ident o_n o_c o_e o_d r amb s
           = (Retorna {| pid := ident; nome_p := n; cpf := so_digitos c;
                         email := e |},
              {| leituras := leituras amb;
                 ofertantes := ofertantes amb ∖ {[ ident ]} |}, s)).
Proof.
  unfold Participante_.__init__.
  destruct (negb (verdade o_n) || negb (e_str o_n)) eqn:E1;
    [left; eexists; split; [reflexivity|auto]|].
  destruct (Participante_._validar_cpf o_c) eqn:E2; cbn [negb];
    [|left; eexists; split; [reflexivity|auto]].
  destruct (Participante_._validar_email o_e) eqn:E3; cbn [negb];
    [|left; eexists; split; [reflexivity|auto]].
  destruct (e_date o_d) eqn:E4; cbn [negb];
    [|left; eexists; split; [reflexivity|auto 6]].
  right.
  apply orb_false_iff in E1. destruct E1 as [T1 I1].
  destruct o_n as [[|b|z|q|n|t|lc]| |]; try discriminate.
  destruct (validar_cpf_e_str _ E2) as [c ->].
  destruct (validar_email_e_str _ E3) as [e ->].
  cbn in T1. destruct (String.eqb_spec n "") as [|Hn]; [discriminate|].
  rewrite validar_cpf_str in E2. apply Nat.eqb_eq in E2.
  exists n, c, e. repeat split; try assumption.
Qed.

(** X15. [Participante.__init__] raises ValueError, changing nothing, when
    the name is not a non-empty string, the CPF does not have eleven digits,
    the e-mail does not match, or the date of birth is not a date.
    Otherwise it returns a participant with that name and e-mail whose CPF
    is the eleven digits of the argument, and who has no bids: right after
    construction [pode_ser_excluido] answers [True]. *)
Theorem X15_participante_init
  (S : Type) (ident : nat) (o_n o_c o_e o_d : Objeto) (r : Relogio)
  (amb : Ambiente) (s : S) :
  match Participante_.__init__ ident o_n o_c o_e o_d r amb s with
  | (Retorna p, amb', s') =>
      s' = s /\ leituras amb' = leituras amb
      /\ ofertantes amb' = ofertantes amb ∖ {[ ident ]}
      /\ pid p = ident
      /\ o_n = OValor (VStr (nome_p p)) /\ nome_p p <> ""%string
      /\ (exists c, o_c = OValor (VStr c)
                    /\ cpf p = Participante_._formatar_cpf c)
      /\ String.length (cpf p) = 11%nat
      /\ Forall (fun c => digito c = true) (list_ascii_of_string (cpf p))
      /\ o_e = OValor (VStr (email p))
      /\ Participante_._validar_email o_e = true
      /\ e_date o_d = true
      /\ pode_ser_excluido p r amb' s' = (Retorna true, amb', s')
  | (Levanta e, amb', s') =>
      amb' = amb /\ s' = s /\ (exists msg, e = ValueError msg)
      /\ (negb (verdade o_n) || negb (e_str o_n) = true
          \/ Participante_._validar_cpf o_c = false
          \/ Participante_._validar_email o_e = false
          \/ e_date o_d = false)
  end.
Proof.
  destruct (participante_init_casos ident o_n o_c o_e o_d r amb s)
    as [(msg & -> & H)|(n & c & e & -> & Hn & -> & Hc & -> & He & Hd & ->)].
  - repeat split; eauto.
  - cbn [pid nome_p cpf email leituras ofertantes].
    repeat split; try assumption; try reflexivity.
    + exists c. split; reflexivity.
    + apply so_digitos_digitos.
    + unfold pode_ser_excluido. cbn [pid ofertantes]. f_equal. f_equal. f_equal.
      apply bool_decide_eq_true. intros Hin.
      apply elem_of_difference in Hin. destruct Hin as [_ Hfora].
      apply Hfora. now apply elem_of_singleton.
Qed.

(** ** Methods that leave the has-bid flags alone *)

Lemma nm_ret {S A} (a : A) : nao_marca (@ret S A a).
Proof. intros r amb s. reflexivity. Qed.

Lemma nm_levanta {S A} e : nao_marca (@levanta S A e).
Proof. intros r amb s. reflexivity. Qed.

Lemma nm_obter {S} : nao_marca (@obter S).
Proof. intros r amb s. reflexivity. Qed.

Lemma nm_modificar {S} (f : S -> S) : nao_marca (modificar f).
Proof. intros r amb s. reflexivity. Qed.

Lemma nm_now {S} : nao_marca (@datetime_now S).
Proof. intros r amb s. reflexivity. Qed.

Lemma nm_py_float {S} v : nao_marca (@py_float S v).
Proof. intros r amb s. reflexivity. Qed.

Lemma nm_dh_lt {S} a b : nao_marca (@dh_lt S a b).
Proof. unfold dh_lt. now destruct (dh_compara Z.ltb a b). Qed.

Lemma nm_dh_le {S} a b : nao_marca (@dh_le S a b).
Proof. unfold dh_le. now destruct (dh_compara Z.leb a b). Qed.

Lemma nm_dh_ge {S} a b : nao_marca (@dh_ge S a b).
Proof. unfold dh_ge. now destruct (dh_compara Z.geb a b). Qed.

Lemma nm_py_sorted {S A} (key : A -> Float) (l : list A) :
  nao_marca (@py_sorted S A key l).
Proof. unfold py_sorted. now destruct (forallb _ l). Qed.

Lemma nm_atualizar_estado : nao_marca Leilao_.atualizar_estado.
Proof. intros r amb l. now rewrite atualizar_estado_derivar. Qed.

Lemma nm_liga {S A B} (m : M S A) (k : A -> M S B) :
  nao_marca m -> (forall a, nao_marca (k a)) -> nao_marca (liga m k).
Proof.
  intros Hm Hk r amb s. unfold liga. specialize (Hm r amb s).
  destruct (m r amb s) as [[[a|e] amb'] s']; cbn in Hm |- *; [|exact Hm].
  now rewrite (Hk a r amb' s').
Qed.

Lemma nm_tentar {S A} (m : M S A) : nao_marca m -> nao_marca (tentar m).
Proof.
  intros Hm r amb s. unfold tentar. specialize (Hm r amb s).
  now destruct (m r amb s) as [[res amb'] s'].
Qed.

Lemma nm_sobre {S T A} (t : T) (m : M T A) : nao_marca m -> nao_marca (@sobre S T A t m).
Proof.
  intros Hm r amb s. unfold sobre. specialize (Hm r amb t).
  now destruct (m r amb t) as [[[a|e] amb'] t'].
Qed.

Lemma nm_no_leilao {A} i (m : M Leilao A) : nao_marca m -> nao_marca (no_leilao i m).
Proof.
  intros Hm r amb s. unfold no_leilao.
  destruct (_leiloes s !! i) as [l|]; [|reflexivity].
  specialize (Hm r amb l). now destruct (m r amb l) as [[res amb'] l'].
Qed.

Lemma nm_nos_leiloes {A} (m : M SistemaLeiloes A) :
  nao_marca m -> nao_marca (nos_leiloes m).
Proof.
  intros Hm r amb s. unfold nos_leiloes. specialize (Hm r amb (leiloes_do_sistema s)).
  now destruct (m r amb (leiloes_do_sistema s)) as [[res amb'] sl'].
Qed.

Ltac nm_passos :=
  repeat first
    [ apply nm_ret | apply nm_levanta | apply nm_obter | apply nm_modificar
    | apply nm_now | apply nm_tentar | apply nm_no_leilao | apply nm_sobre
    | apply nm_nos_leiloes | apply nm_py_float | apply nm_dh_lt
    | apply nm_dh_le | apply nm_dh_ge | apply nm_py_sorted
    | apply nm_atualizar_estado
    | apply nm_liga; [|intro]
    | match goal with
      | |- nao_marca (if ?b then _ else _) => destruct b
      | |- nao_marca (match ?x with _ => _ end) => destruct x
      end ].

Lemma nm_maior_lance : nao_marca Leilao_.maior_lance.
Proof. unfold Leilao_.maior_lance, py_max. nm_passos. Qed.

Lemma nm_estado : nao_marca Leilao_.estado.
Proof. intros r amb l. now rewrite estado_derivar. Qed.

Lemma nm_ganhador : nao_marca Leilao_.ganhador.
Proof. intros r amb l. now rewrite ganhador_derivar. Qed.

Lemma nm_pode : nao_marca Leilao_.pode_ser_alterado_ou_excluido.
Proof. intros r amb l. now rewrite pode_executa. Qed.

Lemma nm_lances : nao_marca Leilao_.lances.
Proof. unfold Leilao_.lances. nm_passos. Qed.

Lemma nm_buscar alvo : nao_marca (Sistema.buscar_leilao_por_nome alvo).
Proof. unfold Sistema.buscar_leilao_por_nome. nm_passos. Qed.

Lemma nm_init {S} n m i t : nao_marca (@Leilao_.__init__ S n m i t).
Proof. unfold Leilao_.__init__. nm_passos. Qed.

Lemma nm_cadastrar_leilao n m i t : nao_marca (Sistema.cadastrar_leilao n m i t).
Proof.
  unfold Sistema.cadastrar_leilao.
  apply nm_liga; [apply nm_buscar|intros [idx|]]; [apply nm_levanta|].
  apply nm_liga; [apply nm_init|intros novo]. nm_passos.
Qed.

Lemma nm_alterar_leilao a n m i t : nao_marca (Sistema.alterar_leilao a n m i t).
Proof.
  unfold Sistema.alterar_leilao.
  apply nm_liga; [apply nm_buscar|intros [idx|]]; [|apply nm_levanta].
  apply nm_liga; [apply nm_no_leilao, nm_pode|intros pode].
  destruct (negb pode).
  - apply nm_liga; [nm_passos|intros l].
    apply nm_liga; [apply nm_no_leilao, nm_estado|intros e]. apply nm_levanta.
  - apply nm_liga.
    { destruct (_ && _); [apply nm_buscar|apply nm_ret]. }
    intros [dup|]; [apply nm_levanta|].
    apply nm_liga; [nm_passos|intros l]. cbv zeta.
    repeat match goal with
           | |- nao_marca (if ?b then _ else _) => destruct b
           | |- nao_marca (levanta _) => apply nm_levanta
           end.
    repeat match goal with
           | |- nao_marca (match ?x with _ => _ end) =>
               destruct x; try apply nm_levanta
           end.
    nm_passos.
Qed.

Lemma nm_excluir_leilao alvo : nao_marca (Sistema.excluir_leilao alvo).
Proof.
  unfold Sistema.excluir_leilao.
  apply nm_liga; [apply nm_buscar|intros [idx|]]; [|apply nm_levanta].
  apply nm_liga; [apply nm_no_leilao, nm_pode|intros pode].
  destruct (negb pode).
  - apply nm_liga; [nm_passos|intros l].
    apply nm_liga; [apply nm_no_leilao, nm_estado|intros e]. apply nm_levanta.
  - apply nm_modificar.
Qed.

Lemma nm_obter_ganhador_leilao n : nao_marca (obter_ganhador_leilao n).
Proof.
  unfold obter_ganhador_leilao.
  apply nm_liga; [apply nm_buscar|intros [idx|]]; [|apply nm_levanta].
  apply nm_no_leilao, nm_ganhador.
Qed.

Lemma nm_menor_lance : nao_marca Leilao_.menor_lance.
Proof. unfold Leilao_.menor_lance, py_min. nm_passos. Qed.

Lemma nm_listar_lances_leilao n : nao_marca (listar_lances_leilao n).
Proof.
  unfold listar_lances_leilao.
  apply nm_liga; [apply nm_buscar|intros [idx|]]; [|apply nm_levanta].
  apply nm_no_leilao, nm_lances.
Qed.

Lemma nm_obter_maior_lance_leilao n : nao_marca (obter_maior_lance_leilao n).
Proof.
  unfold obter_maior_lance_leilao.
  apply nm_liga; [apply nm_buscar|intros [idx|]]; [|apply nm_levanta].
  apply nm_no_leilao, nm_maior_lance.
Qed.

Lemma nm_obter_menor_lance_leilao n : nao_marca (obter_menor_lance_leilao n).
Proof.
  unfold obter_menor_lance_leilao.
  apply nm_liga; [apply nm_buscar|intros [idx|]]; [|apply nm_levanta].
  apply nm_no_leilao, nm_menor_lance.
Qed.

Lemma nm_notificar_ganhador n : nao_marca (notificar_ganhador n).
Proof.
  unfold notificar_ganhador.
  apply nm_liga; [apply nm_buscar|intros [idx|]]; [|apply nm_levanta].
  apply nm_liga; [apply nm_no_leilao, nm_ganhador|intros [g|]].
  - apply nm_liga; [apply nm_no_leilao, nm_maior_lance|intros [ml|]];
      [|apply nm_ret].
    apply nm_liga; [nm_passos|intros l]. apply nm_ret.
  - apply nm_liga; [apply nm_no_leilao, nm_estado|intros e1].
    destruct (estado_eqb e1 FINALIZADO); [apply nm_ret|].
    apply nm_liga; [apply nm_no_leilao, nm_estado|intros e2].
    destruct (negb (estado_eqb e2 FINALIZADO)); [|apply nm_ret].
    apply nm_liga; [apply nm_no_leilao, nm_estado|intros e3]. apply nm_ret.
Qed.

Lemma nm_listar_um e di df i : nao_marca (listar_um e di df i).
Proof.
  unfold listar_um.
  apply nm_liga; [apply nm_no_leilao, nm_atualizar_estado|intros _].
  apply nm_liga.
  { destruct e as [e|]; [|apply nm_ret].
    apply nm_liga; [apply nm_no_leilao, nm_estado|intros e']. apply nm_ret. }
  intros combina. destruct (_ && _); [|apply nm_ret].
  apply nm_liga; [nm_passos|intros l]. cbv zeta. nm_passos.
Qed.

Lemma nm_listar_desde e di df n : forall i, nao_marca (listar_desde e di df n i).
Proof.
  induction n as [|n IH]; intros i; cbn [listar_desde]; [apply nm_ret|].
  apply nm_liga; [apply nm_listar_um|intros combina].
  apply nm_liga; [nm_passos|intros l].
  apply nm_liga; [apply IH|intros resto]. apply nm_ret.
Qed.

Lemma nm_listar_leiloes e di df : nao_marca (listar_leiloes e di df).
Proof.
  unfold listar_leiloes. apply nm_liga; [apply nm_obter|intros self].
  apply nm_listar_desde.
Qed.

(** ** Properties of auctions kept by the registry's operations on auctions *)

Ltac pv_passos :=
  repeat first
    [ apply preserva_ret | apply preserva_levanta | apply preserva_obter
    | apply preserva_tentar
    | apply preserva_liga; [|intro]
    | match goal with
      | |- preserva _ (if ?b then _ else _) => destruct b
      | |- preserva _ (match ?x with _ => _ end) => destruct x
      end ].

Section RegistroPreserva.
Variable P : Leilao -> Prop.
Hypothesis P_derivar : forall t l, P l -> P (derivar t l).
Hypothesis P_nome : forall n l, P l -> P (com_nome n l).
Hypothesis P_campos :
  forall q ti tf l,
    dh_antes ti tf -> P l ->
    P (com_data_termino tf (com_data_inicio ti (com_lance_minimo q l))).
Hypothesis P_novo : forall l, _lances l = [] -> P l.

Lemma pv_ganhador : preserva P Leilao_.ganhador.
Proof. intros r amb l H. rewrite ganhador_derivar. now apply P_derivar. Qed.

Lemma pv_pode : preserva P Leilao_.pode_ser_alterado_ou_excluido.
Proof. intros r amb l H. rewrite pode_executa. now apply P_derivar. Qed.

Lemma pv_maior_lance : preserva P Leilao_.maior_lance.
Proof. unfold Leilao_.maior_lance, py_max. pv_passos. Qed.

Lemma pv_buscar alvo : preserva (fun s => Forall P (_leiloes s)) (Sistema.buscar_leilao_por_nome alvo).
Proof. unfold Sistema.buscar_leilao_por_nome. pv_passos. Qed.

Lemma pv_cadastrar_leilao n m i t : preserva (fun s => Forall P (_leiloes s)) (Sistema.cadastrar_leilao n m i t).
Proof.
  intros r amb s H. rewrite cadastrar_leilao_executa.
  destruct (Sistema.indice_por_nome n (_leiloes s)); [exact H|].
  destruct (Leilao_.__init__ n m i t r amb s) as [[[novo|e] amb'] s'] eqn:E;
    [|exact H].
  apply init_ok in E. destruct E as (_ & Hvazio & _).
  cbn. apply Forall_app. split; [exact H|].
  constructor; [now apply P_novo|constructor].
Qed.

Lemma pv_alterar_leilao a n m i t : preserva (fun s => Forall P (_leiloes s)) (Sistema.alterar_leilao a n m i t).
Proof. now apply preserva_alterar_leilao. Qed.

Lemma pv_excluir_leilao alvo : preserva (fun s => Forall P (_leiloes s)) (Sistema.excluir_leilao alvo).
Proof.
  unfold Sistema.excluir_leilao.
  apply preserva_liga; [apply pv_buscar|intros [idx|]]; [|apply preserva_levanta].
  apply preserva_liga; [apply (preserva_no_leilao P), pv_pode|intros pode].
  destruct (negb pode).
  - apply preserva_liga;
      [apply (preserva_no_leilao P), preserva_obter|intros leilao].
    apply preserva_liga;
      [apply (preserva_no_leilao P), preserva_estado, P_derivar|intros e].
    apply preserva_levanta.
  - apply preserva_modificar. intros s H. cbn.
    now apply Forall_delete.
Qed.

Lemma pv_obter_ganhador_leilao n : preserva (fun s => Forall P (_leiloes s)) (obter_ganhador_leilao n).
Proof.
  unfold obter_ganhador_leilao.
  apply preserva_liga; [apply pv_buscar|intros [idx|]]; [|apply preserva_levanta].
  apply (preserva_no_leilao P), pv_ganhador.
Qed.

Lemma pv_lances : preserva P Leilao_.lances.
Proof.
  unfold Leilao_.lances.
  apply preserva_liga; [apply preserva_obter|intros; apply preserva_py_sorted].
Qed.

Lemma pv_menor_lance : preserva P Leilao_.menor_lance.
Proof. unfold Leilao_.menor_lance, py_min. pv_passos. Qed.

Lemma pv_listar_lances_leilao n :
  preserva (fun s => Forall P (_leiloes s)) (listar_lances_leilao n).
Proof.
  unfold listar_lances_leilao.
  apply preserva_liga; [apply pv_buscar|intros [idx|]]; [|apply preserva_levanta].
  apply (preserva_no_leilao P), pv_lances.
Qed.

Lemma pv_obter_maior_lance_leilao n :
  preserva (fun s => Forall P (_leiloes s)) (obter_maior_lance_leilao n).
Proof.
  unfold obter_maior_lance_leilao.
  apply preserva_liga; [apply pv_buscar|intros [idx|]]; [|apply preserva_levanta].
  apply (preserva_no_leilao P), pv_maior_lance.
Qed.

Lemma pv_obter_menor_lance_leilao n :
  preserva (fun s => Forall P (_leiloes s)) (obter_menor_lance_leilao n).
Proof.
  unfold obter_menor_lance_leilao.
  apply preserva_liga; [apply pv_buscar|intros [idx|]]; [|apply preserva_levanta].
  apply (preserva_no_leilao P), pv_menor_lance.
Qed.

Lemma pv_notificar_ganhador n : preserva (fun s => Forall P (_leiloes s)) (notificar_ganhador n).
Proof.
  unfold notificar_ganhador.
  apply preserva_liga; [apply pv_buscar|intros [idx|]]; [|apply preserva_levanta].
  apply preserva_liga; [apply (preserva_no_leilao P), pv_ganhador|intros [g|]].
  - apply preserva_liga;
      [apply (preserva_no_leilao P), pv_maior_lance|intros [ml|]];
      [|apply preserva_ret].
    apply preserva_liga;
      [apply (preserva_no_leilao P), preserva_obter|intros l]. apply preserva_ret.
  - apply preserva_liga;
      [apply (preserva_no_leilao P), preserva_estado, P_derivar|intros e1].
    destruct (estado_eqb e1 FINALIZADO); [apply preserva_ret|].
    apply preserva_liga;
      [apply (preserva_no_leilao P), preserva_estado, P_derivar|intros e2].
    destruct (negb (estado_eqb e2 FINALIZADO)); [|apply preserva_ret].
    apply preserva_liga;
      [apply (preserva_no_leilao P), preserva_estado, P_derivar|intros e3].
    apply preserva_ret.
Qed.

Lemma pv_listar_um e di df i : preserva (fun s => Forall P (_leiloes s)) (listar_um e di df i).
Proof.
  unfold listar_um.
  apply preserva_liga;
    [apply (preserva_no_leilao P), preserva_atualizar_estado, P_derivar|intros _].
  apply preserva_liga.
  { destruct e as [e|]; [|apply preserva_ret].
    apply preserva_liga;
      [apply (preserva_no_leilao P), preserva_estado, P_derivar|intros e'].
    apply preserva_ret. }
  intros combina. destruct (_ && _); [|apply preserva_ret].
  apply preserva_liga;
    [apply (preserva_no_leilao P), preserva_obter|intros l]. cbv zeta.
  apply preserva_liga; [apply preserva_dh_le|intros [|]];
    [apply preserva_dh_ge|apply preserva_ret].
Qed.

Lemma pv_listar_leiloes e di df : preserva (fun s => Forall P (_leiloes s)) (listar_leiloes e di df).
Proof.
  assert (H : forall n i, preserva (fun s => Forall P (_leiloes s)) (listar_desde e di df n i)).
  { induction n as [|n IH]; intros i; cbn [listar_desde]; [apply preserva_ret|].
    apply preserva_liga; [apply pv_listar_um|intros combina].
    apply preserva_liga;
      [apply (preserva_no_leilao P), preserva_obter|intros l].
    apply preserva_liga; [apply IH|intros resto]. apply preserva_ret. }
  unfold listar_leiloes. apply preserva_liga; [apply preserva_obter|intros self].
  apply H.
Qed.
End RegistroPreserva.


(** ** Listing the auctions *)

Lemma bool_decide_is_Some {A} (o : option A) :
  bool_decide (is_Some o) = match o with Some _ => true | None => false end.
Proof.
  destruct o.
  - apply bool_decide_eq_true_2. eauto.
  - apply bool_decide_eq_false_2. intros [? ?]; discriminate.
Qed.

(** The comparisons of [listar_leiloes] with the interval, on naive dates. *)
Lemma filtro_de_datas {S} (l : Leilao) (fi ff : Z) r amb (s : S) :
  datas_ingenuas l = true ->
  (comeca_antes <- dh_le (data_inicio l) (Ingenua ff) ;;
   if comeca_antes then dh_ge (data_termino l) (Ingenua fi) else ret false)
    r amb s
  = (Retorna ((instante (data_inicio l) <=? ff)
              && (instante (data_termino l) >=? fi)), amb, s).
Proof.
  unfold datas_ingenuas.
  destruct (data_inicio l) as [ti|]; [|discriminate].
  destruct (data_termino l) as [tf|]; [|discriminate]. intros _.
  unfold liga, dh_le, dh_ge, dh_compara, ret. cbn [instante].
  now destruct (ti <=? ff).
Qed.

Lemma listar_um_executa e di df i r amb s l :
  _leiloes s !! i = Some l ->
  datas_ingenuas l = true ->
  let l' := match e with
            | Some _ =>
                derivar (r (Datatypes.S (leituras amb)))
                  (derivar (r (leituras amb)) l)
            | None => derivar (r (leituras amb)) l
            end in
  listar_um e di df i r amb s
  = (Retorna (atende e di df l'), tiques (leituras_por_leilao e) amb,
     {| _leiloes := <[i := l']> (_leiloes s) |}).
Proof.
  intros Hl Hd l'. unfold listar_um.
  assert (Hlen : (i < length (_leiloes s))%nat)
    by (eapply lookup_lt_Some; eauto).
  assert (Hd' : datas_ingenuas l' = true)
    by (unfold l'; destruct e; now rewrite !derivar_datas_ingenuas).
  unfold liga at 1.
  rewrite (no_leilao_executa i _ r amb s l Hl), atualizar_estado_derivar.
  rewrite (deriva_ingenuas _ _ Hd). cbn [fst snd se_deriva].
  set (l1 := derivar (r (leituras amb)) l).
  set (s1 := {| _leiloes := <[i := l1]> (_leiloes s) |}).
  assert (H1 : _leiloes s1 !! i = Some l1)
    by (cbn; now apply list_lookup_insert_eq).
  destruct e as [e|]; unfold liga at 1.
  - unfold liga at 1.
    rewrite (no_leilao_executa i _ r (tique amb) s1 l1 H1), estado_derivar.
    rewrite deriva_ingenuas by (unfold l1; now rewrite derivar_datas_ingenuas).
    cbn [fst snd tique leituras ret se_deriva].
    change (derivar (r (Datatypes.S (leituras amb))) l1) with l'.
    subst s1. cbn [_leiloes]. rewrite list_insert_insert_eq.
    set (s2 := {| _leiloes := <[i := l']> (_leiloes s) |}).
    assert (H2 : _leiloes s2 !! i = Some l')
      by (cbn; now apply list_lookup_insert_eq).
    unfold atende, tiques, leituras_por_leilao. cbn [leituras ofertantes].
    destruct (estado_eqb (_estado l') e); cbn [andb]; [|reflexivity].
    destruct di as [d1|], df as [d2|]; cbn [from_option];
      rewrite !bool_decide_is_Some; cbn [orb];
      try (unfold liga at 1;
           erewrite (no_leilao_consulta i obter) by (try exact H2; reflexivity);
           cbv zeta; now rewrite filtro_de_datas);
      reflexivity.
  - cbn [ret]. subst l'. fold l1. fold l1 in Hd'.
    unfold atende, tiques, leituras_por_leilao. cbn [leituras ofertantes andb].
    destruct di as [d1|], df as [d2|]; cbn [from_option];
      rewrite !bool_decide_is_Some; cbn [orb];
      try (unfold liga at 1;
           erewrite (no_leilao_consulta i obter) by (try exact H1; reflexivity);
           cbv zeta; now rewrite filtro_de_datas);
      reflexivity.
Qed.

Lemma derivados_length e r k ls : length (derivados e r k ls) = length ls.
Proof.
  revert k. induction ls as [|l ls IH]; intros k; [reflexivity|].
  destruct e; cbn; now rewrite IH.
Qed.

Lemma tiques_tiques n m amb : tiques n (tiques m amb) = tiques (n + m) amb.
Proof. unfold tiques. cbn. f_equal. lia. Qed.

Lemma tiques_0 amb : tiques 0 amb = amb.
Proof. now destruct amb. Qed.

Lemma listar_desde_executa e di df ls : forall pre r amb,
  Forall (fun l => datas_ingenuas l = true) ls ->
  listar_desde e di df (length ls) (length pre) r amb
    {| _leiloes := pre ++ ls |}
  = (Retorna (List.filter (atende e di df)
                (derivados e r (leituras amb) ls)),
     tiques (leituras_por_leilao e * length ls) amb,
     {| _leiloes := pre ++ derivados e r (leituras amb) ls |}).
Proof.
  induction ls as [|l ls IH]; intros pre r amb Hd.
  - cbn [listar_desde length derivados List.filter]. rewrite Nat.mul_0_r.
    now rewrite tiques_0.
  - apply Forall_cons in Hd. destruct Hd as [Hdl Hd].
    cbn [listar_desde length]. unfold liga at 1.
    assert (Hl : _leiloes {| _leiloes := pre ++ l :: ls |} !! length pre = Some l)
      by (cbn; apply list_lookup_middle; reflexivity).
    rewrite (listar_um_executa e di df _ r amb _ l Hl Hdl). cbv zeta.
    cbn [_leiloes]. rewrite insert_app_r_alt by lia.
    rewrite Nat.sub_diag. cbn [insert list_insert].
    set (l' := match e with
               | Some _ => derivar (r (Datatypes.S (leituras amb)))
                             (derivar (r (leituras amb)) l)
               | None => derivar (r (leituras amb)) l
               end).
    unfold liga at 1.
    erewrite (no_leilao_consulta (length pre) obter)
      by (try reflexivity; cbn; apply list_lookup_middle; reflexivity).
    unfold liga at 1.
    replace (pre ++ l' :: ls) with ((pre ++ [l']) ++ ls)
      by (now rewrite <- app_assoc).
    replace (Datatypes.S (length pre)) with (length (pre ++ [l']))
      by (rewrite length_app; cbn; lia).
    rewrite IH by exact Hd. cbn [ret]. rewrite tiques_tiques, <- app_assoc.
    replace (leituras_por_leilao e * length ls + leituras_por_leilao e)%nat
      with (leituras_por_leilao e * Datatypes.S (length ls))%nat by lia.
    subst l'. destruct e as [e|]; reflexivity.
Qed.

Lemma listar_leiloes_executa e di df r amb s :
  Forall (fun l => datas_ingenuas l = true) (_leiloes s) ->
  listar_leiloes e di df r amb s
  = (Retorna (List.filter (atende e di df)
                (derivados e r (leituras amb) (_leiloes s))),
     tiques (leituras_por_leilao e * length (_leiloes s)) amb,
     {| _leiloes := derivados e r (leituras amb) (_leiloes s) |}).
Proof.
  intros Hd. unfold listar_leiloes, liga, obter. destruct s as [ls].
  cbn [_leiloes] in *.
  exact (listar_desde_executa e di df ls [] r amb Hd).
Qed.

Lemma derivados_mesmos_campos e r ls : forall k,
  Forall2 mesmos_campos ls (derivados e r k ls).
Proof.
  induction ls as [|l ls IH]; intros k; [constructor|].
  destruct e as [e|]; cbn [derivados]; constructor; try apply IH.
  - eapply mesmos_campos_trans; apply mesmos_campos_derivar.
  - apply mesmos_campos_derivar.
Qed.

Lemma derivados_relogio_fixo e r agora ls : forall k,
  (forall n, r n = agora) ->
  derivados e r k ls = derivar agora <$> ls.
Proof.
  intros k Hr. revert k.
  induction ls as [|l ls IH]; intros k; [reflexivity|].
  destruct e as [e|]; cbn [derivados fmap list_fmap];
    rewrite ?Hr, ?derivar_idem; f_equal; apply IH.
Qed.

(** X16. On a registry whose auctions all have naive dates,
    [listar_leiloes] returns.  It derives the state of every auction of the
    registry, listed or not, reading the clock once per auction, or twice
    when a state is asked for, and changes nothing else of them.  It returns,
    in registry order, exactly the auctions whose derived state is the one
    asked for (if any) and whose window meets the interval of days asked for
    (if any).  Without filters it returns every auction, and under a clock
    that stands still the auctions are left as one [atualizar_estado] at that
    instant leaves them. *)
Theorem X16_listar_leiloes
  (e : option EstadoLeilao) (di df : option Z) (r : Relogio) (amb : Ambiente)
  (s : SistemaLeiloes) :
  Forall (fun l => datas_ingenuas l = true) (_leiloes s) ->
  let ls' := derivados e r (leituras amb) (_leiloes s) in
  listar_leiloes e di df r amb s
  = (Retorna (List.filter (atende e di df) ls'),
     tiques (leituras_por_leilao e * length (_leiloes s)) amb,
     {| _leiloes := ls' |})
  /\ Forall2 mesmos_campos (_leiloes s) ls'
  /\ (forall l, l ∈ List.filter (atende e di df) ls' <->
        l ∈ ls'
        /\ (forall e', e = Some e' -> _estado l = e')
        /\ (forall d, di = Some d -> combine_min d <= instante (data_termino l))
        /\ (forall d, df = Some d -> instante (data_inicio l) <= combine_max d)
        /\ (di = None -> is_Some df -> datetime_min <= instante (data_termino l))
        /\ (df = None -> is_Some di -> instante (data_inicio l) <= datetime_max))
  /\ fst (fst (listar_leiloes None None None r amb s))
     = Retorna (_leiloes (snd (listar_leiloes None None None r amb s)))
  /\ (forall agora, (forall n, r n = agora) ->
        ls' = derivar agora <$> _leiloes s).
Proof.
  intros Hd ls'. split; [now apply listar_leiloes_executa|].
  split; [apply derivados_mesmos_campos|].
  split; [|split].
  - intros l. rewrite list_elem_of_In, List.filter_In, <- list_elem_of_In.
    unfold atende. rewrite andb_true_iff.
    assert (He : match e with
                 | Some e' => estado_eqb (_estado l) e'
                 | None => true
                 end = true
                 <-> forall e', e = Some e' -> _estado l = e').
    { destruct e as [e0|]; [|split; [discriminate|reflexivity]].
      split.
      - intros H e' [= <-]. destruct (_estado l), e0; cbn in H; congruence.
      - intros H. rewrite (H e0 eq_refl). now destruct e0. }
    rewrite He. clear He.
    destruct di as [d1|], df as [d2|]; cbn [from_option];
      rewrite ?andb_true_iff, ?Z.leb_le, ?Z.geb_le;
      (split;
       [ intros (Hin & HE & Hd'); repeat split;
         try assumption; try discriminate;
         try (intros ? [= <-]); try (intros _ [? [=]]); try tauto
       | intros (Hin & HE & H1 & H2 & H3 & H4); repeat split;
         try assumption; try (apply H1; reflexivity);
         try (apply H2; reflexivity);
         try (apply H3; [reflexivity|eauto]);
         try (apply H4; [reflexivity|eauto]) ]).
  - rewrite listar_leiloes_executa by exact Hd. cbn [fst snd _leiloes]. f_equal.
    induction (derivados None r (leituras amb) (_leiloes s)) as [|x xs IH];
      [reflexivity|].
    cbn. now rewrite IH.
  - intros agora Hr. now apply derivados_relogio_fixo.
Qed.

(** Two auctions of the same window, one with a bid, listed by state while
    the window is open. *)
Lemma X16_witness :
  Forall (fun l => datas_ingenuas l = true)
    [leilao_10_20 [] INATIVO None; leilao_10_20 [lance_de alice 110] FINALIZADO (Some alice)]
  /\ fst (fst (listar_leiloes (Some ABERTO) None None (relogio_fixo 15) amb0
                 {| _leiloes := [leilao_10_20 [] INATIVO None;
                                 leilao_10_20 [lance_de alice 110] FINALIZADO
                                   (Some alice)] |}))
     = Retorna [leilao_10_20 [] ABERTO None].
Proof.
  assert (H : Forall (fun l => datas_ingenuas l = true)
                [leilao_10_20 [] INATIVO None;
                 leilao_10_20 [lance_de alice 110] FINALIZADO (Some alice)])
    by (repeat constructor).
  split; [exact H|].
  destruct (X16_listar_leiloes (Some ABERTO) None None (relogio_fixo 15) amb0
              {| _leiloes := [leilao_10_20 [] INATIVO None;
                              leilao_10_20 [lance_de alice 110] FINALIZADO
                                (Some alice)] |} H) as [H1 _].
  rewrite H1. reflexivity.
Defined.

(** An auction left with aware dates by a failed [alterar_leilao] makes
    [listar_leiloes] raise TypeError. *)
Example X16_datas_cientes :
  let s := snd (Sistema.alterar_leilao (VStr "Console") VNone VNone
                  (VDatetime (Ciente 30)) (VDatetime (Ciente 40))
                  (relogio_fixo 5) amb0
                  {| _leiloes := [leilao_10_20 [] INATIVO None] |}) in
  fst (fst (listar_leiloes None None None (relogio_fixo 5) amb0 s))
  = Levanta erro_de_fuso.
Proof. reflexivity. Qed.

(** ** The participants of the registry *)

Lemma cadastrar_participante_casos o_n o_c o_e o_d r amb s :
  let s1 := {| _participantes := _participantes s;
               leiloes_do_sistema := leiloes_do_sistema s;
               proximo_objeto := Datatypes.S (proximo_objeto s) |} in
  (exists msg,
      cadastrar_participante o_n o_c o_e o_d r amb s
      = (Levanta (ValueError msg), amb, s1)
      /\ (negb (verdade o_n) || negb (e_str o_n) = true
          \/ Participante_._validar_cpf o_c = false
          \/ Participante_._validar_email o_e = false
          \/ e_date o_d = false))
  \/ (exists n c e,
        o_n = OValor (VStr n) /\ n <> ""%string
        /\ o_c = OValor (VStr c) /\ String.length (so_digitos c) = 11%nat
        /\ o_e = OValor (VStr e) /\ Participante_._validar_email o_e = true
        /\ e_date o_d = true
        /\ cadastrar_participante o_n o_c o_e o_d r amb s
           = let p := {| pid := proximo_objeto s; nome_p := n;
                         cpf := so_digitos c; email := e |} in
             let amb' := {| leituras := leituras amb;
                            ofertantes :=
                              ofertantes amb ∖ {[ proximo_objeto s ]} |} in
             if bool_decide (is_Some (_participantes s !! so_digitos c)) then
               (Retorna (ParticipanteInvalido
                           ("CPF " ++ so_digitos c ++ " já cadastrado.")),
                amb', s1)
             else if bool_decide
                       (map_Exists (fun _ q => email q = e) (_participantes s))
             then
               (Retorna (ParticipanteInvalido
                           ("Email " ++ e ++ " já cadastrado.")),
                amb', s1)
             else
               (Retorna (Normal p), amb',
                com_participantes (<[so_digitos c := p]> (_participantes s)) s1)).
Proof.
  intros s1.
  assert (Hx : forall k : nat -> M SistemaCompleto (Saida Participante),
             liga novo_objeto k r amb s = k (proximo_objeto s) r amb s1)
    by reflexivity.
  unfold cadastrar_participante. rewrite Hx. clear Hx.
  destruct (participante_init_casos (proximo_objeto s) o_n o_c o_e o_d r amb s1)
    as [(msg & E & H)|(n & c & e & Hn & Hn' & Hc & Hc' & He & He' & Hd & E)].
  - left. exists msg. split; [|exact H]. unfold liga at 1. now rewrite E.
  - right. exists n, c, e. repeat split; try assumption.
    unfold liga at 1. rewrite E. cbn [cpf email]. cbv zeta.
    unfold liga at 1. unfold obter at 1. cbn [_participantes s1].
    destruct (bool_decide (is_Some (_participantes s !! so_digitos c)));
      [reflexivity|].
    destruct (bool_decide
                (map_Exists (fun _ q => email q = e) (_participantes s)));
      reflexivity.
Qed.

Lemma excluir_participante_executa o r amb s :
  excluir_participante o r amb s
  = let k := _formatar_cpf_busca o in
    match _participantes s !! k with
    | None =>
        (Retorna (ParticipanteInvalido
                    ("Participante com CPF " ++ k ++ " não encontrado.")),
         amb, s)
    | Some p =>
        if bool_decide (pid p ∉ ofertantes amb) then
          (Retorna (Normal tt), amb,
           com_participantes (delete k (_participantes s)) s)
        else
          (Retorna (ParticipanteInvalido
                      ("Participante " ++ nome_p p ++ " (CPF: " ++ k
                         ++ ") não pode ser excluído pois possui lances registrados.")),
           amb, s)
    end.
Proof.
  unfold excluir_participante, buscar_participante_por_cpf.
  unfold liga, obter, ret, pode_ser_excluido, modificar. cbv zeta.
  destruct (_participantes s !! _formatar_cpf_busca o) as [p|]; [|reflexivity].
  destruct (bool_decide (pid p ∉ ofertantes amb)); reflexivity.
Qed.

Lemma lance_init_casos {S} p ov r amb (s : S) :
  (exists e, Lance_.__init__ (OParticipante p) ov r amb s = (Levanta e, amb, s)
             /\ ((exists msg, e = ValueError msg)
                 /\ (forall v, ov = OValor v ->
                       isinstance_int_float v = false \/ py_le_0 v = true)
                 \/ e = OverflowError "int too large to convert to float"
                    /\ exists z, ov = OValor (VInt z) /\ py_le_0 (VInt z) = false
                                 /\ float_de_int z = None))
  \/ (exists v q, ov = OValor v /\ isinstance_int_float v = true
                  /\ py_le_0 v = false /\ float_de v = Retorna q
                  /\ Lance_.__init__ (OParticipante p) ov r amb s
                     = (Retorna {| participante := p; valor := q |}, amb, s)).
Proof.
  unfold Lance_.__init__.
  destruct ov as [v|d|p'];
    [|left; eexists; split; [reflexivity|]; left; split; [eauto|];
      intros v [=] ..].
  destruct (negb (isinstance_int_float v) || py_le_0 v) eqn:E.
  { left. eexists. split; [reflexivity|]. left. split; [eauto|].
    intros v' [= <-]. apply orb_true_iff in E.
    destruct E as [E|E]; [left; now apply negb_true_iff in E|now right]. }
  apply orb_false_iff in E. destruct E as [E1 E2].
  apply negb_false_iff in E1.
  unfold liga, py_float. destruct (float_de v) as [q|e] eqn:Eq.
  - right. exists v, q. repeat split; assumption.
  - left. eexists. split; [reflexivity|]. right.
    destruct v; cbn in E1, Eq; try discriminate.
    destruct (float_de_int z) eqn:Ez; [discriminate|]. injection Eq as <-.
    split; [reflexivity|]. exists z. auto.
Qed.

Lemma propor_lance_sistema_executa o_cpf n ov r amb s :
  propor_lance_sistema o_cpf n ov r amb s
  = match _participantes s !! _formatar_cpf_busca o_cpf with
    | None => (Retorna (ParticipanteInvalido "Participante não encontrado."),
               amb, s)
    | Some p =>
        match Sistema.indice_por_nome n (_leiloes (leiloes_do_sistema s)) with
        | None => (Levanta (LeilaoInvalido "Leilão não encontrado."), amb, s)
        | Some i =>
            match Lance_.__init__ (OParticipante p) ov r amb s with
            | (Retorna b, _, _) =>
                match nos_leiloes
                        (no_leilao i (Leilao_.propor_lance (VLance b))) r amb s
                with
                | (Retorna _, amb', s') => (Retorna (Normal tt), amb', s')
                | (Levanta e, amb', s') => (Levanta e, amb', s')
                end
            | (Levanta e, _, _) => (Levanta e, amb, s)
            end
        end
    end.
Proof.
  unfold propor_lance_sistema, buscar_participante_por_cpf.
  unfold liga at 1. unfold liga at 1. unfold obter at 1, ret at 1.
  destruct (_participantes s !! _formatar_cpf_busca o_cpf) as [p|];
    [|reflexivity].
  unfold liga at 1.
  unfold nos_leiloes at 1, Sistema.buscar_leilao_por_nome, liga at 1,
    obter at 1, ret at 1.
  destruct s as [ps sl prox]. cbn [leiloes_do_sistema _participantes proximo_objeto].
  destruct (Sistema.indice_por_nome n (_leiloes sl)) as [i|]; [|reflexivity].
  unfold liga at 1.
  destruct (lance_init_casos p ov r amb
              {| _participantes := ps; leiloes_do_sistema := sl;
                 proximo_objeto := prox |})
    as [(e & -> & _)|(v & q & _ & _ & _ & _ & ->)]; [reflexivity|].
  unfold liga at 1.
  destruct (nos_leiloes _ r amb _) as [[[u|e] amb'] s']; reflexivity.
Qed.

(** ** The registry invariant *)

Lemma registro_vazio amb ident : registro_ok amb (sistema_completo_vazio ident).
Proof.
  constructor; cbn.
  - intros k p H. now rewrite lookup_empty in H.
  - intros k1 k2 p1 p2 H. now rewrite lookup_empty in H.
  - intros k1 k2 p1 p2 H. now rewrite lookup_empty in H.
  - intros l b H. inversion H.
Qed.

(** More objects built, and flags that are only set for the participants
    built so far. *)
Lemma registro_ok_mono amb amb' s s' :
  registro_ok amb s ->
  _participantes s' = _participantes s ->
  leiloes_do_sistema s' = leiloes_do_sistema s ->
  (proximo_objeto s <= proximo_objeto s')%nat ->
  (forall i, (i < proximo_objeto s)%nat ->
             i ∈ ofertantes amb -> i ∈ ofertantes amb') ->
  registro_ok amb' s'.
Proof.
  intros [Hc He Hi Hl] Hp Hls Hprox Hof.
  constructor; rewrite ?Hp, ?Hls.
  - intros k p H. destruct (Hc k p H) as (H1 & H2 & H3 & H4).
    repeat split; try assumption. lia.
  - exact He.
  - exact Hi.
  - intros l b Hin Hb. destruct (Hl l b Hin Hb) as [H1 H2].
    split; [exact H1|]. apply Hof; [|exact H2].
    now destruct (Hc _ _ H1) as (_ & _ & _ & H4).
Qed.

Lemma registro_ok_insert amb amb' s s' p :
  registro_ok amb s ->
  _participantes s !! cpf p = None ->
  ~ map_Exists (fun _ q => email q = email p) (_participantes s) ->
  String.length (cpf p) = 11%nat -> so_digitos (cpf p) = cpf p ->
  pid p = proximo_objeto s ->
  ofertantes amb' = ofertantes amb ∖ {[ pid p ]} ->
  _participantes s' = <[cpf p := p]> (_participantes s) ->
  leiloes_do_sistema s' = leiloes_do_sistema s ->
  proximo_objeto s' = Datatypes.S (proximo_objeto s) ->
  registro_ok amb' s'.
Proof.
  intros [Hc He Hi Hl] Hnovo Hemail Hlen Hdig Hpid Hof Hp Hls Hprox.
  assert (Hem : forall k q, _participantes s !! k = Some q -> email q <> email p).
  { intros k q Hq Heq. apply Hemail. apply map_Exists_lookup. eauto. }
  constructor; rewrite ?Hp, ?Hls, ?Hprox.
  - intros k q H. apply lookup_insert_Some in H.
    destruct H as [[<- <-]|[Hne H]].
    + repeat split; try assumption. lia.
    + destruct (Hc k q H) as (H1 & H2 & H3 & H4).
      repeat split; try assumption. lia.
  - intros k1 k2 p1 p2 H1 H2 Heq.
    apply lookup_insert_Some in H1. apply lookup_insert_Some in H2.
    destruct H1 as [[<- <-]|[Hn1 H1]], H2 as [[<- <-]|[Hn2 H2]].
    + reflexivity.
    + exfalso. now apply (Hem k2 p2 H2).
    + exfalso. now apply (Hem k1 p1 H1).
    + now apply (He k1 k2 p1 p2).
  - intros k1 k2 p1 p2 H1 H2 Heq.
    apply lookup_insert_Some in H1. apply lookup_insert_Some in H2.
    destruct H1 as [[<- <-]|[Hn1 H1]], H2 as [[<- <-]|[Hn2 H2]].
    + reflexivity.
    + exfalso. destruct (Hc k2 p2 H2) as (_ & _ & _ & H4). lia.
    + exfalso. destruct (Hc k1 p1 H1) as (_ & _ & _ & H4). lia.
    + now apply (Hi k1 k2 p1 p2).
  - intros l b Hin Hb. destruct (Hl l b Hin Hb) as [H1 H2].
    assert (Hne : cpf p <> cpf (participante b)).
    { intros Heq. rewrite Heq in Hnovo. congruence. }
    split.
    + now rewrite lookup_insert_ne.
    + rewrite Hof. apply elem_of_difference. split; [exact H2|].
      intros Hs. apply elem_of_singleton in Hs.
      destruct (Hc _ _ H1) as (_ & _ & _ & H4). lia.
Qed.

Lemma registro_ok_delete amb s s' k p :
  registro_ok amb s ->
  _participantes s !! k = Some p -> pid p ∉ ofertantes amb ->
  _participantes s' = delete k (_participantes s) ->
  leiloes_do_sistema s' = leiloes_do_sistema s ->
  proximo_objeto s' = proximo_objeto s ->
  registro_ok amb s'.
Proof.
  intros [Hc He Hi Hl] Hk Hlivre Hp Hls Hprox.
  constructor; rewrite ?Hp, ?Hls, ?Hprox.
  - intros k' q H. apply lookup_delete_Some in H. destruct H as [_ H].
    now apply Hc.
  - intros k1 k2 p1 p2 H1 H2.
    apply lookup_delete_Some in H1. apply lookup_delete_Some in H2.
    destruct H1 as [_ H1], H2 as [_ H2]. now apply He.
  - intros k1 k2 p1 p2 H1 H2.
    apply lookup_delete_Some in H1. apply lookup_delete_Some in H2.
    destruct H1 as [_ H1], H2 as [_ H2]. now apply Hi.
  - intros l b Hin Hb. destruct (Hl l b Hin Hb) as [H1 H2].
    split; [|exact H2]. apply lookup_delete_Some. split; [|exact H1].
    intros Heq. rewrite <- Heq, Hk in H1. injection H1 as Hpp. subst p.
    contradiction.
Qed.

Lemma cadastrar_participante_registro o_n o_c o_e o_d r amb s :
  registro_ok amb s ->
  registro_ok (snd (fst (cadastrar_participante o_n o_c o_e o_d r amb s)))
              (snd (cadastrar_participante o_n o_c o_e o_d r amb s)).
Proof.
  intros Hok.
  destruct (cadastrar_participante_casos o_n o_c o_e o_d r amb s)
    as [(msg & -> & _)|(n & c & e & _ & _ & _ & Hc & _ & _ & _ & ->)];
    cbv zeta; cbn [fst snd].
  - apply (registro_ok_mono amb amb s); try reflexivity; auto. cbn. lia.
  - assert (Hfica :
      registro_ok
        {| leituras := leituras amb;
           ofertantes := ofertantes amb ∖ {[ proximo_objeto s ]} |}
        {| _participantes := _participantes s;
           leiloes_do_sistema := leiloes_do_sistema s;
           proximo_objeto := Datatypes.S (proximo_objeto s) |}).
    { apply (registro_ok_mono amb _ s); try reflexivity; auto; cbn; [lia|].
      intros i Hi Hin. apply elem_of_difference. split; [exact Hin|].
      intros Hs. apply elem_of_singleton in Hs. lia. }
    destruct (bool_decide (is_Some (_participantes s !! so_digitos c))) eqn:E1;
      cbn [fst snd]; [exact Hfica|].
    destruct (bool_decide
                (map_Exists (fun _ q => email q = e) (_participantes s))) eqn:E2;
      cbn [fst snd]; [exact Hfica|].
    apply bool_decide_eq_false in E1. apply bool_decide_eq_false in E2.
    eapply (registro_ok_insert amb _ s _
              {| pid := proximo_objeto s; nome_p := n; cpf := so_digitos c;
                 email := e |});
      cbn [cpf email pid ofertantes]; try reflexivity; try assumption.
    + destruct (_participantes s !! so_digitos c) eqn:El; [|reflexivity].
      exfalso. apply E1. eauto.
    + apply so_digitos_idem.
Qed.

Lemma excluir_participante_registro o r amb s :
  registro_ok amb s ->
  registro_ok (snd (fst (excluir_participante o r amb s)))
              (snd (excluir_participante o r amb s)).
Proof.
  intros Hok. rewrite excluir_participante_executa. cbv zeta.
  destruct (_participantes s !! _formatar_cpf_busca o) as [p|] eqn:E;
    [|exact Hok].
  destruct (bool_decide (pid p ∉ ofertantes amb)) eqn:E1; [|exact Hok].
  apply bool_decide_eq_true in E1. cbn [fst snd].
  eapply registro_ok_delete; eauto.
Qed.

Lemma propor_lance_lances r amb l v :
  (forall i, i ∈ ofertantes amb ->
             i ∈ ofertantes (snd (fst (Leilao_.propor_lance v r amb l))))
  /\ (forall b, b ∈ _lances (snd (Leilao_.propor_lance v r amb l)) ->
        b ∈ _lances l
        \/ (v = VLance b
            /\ pid (participante b)
               ∈ ofertantes (snd (fst (Leilao_.propor_lance v r amb l))))).
Proof.
  destruct (Leilao_.propor_lance v r amb l) as [[res amb'] l'] eqn:E.
  pose proof (C := E). cbn [fst snd].
  destruct res as [u|e].
  - destruct u. apply propor_lance_retorna in E.
    destruct E as (b0 & l3 & -> & _ & _ & (_ & _ & _ & _ & El) & _ & -> & ->).
    split.
    + intros i Hi. cbn. apply elem_of_union. now right.
    + intros b Hb. cbn in Hb. apply elem_of_app in Hb.
      destruct Hb as [Hb|Hb]; [left; now rewrite El in Hb|].
      apply list_elem_of_singleton in Hb. subst b0. right.
      split; [reflexivity|]. cbn. apply elem_of_union. left.
      now apply elem_of_singleton.
  - clear C. assert (Hl : _lances l' = _lances l /\ ofertantes amb' = ofertantes amb).
    { revert E. rewrite propor_lance_derivar. cbv zeta.
      repeat match goal with
             | |- context [if ?b then _ else _] => destruct b
             | |- context [match ?x with _ => _ end] => destruct x
             end;
        intros [= <- <- <-]; cbn [tique ofertantes];
        rewrite ?derivar_lances; split; reflexivity. }
    destruct Hl as [Hl Ho]. rewrite Hl, Ho. split; auto.
Qed.

Lemma registro_ok_lance amb amb' s s' i l l' p :
  registro_ok amb s ->
  _participantes s !! cpf p = Some p ->
  _leiloes (leiloes_do_sistema s) !! i = Some l ->
  (forall j, j ∈ ofertantes amb -> j ∈ ofertantes amb') ->
  (forall b, b ∈ _lances l' ->
             b ∈ _lances l \/ (participante b = p /\ pid p ∈ ofertantes amb')) ->
  _participantes s' = _participantes s ->
  _leiloes (leiloes_do_sistema s')
  = <[i := l']> (_leiloes (leiloes_do_sistema s)) ->
  proximo_objeto s' = proximo_objeto s ->
  registro_ok amb' s'.
Proof.
  intros [Hc He Hi Hl] Hp Hli Hof Hnovos Eps Els Eprox.
  constructor; rewrite ?Eps, ?Els, ?Eprox; try assumption.
  intros l0 b Hin Hb.
  apply list_elem_of_lookup in Hin. destruct Hin as [j Hj].
  apply list_lookup_insert_Some in Hj.
  destruct Hj as [(<- & <- & _)|[Hne Hj]].
  - destruct (Hnovos b Hb) as [Hvelho|[-> Hmarca]].
    + destruct (Hl l b) as [H1 H2]; [eapply list_elem_of_lookup_2; eauto|exact Hvelho|].
      split; [exact H1|now apply Hof].
    + split; [exact Hp|exact Hmarca].
  - destruct (Hl l0 b) as [H1 H2]; [eapply list_elem_of_lookup_2; eauto|exact Hb|].
    split; [exact H1|now apply Hof].
Qed.

Lemma propor_lance_sistema_registro o n ov r amb s :
  registro_ok amb s ->
  registro_ok (snd (fst (propor_lance_sistema o n ov r amb s)))
              (snd (propor_lance_sistema o n ov r amb s)).
Proof.
  intros Hok. rewrite propor_lance_sistema_executa.
  destruct (_participantes s !! _formatar_cpf_busca o) as [p|] eqn:Ep;
    [|exact Hok].
  destruct (Sistema.indice_por_nome n (_leiloes (leiloes_do_sistema s)))
    as [i|] eqn:Ei; [|exact Hok].
  destruct (lance_init_casos p ov r amb s)
    as [(e & -> & _)|(v & q & _ & _ & _ & _ & ->)]; [exact Hok|].
  destruct (indice_por_nome_Some _ _ _ Ei) as (l & Hl & _).
  assert (Hreg : _participantes s !! cpf p = Some p).
  { destruct (reg_chave _ _ Hok _ _ Ep) as (-> & _). exact Ep. }
  unfold nos_leiloes.
  rewrite (no_leilao_executa i _ r amb (leiloes_do_sistema s) l Hl).
  destruct (propor_lance_lances r amb l
              (VLance {| participante := p; valor := q |})) as [Hof Hnovos].
  destruct (Leilao_.propor_lance _ r amb l) as [[res amb'] l'].
  cbn [fst snd] in *.
  assert (Hfim : forall s',
             _participantes s' = _participantes s ->
             _leiloes (leiloes_do_sistema s')
             = <[i := l']> (_leiloes (leiloes_do_sistema s)) ->
             proximo_objeto s' = proximo_objeto s ->
             registro_ok amb' s').
  { intros s' E1 E2 E3.
    apply (registro_ok_lance amb amb' s s' i l l' p); try assumption.
    intros b Hb. destruct (Hnovos b Hb) as [Hv|[Hv Hm]]; [now left|].
    injection Hv as <-. right. split; [reflexivity|exact Hm]. }
  destruct res; cbn [fst snd]; apply Hfim; reflexivity.
Qed.

Lemma registro_nos_leiloes {A} (m : M SistemaLeiloes A) r amb s :
  nao_marca m ->
  (forall P : Leilao -> Prop,
      (forall t l, P l -> P (derivar t l)) ->
      (forall n l, P l -> P (com_nome n l)) ->
      (forall q ti tf l,
          dh_antes ti tf -> P l ->
          P (com_data_termino tf (com_data_inicio ti (com_lance_minimo q l)))) ->
      (forall l, _lances l = [] -> P l) ->
      preserva (fun sl => Forall P (_leiloes sl)) m) ->
  registro_ok amb s ->
  registro_ok (snd (fst (nos_leiloes m r amb s)))
              (snd (nos_leiloes m r amb s)).
Proof.
  intros Hnm Hpv [Hc He Hi Hl]. unfold nos_leiloes.
  specialize (Hnm r amb (leiloes_do_sistema s)).
  specialize
    (Hpv (fun l => forall b, b ∈ _lances l ->
                     _participantes s !! cpf (participante b)
                     = Some (participante b)
                     /\ pid (participante b) ∈ ofertantes amb)).
  assert (Hfim : Forall
                   (fun l => forall b, b ∈ _lances l ->
                      _participantes s !! cpf (participante b)
                      = Some (participante b)
                      /\ pid (participante b) ∈ ofertantes amb)
                   (_leiloes (snd (m r amb (leiloes_do_sistema s))))).
  { apply Hpv.
    - intros t l H b. rewrite derivar_lances. apply H.
    - intros n l H. exact H.
    - intros q ti tf l _ H. exact H.
    - intros l Hv b Hb. rewrite Hv in Hb. inversion Hb.
    - apply Forall_forall. intros l Hin b Hb. now apply (Hl l b). }
  destruct (m r amb (leiloes_do_sistema s)) as [[res amb'] sl'].
  cbn [fst snd] in *.
  constructor; cbn [_participantes leiloes_do_sistema proximo_objeto];
    try assumption.
  intros l b Hin Hb. rewrite Hnm.
  rewrite Forall_forall in Hfim. now apply (Hfim l Hin b).
Qed.

Lemma tentar_estado {S A} (m : M S A) r amb s :
  snd (fst (tentar m r amb s)) = snd (fst (m r amb s))
  /\ snd (tentar m r amb s) = snd (m r amb s).
Proof. unfold tentar. now destruct (m r amb s) as [[res amb'] s']. Qed.

Lemma chamar_sistema_registro c r amb s :
  registro_ok amb s ->
  registro_ok (snd (fst (chamar_sistema c r amb s)))
              (snd (chamar_sistema c r amb s)).
Proof.
  intros Hok.
  destruct c; cbn [chamar_sistema];
    repeat match goal with
           | |- context [tentar ?m r amb s] =>
               destruct (tentar_estado m r amb s) as [-> ->]
           end.
  - now apply cadastrar_participante_registro.
  - now apply excluir_participante_registro.
  - apply registro_nos_leiloes; [apply nm_cadastrar_leilao| |exact Hok].
    intros P H1 H2 H3 H4. now apply pv_cadastrar_leilao.
  - apply registro_nos_leiloes; [apply nm_alterar_leilao| |exact Hok].
    intros P H1 H2 H3 H4. now apply pv_alterar_leilao.
  - apply registro_nos_leiloes; [apply nm_excluir_leilao| |exact Hok].
    intros P H1 H2 H3 H4. now apply pv_excluir_leilao.
  - apply registro_nos_leiloes; [apply nm_listar_leiloes| |exact Hok].
    intros P H1 H2 H3 H4. now apply pv_listar_leiloes.
  - now apply propor_lance_sistema_registro.
  - apply registro_nos_leiloes; [apply nm_obter_ganhador_leilao| |exact Hok].
    intros P H1 H2 H3 H4. now apply pv_obter_ganhador_leilao.
  - apply registro_nos_leiloes; [apply nm_notificar_ganhador| |exact Hok].
    intros P H1 H2 H3 H4. now apply pv_notificar_ganhador.
  - exact Hok.
  - apply registro_nos_leiloes; [apply nm_buscar| |exact Hok].
    intros P H1 H2 H3 H4. now apply pv_buscar.
  - apply registro_nos_leiloes; [apply nm_listar_lances_leilao| |exact Hok].
    intros P H1 H2 H3 H4. now apply pv_listar_lances_leilao.
  - apply registro_nos_leiloes; [apply nm_obter_maior_lance_leilao| |exact Hok].
    intros P H1 H2 H3 H4. now apply pv_obter_maior_lance_leilao.
  - apply registro_nos_leiloes; [apply nm_obter_menor_lance_leilao| |exact Hok].
    intros P H1 H2 H3 H4. now apply pv_obter_menor_lance_leilao.
Qed.

Lemma chamar_sistema_todas_registro cs : forall r amb s,
  registro_ok amb s ->
  registro_ok (snd (fst (chamar_sistema_todas cs r amb s)))
              (snd (chamar_sistema_todas cs r amb s)).
Proof.
  induction cs as [|c cs IH]; intros r amb s Hok; [exact Hok|].
  cbn [chamar_sistema_todas]. unfold liga.
  pose proof (chamar_sistema_registro c r amb s Hok) as H.
  destruct (tentar_estado (chamar_sistema c) r amb s) as [E1 E2].
  rewrite <- E1, <- E2 in H.
  destruct (tentar (chamar_sistema c) r amb s) as [[[u|e] amb'] s'];
    cbn [fst snd] in H |- *; [now apply IH|exact H].
Qed.

Lemma sistema_completo_apos_ok r amb ident cs :
  registro_ok (fst (sistema_completo_apos r amb ident cs))
              (snd (sistema_completo_apos r amb ident cs)).
Proof.
  unfold sistema_completo_apos. cbn [fst snd].
  apply chamar_sistema_todas_registro, registro_vazio.
Qed.

(** ** Registering, finding and excluding participants *)

Lemma validar_cpf_onze c :
  String.length (so_digitos c) = 11%nat ->
  Participante_._validar_cpf (OValor (VStr c)) = true.
Proof.
  intros H. unfold Participante_._validar_cpf.
  destruct c as [|a c]; [discriminate|].
  cbn [verdade e_str truthy String.eqb negb orb]. rewrite H. reflexivity.
Qed.

(** X17. [cadastrar_participante] raises ValueError, before looking at the
    registry, when [Participante.__init__] refuses the arguments: the other
    outcomes come only with a non-empty name, a CPF of eleven digits, a
    well-formed e-mail and a date of birth.  It then raises
    ParticipanteInvalido when the eleven digits of the CPF are already a key
    of the registry and, failing that, when a registered participant has the
    same e-mail; in these cases participants and auctions stay as they were.
    Otherwise the new participant is filed under the digits of the CPF, the
    other entries and the auctions are untouched, the participant has no
    bids, and [buscar_participante_por_cpf] finds them from any string with
    the same digits, the one given at registration included. *)
Theorem X17_cadastrar_participante
  (o_n o_c o_e o_d : Objeto) (r : Relogio) (amb : Ambiente)
  (s : SistemaCompleto) :
  match cadastrar_participante o_n o_c o_e o_d r amb s with
  | (Retorna (Normal p), amb', s') =>
      _participantes s !! cpf p = None
      /\ (forall k q, _participantes s !! k = Some q -> email q <> email p)
      /\ _participantes s' = <[cpf p := p]> (_participantes s)
      /\ leiloes_do_sistema s' = leiloes_do_sistema s
      /\ o_n = OValor (VStr (nome_p p)) /\ nome_p p <> ""%string
      /\ o_e = OValor (VStr (email p))
      /\ Participante_._validar_cpf o_c = true
      /\ Participante_._validar_email o_e = true
      /\ e_date o_d = true
      /\ String.length (cpf p) = 11%nat
      /\ _formatar_cpf_busca o_c = cpf p
      /\ _formatar_cpf_busca (OValor (VStr (cpf p))) = cpf p
      /\ (forall o r',
            _formatar_cpf_busca o = cpf p ->
            buscar_participante_por_cpf o r' amb' s'
            = (Retorna (Some p), amb', s'))
      /\ pode_ser_excluido p r amb' s' = (Retorna true, amb', s')
  | (Retorna (ParticipanteInvalido msg), amb', s') =>
      _participantes s' = _participantes s
      /\ leiloes_do_sistema s' = leiloes_do_sistema s
      /\ exists n c e,
           o_n = OValor (VStr n) /\ n <> ""%string
           /\ o_c = OValor (VStr c) /\ o_e = OValor (VStr e)
           /\ Participante_._validar_cpf o_c = true
           /\ Participante_._validar_email o_e = true
           /\ e_date o_d = true
           /\ String.length (so_digitos c) = 11%nat
           /\ ((is_Some (_participantes s !! so_digitos c)
                /\ msg = ("CPF " ++ so_digitos c ++ " já cadastrado.")%string)
               \/ (_participantes s !! so_digitos c = None
                   /\ (exists k q, _participantes s !! k = Some q /\ email q = e)
                   /\ msg = ("Email " ++ e ++ " já cadastrado.")%string))
  | (Levanta ex, amb', s') =>
      amb' = amb
      /\ _participantes s' = _participantes s
      /\ leiloes_do_sistema s' = leiloes_do_sistema s
      /\ (exists msg, ex = ValueError msg)
      /\ (negb (verdade o_n) || negb (e_str o_n) = true
          \/ Participante_._validar_cpf o_c = false
          \/ Participante_._validar_email o_e = false
          \/ e_date o_d = false)
  end.
Proof.
  destruct (cadastrar_participante_casos o_n o_c o_e o_d r amb s)
    as [(msg & -> & H)|(n & c & e & -> & Hn & -> & Hc & -> & He & Hd & ->)];
    cbv zeta.
  - repeat split; eauto.
  - pose proof (validar_cpf_onze c Hc) as Hvc.
    destruct (bool_decide (is_Some (_participantes s !! so_digitos c))) eqn:E1.
    { apply bool_decide_eq_true in E1. split; [reflexivity|].
      split; [reflexivity|]. exists n, c, e. repeat split; auto. }
    apply bool_decide_eq_false in E1.
    assert (Hnone : _participantes s !! so_digitos c = None).
    { destruct (_participantes s !! so_digitos c); [|reflexivity].
      exfalso. apply E1. eauto. }
    destruct (bool_decide
                (map_Exists (fun _ q => email q = e) (_participantes s))) eqn:E2.
    { apply bool_decide_eq_true in E2. apply map_Exists_lookup in E2.
      split; [reflexivity|]. split; [reflexivity|]. exists n, c, e.
      repeat split; auto. }
    apply bool_decide_eq_false in E2.
    cbn [cpf email nome_p pid com_participantes _participantes
         leiloes_do_sistema].
    rewrite !formatar_cpf_busca_str, so_digitos_idem.
    repeat split; try assumption; try reflexivity.
    + intros k q Hq Heq. apply E2. apply map_Exists_lookup. eauto.
    + intros o r' Ho. unfold buscar_participante_por_cpf, liga, obter, ret.
      unfold com_participantes. cbn [_participantes cpf] in Ho |- *.
      now rewrite Ho, lookup_insert_eq.
    + unfold pode_ser_excluido. cbn [pid ofertantes]. f_equal. f_equal. f_equal.
      apply bool_decide_eq_true. intros Hin.
      apply elem_of_difference in Hin. destruct Hin as [_ Hfora].
      apply Hfora. now apply elem_of_singleton.
Qed.

(** X18. [excluir_participante] raises nothing but ParticipanteInvalido: when
    the digits of the argument are not a key of the registry, and when the
    participant found has a bid; the registry is then untouched.  Otherwise
    that entry, and no other, is removed, the auctions are untouched, and
    the same search no longer finds the participant. *)
Theorem X18_excluir_participante
  (o : Objeto) (r : Relogio) (amb : Ambiente) (s : SistemaCompleto) :
  let k := _formatar_cpf_busca o in
  match excluir_participante o r amb s with
  | (Retorna (Normal _), amb', s') =>
      amb' = amb
      /\ (exists p, _participantes s !! k = Some p
                    /\ pid p ∉ ofertantes amb)
      /\ _participantes s' = delete k (_participantes s)
      /\ leiloes_do_sistema s' = leiloes_do_sistema s
      /\ (forall k', k' <> k -> _participantes s' !! k' = _participantes s !! k')
      /\ (forall r', buscar_participante_por_cpf o r' amb' s'
                     = (Retorna None, amb', s'))
  | (Retorna (ParticipanteInvalido _), amb', s') =>
      amb' = amb /\ s' = s
      /\ (_participantes s !! k = None
          \/ exists p, _participantes s !! k = Some p
                       /\ pid p ∈ ofertantes amb)
  | (Levanta _, _, _) => False
  end.
Proof.
  intros k. rewrite excluir_participante_executa. cbv zeta. fold k.
  destruct (_participantes s !! k) as [p|] eqn:E; [|now auto].
  destruct (bool_decide (pid p ∉ ofertantes amb)) eqn:E1.
  - apply bool_decide_eq_true in E1.
    cbn [com_participantes _participantes leiloes_do_sistema].
    repeat split; eauto.
    + intros k' Hk'. now apply lookup_delete_ne.
    + intros r'. unfold buscar_participante_por_cpf, liga, obter, ret.
      unfold com_participantes. cbn [_participantes]. fold k.
      now rewrite lookup_delete_eq.
  - apply bool_decide_eq_false in E1.
    split; [reflexivity|]. split; [reflexivity|]. right. exists p.
    split; [reflexivity|].
    destruct (decide (pid p ∈ ofertantes amb)) as [Hin|Hout];
      [exact Hin|contradiction].
Qed.

(** ** Bidding through the registry *)

(** X19. [propor_lance_sistema] checks its arguments in this order.  When
    the digits of the CPF are not a key of the registry it raises
    ParticipanteInvalido, whatever the auction and the amount.  Failing
    that, when no auction has the name it raises LeilaoInvalido, whatever
    the amount.  Failing that, when the amount is not an [int] or [float], or
    is at or below zero, it raises ValueError, and when it is an [int] beyond
    the range of [float] it raises OverflowError.  In these cases nothing is
    changed and the clock is not read, so the state of the auction is not
    derived.  Otherwise the outcome is that of [Leilao.propor_lance] on the
    first auction of that name with the bid of the registered participant,
    whose amount is what [float] converts the argument to:
    ParticipanteInvalido cannot come out of this last step, and the
    participants of the registry are untouched. *)
Theorem X19_propor_lance_sistema
  (o : Objeto) (n : Valor) (ov : Objeto) (r : Relogio) (amb : Ambiente)
  (s : SistemaCompleto) :
  match _participantes s !! _formatar_cpf_busca o with
  | None =>
      exists msg,
        propor_lance_sistema o n ov r amb s
        = (Retorna (ParticipanteInvalido msg), amb, s)
  | Some p =>
      match Sistema.indice_por_nome n (_leiloes (leiloes_do_sistema s)) with
      | None =>
          exists msg,
            propor_lance_sistema o n ov r amb s
            = (Levanta (LeilaoInvalido msg), amb, s)
      | Some i =>
          (exists e,
              propor_lance_sistema o n ov r amb s = (Levanta e, amb, s)
              /\ ((exists msg, e = ValueError msg)
                  /\ (forall v, ov = OValor v ->
                        isinstance_int_float v = false \/ py_le_0 v = true)
                  \/ e = OverflowError "int too large to convert to float"
                     /\ exists z, ov = OValor (VInt z)
                          /\ py_le_0 (VInt z) = false
                          /\ float_de_int z = None))
          \/ (exists v q l,
                ov = OValor v /\ isinstance_int_float v = true
                /\ py_le_0 v = false /\ float_de v = Retorna q
                /\ _leiloes (leiloes_do_sistema s) !! i = Some l
                /\ n = VStr (nome l)
                /\ match Leilao_.propor_lance
                           (VLance {| participante := p; valor := q |}) r amb l
                   with
                   | (res, amb', l') =>
                       propor_lance_sistema o n ov r amb s
                       = (match res with
                          | Retorna _ => Retorna (Normal tt)
                          | Levanta e => Levanta e
                          end, amb',
                          {| _participantes := _participantes s;
                             leiloes_do_sistema :=
                               {| _leiloes :=
                                    <[i := l']> (_leiloes (leiloes_do_sistema s)) |};
                             proximo_objeto := proximo_objeto s |})
                   end)
      end
  end.
Proof.
  rewrite propor_lance_sistema_executa.
  destruct (_participantes s !! _formatar_cpf_busca o) as [p|]; [|eauto].
  destruct (Sistema.indice_por_nome n (_leiloes (leiloes_do_sistema s)))
    as [i|] eqn:Ei; [|eauto].
  destruct (indice_por_nome_Some _ _ _ Ei) as (l & Hl & Hn & _).
  destruct (lance_init_casos p ov r amb s)
    as [(e & E & He)|(v & q & -> & Hi & Hle & Hq & E)].
  - left. exists e. rewrite E. split; [reflexivity|exact He].
  - right. exists v, q, l. rewrite E.
    repeat (split; [assumption || reflexivity|]).
    unfold nos_leiloes.
    rewrite (no_leilao_executa i _ r amb (leiloes_do_sistema s) l Hl).
    destruct (Leilao_.propor_lance _ r amb l) as [[[u|e] amb'] l'];
      reflexivity.
Qed.

(** A bid of 2^53 + 1 through the registry is stored as 2^53. *)
Example X19_arredonda :
  _leiloes (leiloes_do_sistema
    (snd (chamar_sistema_todas
            [s_cadastrar_participante (OValor (VStr "Alice"))
               (OValor (VStr "111.111.111-11")) (OValor (VStr "alice@test.com"))
               (ODate 726000);
             s_cadastrar_leilao (VStr "Console") (VInt 100)
               (VDatetime (Ingenua 10)) (VDatetime (Ingenua 20));
             s_propor_lance_sistema (OValor (VStr "11111111111")) (VStr "Console")
               (OValor (VInt (2 ^ 53 + 1)))]
            (relogio_fixo 15) amb0 (sistema_completo_vazio 1))))
  = [ {| nome := "Console"; lance_minimo := FFin (inject_Z 100);
         data_inicio := Ingenua 10; data_termino := Ingenua 20;
         _lances := [ {| participante := alice;
                         valor := FFin (inject_Z (2 ^ 53)) |} ];
         _estado := ABERTO; _ganhador := None |} ].
Proof. vm_compute. reflexivity. Qed.

(** ** The registry reached by calls of its methods *)

(** X20. In every registry reached by calls of its methods, whatever their
    arguments and the clock: each participant is filed under their own CPF,
    which is eleven digits, so that [buscar_participante_por_cpf] finds them
    from that CPF; and two registered participants that
    [Participante.__eq__] equates are one and the same entry, so they share
    neither a CPF nor an e-mail. *)
Theorem X20_participantes_do_registro
  (r : Relogio) (amb : Ambiente) (ident : nat) (cs : list ChamadaSistema) :
  let amb' := fst (sistema_completo_apos r amb ident cs) in
  let s := snd (sistema_completo_apos r amb ident cs) in
  (forall k p,
      _participantes s !! k = Some p ->
      cpf p = k /\ String.length k = 11%nat
      /\ Forall (fun c => digito c = true) (list_ascii_of_string k)
      /\ forall r', buscar_participante_por_cpf (OValor (VStr k)) r' amb' s
                    = (Retorna (Some p), amb', s))
  /\ (forall k1 k2 p1 p2,
        _participantes s !! k1 = Some p1 ->
        _participantes s !! k2 = Some p2 ->
        participante_eq p1 p2 = true -> k1 = k2 /\ p1 = p2).
Proof.
  intros amb' s.
  pose proof (sistema_completo_apos_ok r amb ident cs) as Hok.
  fold amb' in Hok. fold s in Hok. destruct Hok as [Hc He Hi Hl].
  split.
  - intros k p Hk. destruct (Hc k p Hk) as (H1 & H2 & H3 & H4).
    repeat split; try assumption.
    + rewrite <- H3. apply so_digitos_digitos.
    + intros r'. unfold buscar_participante_por_cpf, liga, obter, ret.
      now rewrite formatar_cpf_busca_str, H3, Hk.
  - intros k1 k2 p1 p2 H1 H2 Heq.
    assert (Hk : k1 = k2).
    { unfold participante_eq in Heq. apply orb_true_iff in Heq.
      destruct Heq as [Heq|Heq]; apply String.eqb_eq in Heq.
      - destruct (Hc k1 p1 H1) as (<- & _). destruct (Hc k2 p2 H2) as (<- & _).
        exact Heq.
      - now apply (He k1 k2 p1 p2). }
    split; [exact Hk|]. subst k2. congruence.
Qed.

(** X21. In every registry reached by calls of its methods, the bidder of
    every bid of every auction is a registered participant, filed under the
    CPF the bid carries, and [excluir_participante] refuses to remove them:
    it raises ParticipanteInvalido and leaves the registry as it is.  No
    bid outlives its bidder. *)
Theorem X21_ofertantes_registrados
  (r : Relogio) (amb : Ambiente) (ident : nat) (cs : list ChamadaSistema)
  (l : Leilao) (b : Lance) :
  let amb' := fst (sistema_completo_apos r amb ident cs) in
  let s := snd (sistema_completo_apos r amb ident cs) in
  l ∈ _leiloes (leiloes_do_sistema s) ->
  b ∈ _lances l ->
  _participantes s !! cpf (participante b) = Some (participante b)
  /\ forall o r',
       _formatar_cpf_busca o = cpf (participante b) ->
       exists msg,
         excluir_participante o r' amb' s
         = (Retorna (ParticipanteInvalido msg), amb', s).
Proof.
  intros amb' s Hin Hb.
  pose proof (sistema_completo_apos_ok r amb ident cs) as Hok.
  fold amb' in Hok. fold s in Hok.
  destruct (reg_lances _ _ Hok l b Hin Hb) as [H1 H2].
  split; [exact H1|]. intros o r' Ho.
  rewrite excluir_participante_executa. cbv zeta. rewrite Ho, H1.
  rewrite bool_decide_eq_false_2 by (intros Hn; now apply Hn).
  eauto.
Qed.

Lemma X21_witness :
  let amb' := fst (sistema_completo_apos relogio_15_25 amb0 1
                     chamadas_sistema_exemplo) in
  let s := snd (sistema_completo_apos relogio_15_25 amb0 1
                  chamadas_sistema_exemplo) in
  leilao_10_20 [lance_de alice 110] ABERTO None
    ∈ _leiloes (leiloes_do_sistema s)
  /\ lance_de alice 110
       ∈ _lances (leilao_10_20 [lance_de alice 110] ABERTO None)
  /\ _participantes s !! "11111111111"%string = Some alice
  /\ exists msg,
       excluir_participante (OValor (VStr "111.111.111-11"))
         (relogio_fixo 30) amb' s
       = (Retorna (ParticipanteInvalido msg), amb', s).
Proof.
  intros amb' s.
  assert (H1 : leilao_10_20 [lance_de alice 110] ABERTO None
                 ∈ _leiloes (leiloes_do_sistema s))
    by (vm_compute; apply list_elem_of_here).
  assert (H2 : lance_de alice 110
                 ∈ _lances (leilao_10_20 [lance_de alice 110] ABERTO None))
    by apply list_elem_of_here.
  split; [exact H1|]. split; [exact H2|].
  destruct (X21_ofertantes_registrados relogio_15_25 amb0 1
              chamadas_sistema_exemplo _ _ H1 H2) as [H3 H4].
  split; [exact H3|].
  apply (H4 (OValor (VStr "111.111.111-11")) (relogio_fixo 30)).
  reflexivity.
Defined.

(** ** The auctions of the registry reached by calls of its methods *)

Lemma preserva_nos_leiloes {A} (P : SistemaLeiloes -> Prop)
  (m : M SistemaLeiloes A) :
  preserva P m -> preserva (fun s => P (leiloes_do_sistema s)) (nos_leiloes m).
Proof.
  intros Hm r amb s H. unfold nos_leiloes.
  specialize (Hm r amb (leiloes_do_sistema s) H).
  now destruct (m r amb (leiloes_do_sistema s)) as [[res amb'] sl'].
Qed.

Lemma cadastrar_participante_leiloes o_n o_c o_e o_d r amb s :
  leiloes_do_sistema (snd (cadastrar_participante o_n o_c o_e o_d r amb s))
  = leiloes_do_sistema s.
Proof.
  destruct (cadastrar_participante_casos o_n o_c o_e o_d r amb s)
    as [(msg & -> & _)|(n & c & e & _ & _ & _ & _ & _ & _ & _ & ->)];
    cbv zeta; [reflexivity|].
  destruct (bool_decide _); [reflexivity|].
  destruct (bool_decide _); reflexivity.
Qed.

Lemma excluir_participante_leiloes o r amb s :
  leiloes_do_sistema (snd (excluir_participante o r amb s))
  = leiloes_do_sistema s.
Proof.
  rewrite excluir_participante_executa. cbv zeta.
  destruct (_participantes s !! _formatar_cpf_busca o) as [p|]; [|reflexivity].
  destruct (bool_decide _); reflexivity.
Qed.

Lemma propor_lance_sistema_leiloes_ok o n ov :
  preserva (fun s => todos_ok (leiloes_do_sistema s))
    (propor_lance_sistema o n ov).
Proof.
  intros r amb s H. rewrite propor_lance_sistema_executa.
  destruct (_participantes s !! _formatar_cpf_busca o) as [p|]; [|exact H].
  destruct (Sistema.indice_por_nome n (_leiloes (leiloes_do_sistema s)))
    as [i|]; [|exact H].
  destruct (lance_init_casos p ov r amb s)
    as [(e & -> & _)|(v & q & _ & _ & _ & _ & ->)]; [exact H|].
  assert (Hp : preserva (fun s => todos_ok (leiloes_do_sistema s))
                 (nos_leiloes
                    (no_leilao i
                       (Leilao_.propor_lance
                          (VLance {| participante := p; valor := q |}))))).
  { apply (preserva_nos_leiloes todos_ok), (preserva_no_leilao leilao_ok).
    apply preserva_propor_lance; [apply derivar_ok|apply aceitar_ok]. }
  specialize (Hp r amb s H).
  now destruct (nos_leiloes _ r amb s) as [[[u|e] amb'] s'].
Qed.

Lemma chamar_sistema_leiloes_ok c :
  preserva (fun s => todos_ok (leiloes_do_sistema s)) (chamar_sistema c).
Proof.
  destruct c; cbn [chamar_sistema].
  - apply preserva_tentar. intros r amb s H.
    now rewrite cadastrar_participante_leiloes.
  - apply preserva_tentar. intros r amb s H.
    now rewrite excluir_participante_leiloes.
  - apply preserva_tentar, (preserva_nos_leiloes todos_ok), cadastrar_ok.
  - apply (preserva_nos_leiloes todos_ok), alterar_ok.
  - apply (preserva_nos_leiloes todos_ok), excluir_ok.
  - apply preserva_tentar, (preserva_nos_leiloes todos_ok).
    apply pv_listar_leiloes, derivar_ok.
  - apply preserva_tentar, propor_lance_sistema_leiloes_ok.
  - apply preserva_tentar, (preserva_nos_leiloes todos_ok).
    apply pv_obter_ganhador_leilao, derivar_ok.
  - apply preserva_tentar, (preserva_nos_leiloes todos_ok).
    apply pv_notificar_ganhador, derivar_ok.
  - apply preserva_tentar. intros r amb s H. exact H.
  - apply preserva_tentar, (preserva_nos_leiloes todos_ok), buscar_ok.
  - apply preserva_tentar, (preserva_nos_leiloes todos_ok).
    apply pv_listar_lances_leilao.
  - apply preserva_tentar, (preserva_nos_leiloes todos_ok).
    apply pv_obter_maior_lance_leilao.
  - apply preserva_tentar, (preserva_nos_leiloes todos_ok).
    apply pv_obter_menor_lance_leilao.
Qed.

Lemma sistema_completo_apos_leiloes_ok r amb ident cs :
  todos_ok (leiloes_do_sistema (snd (sistema_completo_apos r amb ident cs))).
Proof.
  unfold sistema_completo_apos. cbn [snd].
  assert (H : forall cs', preserva (fun s => todos_ok (leiloes_do_sistema s))
                            (chamar_sistema_todas cs')).
  { induction cs' as [|c cs' IH]; cbn [chamar_sistema_todas];
      [apply preserva_ret|].
    apply preserva_liga; [|intros _; exact IH].
    apply preserva_tentar, chamar_sistema_leiloes_ok. }
  apply H. constructor.
Qed.

(** X22. In a registry reached by calls of its methods, when
    [obter_ganhador_leilao] returns a participant, under any clock, the
    named auction is FINALIZADO, the participant is the bidder of the bid
    that [maior_lance] returns, which is the last bid of the log when no
    amount is not-a-number; the participant is still registered under their
    CPF, and cannot be excluded.  The call changes no participant. *)
Theorem X22_ganhador_registrado
  (r : Relogio) (amb : Ambiente) (ident : nat) (cs : list ChamadaSistema)
  (n : Valor) (r' : Relogio) (g : Participante) (amb'' : Ambiente)
  (s'' : SistemaCompleto) :
  let amb' := fst (sistema_completo_apos r amb ident cs) in
  let s := snd (sistema_completo_apos r amb ident cs) in
  nos_leiloes (obter_ganhador_leilao n) r' amb' s
  = (Retorna (Some g), amb'', s'') ->
  (exists i l b,
      _leiloes (leiloes_do_sistema s'') !! i = Some l
      /\ n = VStr (nome l)
      /\ _estado l = FINALIZADO
      /\ b ∈ _lances l
      /\ fst (fst (Leilao_.maior_lance r' amb'' l)) = Retorna (Some b)
      /\ (so_numeros valor (_lances l) = true -> last (_lances l) = Some b)
      /\ g = participante b)
  /\ _participantes s'' = _participantes s
  /\ _participantes s'' !! cpf g = Some g
  /\ forall o r2,
       _formatar_cpf_busca o = cpf g ->
       exists msg,
         excluir_participante o r2 amb'' s''
         = (Retorna (ParticipanteInvalido msg), amb'', s'').
Proof.
  intros amb' s H.
  pose proof (sistema_completo_apos_ok r amb ident cs) as Hok.
  pose proof (sistema_completo_apos_leiloes_ok r amb ident cs) as Htodos.
  fold amb' in Hok. fold s in Hok, Htodos.
  unfold nos_leiloes, obter_ganhador_leilao in H.
  unfold liga at 1 in H.
  unfold Sistema.buscar_leilao_por_nome, liga at 1, obter, ret in H.
  destruct (Sistema.indice_por_nome n (_leiloes (leiloes_do_sistema s)))
    as [i|] eqn:Ei; [|discriminate].
  destruct (indice_por_nome_Some _ _ _ Ei) as (l0 & Hl0 & Hn & _).
  rewrite (no_leilao_executa i _ r' amb' (leiloes_do_sistema s) l0 Hl0),
    ganhador_derivar in H.
  cbn [fst snd] in H.
  set (l1 := derivar (r' (leituras amb')) l0) in H.
  destruct (deriva (r' (leituras amb')) l0); [|discriminate].
  cbn [se_deriva] in H.
  destruct (estado_eqb (_estado l1) FINALIZADO) eqn:Ef; [|discriminate].
  injection H as Hg <- <-.
  assert (Hin0 : l0 ∈ _leiloes (leiloes_do_sistema s))
    by (eapply list_elem_of_lookup_2; eauto).
  assert (Hok1 : leilao_ok l1).
  { apply derivar_ok. unfold todos_ok in Htodos.
    rewrite Forall_forall in Htodos. now apply Htodos. }
  assert (Hfin : _estado l1 = FINALIZADO)
    by (destruct (_estado l1); try discriminate; reflexivity).
  destruct (ok_finalizado _ Hok1 Hfin) as (x & rest & Hlog & Hgan).
  set (b := max_desde valor x rest) in *.
  assert (Hgb : g = participante b) by congruence.
  assert (Hb1 : b ∈ _lances l1) by (rewrite Hlog; apply max_desde_elemento).
  assert (Hb : b ∈ _lances l0)
    by (unfold l1 in Hb1; now rewrite derivar_lances in Hb1).
  destruct (reg_lances _ _ Hok l0 b Hin0 Hb) as [Hreg Hmarca].
  cbn [_participantes leiloes_do_sistema _leiloes].
  split; [|split; [reflexivity|split]].
  - exists i, l1, b. split.
    + apply list_lookup_insert_eq. eapply lookup_lt_Some; eauto.
    + split; [unfold l1; now rewrite derivar_nome|].
      split; [exact Hfin|]. split; [exact Hb1|].
      split; [now rewrite maior_lance_executa, Hlog|].
      split; [|exact Hgb].
      intros Hnum. rewrite Hlog. apply crescente_max_ultimo. rewrite <- Hlog.
      apply acima_crescente; [exact Hnum|apply Hok1].
  - now rewrite Hgb.
  - intros o r2 Ho. rewrite excluir_participante_executa. cbv zeta.
    cbn [_participantes]. rewrite Ho, Hgb, Hreg.
    rewrite bool_decide_eq_false_2 by (intros Hn'; now apply Hn').
    eauto.
Qed.

Lemma X22_witness :
  let amb' := fst (sistema_completo_apos relogio_15_25 amb0 1
                     chamadas_sistema_exemplo) in
  let s := snd (sistema_completo_apos relogio_15_25 amb0 1
                  chamadas_sistema_exemplo) in
  let fim := nos_leiloes (obter_ganhador_leilao (VStr "Console"))
               (relogio_fixo 30) amb' s in
  fim = (Retorna (Some alice), snd (fst fim), snd fim)
  /\ _participantes (snd fim) !! cpf alice = Some alice
  /\ exists msg,
       excluir_participante (OValor (VStr "111.111.111-11")) (relogio_fixo 40)
         (snd (fst fim)) (snd fim)
       = (Retorna (ParticipanteInvalido msg), snd (fst fim), snd fim).
Proof.
  intros amb' s fim.
  assert (H : fim = (Retorna (Some alice), snd (fst fim), snd fim))
    by (vm_compute; reflexivity).
  split; [exact H|].
  destruct (X22_ganhador_registrado relogio_15_25 amb0 1
              chamadas_sistema_exemplo (VStr "Console") (relogio_fixo 30)
              alice (snd (fst fim)) (snd fim) H) as (_ & _ & H3 & H4).
  split; [exact H3|].
  apply (H4 (OValor (VStr "111.111.111-11")) (relogio_fixo 40)). reflexivity.
Defined.

